(** * Montana specimens mapper: the county-map data pipeline

    A shallow embedding of the pipeline of [montana_specimens_mapper.py]
    ([dms_to_decimal], [convert_coordinates], [generate_map],
    [process_county_data], [display_maps]) and of the functions around it
    ([load_excel], the two dropdown updates, the default ranges,
    [set_panel_widths], [download_map]), together with the parts of the
    Python runtime they lean on: text as sequences of code points,
    [str.strip], [str.replace], [str.split], [str.title], [float(...)] and
    [int(...)] on numbers and text, [list.sort], IEEE binary64 arithmetic,
    and the backtracking matcher behind [re.match]. *)

From Stdlib Require Import ZArith NArith QArith Qabs Bool List String Ascii Lia.
From Stdlib Require Import Permutation Sorted RelationClasses.
From Stdlib Require Import SpecFloat.
From Stdlib Require Decimal DecimalPos.
Import ListNotations.

Set Implicit Arguments.

(* ================================================================= *)
(** ** Text: Python [str] as a list of Unicode code points *)

Module PyStr.

Definition codepoint := N.
Definition pystr := list codepoint.

Open Scope N_scope.

(** A string literal of this file is a sequence of UTF-8 bytes; [lit]
    decodes it to the code points a Python literal with the same text
    denotes. *)
Fixpoint utf8_decode (bs : list N) : pystr :=
  match bs with
  | [] => []
  | b :: r =>
    if b <? 128 then b :: utf8_decode r
    else if b <? 224 then
      match r with
      | b1 :: r1 => ((b mod 32) * 64 + b1 mod 64) :: utf8_decode r1
      | [] => []
      end
    else if b <? 240 then
      match r with
      | b1 :: b2 :: r2 =>
        ((b mod 16) * 4096 + (b1 mod 64) * 64 + b2 mod 64) :: utf8_decode r2
      | _ => []
      end
    else
      match r with
      | b1 :: b2 :: b3 :: r3 =>
        ((b mod 8) * 262144 + (b1 mod 64) * 4096 + (b2 mod 64) * 64 + b3 mod 64)
          :: utf8_decode r3
      | _ => []
      end
  end.

Definition lit (s : string) : pystr :=
  utf8_decode (map N_of_ascii (list_ascii_of_string s)).

Definition str_eqb (a b : pystr) : bool :=
  if list_eq_dec N.eq_dec a b then true else false.

(** Membership of a code point in a list of inclusive ranges. *)
Definition in_range (c : codepoint) (r : N * N) : bool :=
  (fst r <=? c) && (c <=? snd r).

Definition in_ranges (c : codepoint) (rs : list (N * N)) : bool :=
  existsb (in_range c) rs.

(** [Py_UNICODE_ISSPACE]: the predicate behind [str.strip()], [str.isspace()]
    and the class [\s] of [re] on text patterns. *)
Definition space_ranges : list (N * N) :=
  [ (0x09, 0x0D); (0x1C, 0x20); (0x85, 0x85); (0xA0, 0xA0); (0x1680, 0x1680);
    (0x2000, 0x200A); (0x2028, 0x2029); (0x202F, 0x202F); (0x205F, 0x205F);
    (0x3000, 0x3000) ].

Definition isspace (c : codepoint) : bool := in_ranges c space_ranges.

(** [Py_UNICODE_TODECIMAL]: the decimal digits of Unicode come in runs of ten
    consecutive code points, zero first.  The table lists the first code
    point of each run (Unicode 14.0, the database of CPython 3.11). *)
Definition decimal_zeros : list N :=
  [ 0x30; 0x660; 0x6F0; 0x7C0; 0x966; 0x9E6; 0xA66; 0xAE6; 0xB66; 0xBE6;
    0xC66; 0xCE6; 0xD66; 0xDE6; 0xE50; 0xED0; 0xF20; 0x1040; 0x1090; 0x17E0;
    0x1810; 0x1946; 0x19D0; 0x1A80; 0x1A90; 0x1B50; 0x1BB0; 0x1C40; 0x1C50;
    0xA620; 0xA8D0; 0xA900; 0xA9D0; 0xA9F0; 0xAA50; 0xABF0; 0xFF10; 0x104A0;
    0x10D30; 0x11066; 0x110F0; 0x11136; 0x111D0; 0x112F0; 0x11450; 0x114D0;
    0x11650; 0x116C0; 0x11730; 0x118E0; 0x11950; 0x11C50; 0x11D50; 0x11DA0;
    0x16A60; 0x16AC0; 0x16B50; 0x1D7CE; 0x1D7D8; 0x1D7E2; 0x1D7EC; 0x1D7F6;
    0x1E140; 0x1E2F0; 0x1E950; 0x1FBF0 ].

Definition decimal_ranges : list (N * N) :=
  map (fun z => (z, z + 9)) decimal_zeros.

Definition todecimal (c : codepoint) : option N :=
  match find (fun z => in_range c (z, z + 9)) decimal_zeros with
  | Some z => Some (c - z)
  | None => None
  end.

(** [Py_UNICODE_ISDECIMAL], the class [\d] of [re] on text patterns. *)
Definition isdecimal (c : codepoint) : bool :=
  match todecimal c with Some _ => true | None => false end.

(** The ASCII digits, as the C code of [float] tests them. *)
Definition is_ascii_digit (c : codepoint) : bool := (48 <=? c) && (c <=? 57).

(** [Py_ISSPACE]: white space for the C locale, used by [float] after the
    text has been brought to ASCII. *)
Definition Py_ISSPACE (c : codepoint) : bool :=
  ((9 <=? c) && (c <=? 13)) || (c =? 32).

Fixpoint dropwhile (p : codepoint -> bool) (s : pystr) : pystr :=
  match s with
  | [] => []
  | c :: r => if p c then dropwhile p r else s
  end.

Definition rdropwhile (p : codepoint -> bool) (s : pystr) : pystr :=
  rev (dropwhile p (rev s)).

(** [s.strip()] *)
Definition str_strip (s : pystr) : pystr :=
  rdropwhile isspace (dropwhile isspace s).

Fixpoint starts_with (p s : pystr) : bool :=
  match p, s with
  | [], _ => true
  | _ :: _, [] => false
  | a :: p', b :: s' => (a =? b) && starts_with p' s'
  end.

(** [s.replace(old, new)]: every occurrence of [old], scanning from the left
    and without overlap, becomes [new].  [skip] counts the characters of an
    occurrence that are still to be passed over. *)
Fixpoint replace_from (old new : pystr) (skip : nat) (s : pystr) : pystr :=
  match s with
  | [] => []
  | c :: r =>
    match skip with
    | S k => replace_from old new k r
    | O =>
      if starts_with old s
      then new ++ replace_from old new (Nat.pred (List.length old)) r
      else c :: replace_from old new 0 r
    end
  end.

Definition str_replace (old new s : pystr) : pystr :=
  match old with
  | [] => new ++ flat_map (fun c => c :: new) s
  | _ :: _ => replace_from old new 0 s
  end.

Definition is_ascii (c : codepoint) : bool := c <? 128.

Definition ascii_lower (c : codepoint) : codepoint :=
  if (65 <=? c) && (c <=? 90) then c + 32 else c.

Definition ascii_upper (c : codepoint) : codepoint :=
  if (97 <=? c) && (c <=? 122) then c - 32 else c.

End PyStr.

Export PyStr.

(* ================================================================= *)
(** ** Exceptions *)

Inductive exn :=
| ValueError
| OverflowError
| TypeError
| TclError
| OtherError.

(** The outcome of a Python expression that may raise. *)
Inductive result (A : Type) :=
| Ok (a : A)
| Raise (e : exn).

Arguments Ok {A} a.
Arguments Raise {A} e.

Definition bind {A B : Type} (r : result A) (k : A -> result B) : result B :=
  match r with
  | Ok a => k a
  | Raise e => Raise e
  end.

Declare Scope py_scope.
Delimit Scope py_scope with py.
Notation "x <- e ;; k" := (bind e (fun x => k))
  (at level 61, e at next level, right associativity) : py_scope.

Definition returns {A : Type} (r : result A) : Prop := exists a, r = Ok a.

(* ================================================================= *)
(** ** Python [float]: IEEE 754 binary64 *)

Module F64.

Open Scope Z_scope.

Definition float := spec_float.
Definition prec : Z := 53.
Definition emax : Z := 1024.

Definition nan : float := S754_nan.
Definition inf : float := S754_infinity false.

Definition is_nan (x : float) : bool :=
  match x with S754_nan => true | _ => false end.

Definition fadd : float -> float -> float := SFadd prec emax.
Definition fdiv : float -> float -> float := SFdiv prec emax.
Definition fneg : float -> float := SFopp.
Definition fabs : float -> float := SFabs.

(** [a <= b] and [a >= b] on floats; both are false when a NaN is involved. *)
Definition fle (a b : float) : bool := SFleb a b.
Definition fge (a b : float) : bool := SFleb b a.
Definition flt (a b : float) : bool := SFltb a b.
Definition feq (a b : float) : bool := SFeqb a b.

(** The integer [n] rounded to the nearest float, ties to even. *)
Definition of_Z (n : Z) : float := binary_normalize prec emax n 0 false.

(** The decimal [(-1)^s * m * 10^e] ([0 <= m]) rounded to the nearest float,
    ties to even; a magnitude beyond the largest float gives an infinity. *)
Definition round_decimal (s : bool) (m e : Z) : float :=
  if 0 <=? e then binary_normalize prec emax (cond_Zopp s (m * 10 ^ e)) 0 s
  else
    match m with
    | Z0 => S754_zero s
    | _ =>
      let '(q, e', l) := SFdiv_core_binary prec emax (Z.abs m) 0 (10 ^ (- e)) 0 in
      binary_round_aux prec emax s q e' l
    end.

(** The exact rational value of a finite float. *)
Definition to_Q (x : float) : option Q :=
  match x with
  | S754_zero _ => Some 0%Q
  | S754_finite s m e =>
    let v := if 0 <=? e then inject_Z (Zpos m * 2 ^ e)
             else Qmake (Zpos m) (Z.to_pos (2 ^ (- e))) in
    Some (if s then Qopp v else v)
  | _ => None
  end.

(** [float(n)] for an [int]: raises [OverflowError] when the rounded value
    does not fit. *)
Definition float_of_int (n : Z) : result float :=
  match of_Z n with
  | S754_infinity _ => Raise OverflowError
  | f => Ok f
  end.

(** *** [float(s)] for text

    CPython first maps the text to ASCII: characters below 127 stay, other
    white space becomes a blank, other decimal digits become ASCII digits and
    anything else a question mark (after which CPython stops copying; as the
    question mark already makes the text invalid the rest is kept here). *)
Definition to_ascii (c : codepoint) : codepoint :=
  (if c <? 127 then c
   else if isspace c then 32
   else match todecimal c with
        | Some d => 48 + d
        | None => 63
        end)%N.

(** Underscores may only stand between two digits; they are dropped. *)
Fixpoint strip_underscores (prev : codepoint) (s : pystr) : option pystr :=
  match s with
  | [] => if (prev =? 95)%N then None else Some []
  | c :: r =>
    if (c =? 95)%N then
      if is_ascii_digit prev then strip_underscores c r else None
    else if (prev =? 95)%N && negb (is_ascii_digit c) then None
    else option_map (cons c) (strip_underscores c r)
  end.

Definition parse_sign (s : pystr) : bool * pystr :=
  match s with
  | c :: r =>
    if (c =? 45)%N then (true, r)
    else if (c =? 43)%N then (false, r)
    else (false, s)
  | [] => (false, s)
  end.

(** [inf], [infinity] and [nan], in any case, with an optional sign. *)
Definition parse_inf_or_nan (s : pystr) : option float :=
  let '(neg, r) := parse_sign s in
  let l := map ascii_lower r in
  if str_eqb l (lit "inf") || str_eqb l (lit "infinity")
  then Some (S754_infinity neg)
  else if str_eqb l (lit "nan") then Some S754_nan
  else None.

Fixpoint span (p : codepoint -> bool) (s : pystr) : pystr * pystr :=
  match s with
  | [] => ([], [])
  | c :: r =>
    if p c then let '(a, b) := span p r in (c :: a, b) else ([], s)
  end.

Definition digits_value (ds : pystr) : Z :=
  fold_left (fun acc c => acc * 10 + (Z.of_N c - 48)) ds 0.

(** A decimal literal: sign, digits with an optional point (at least one
    digit), optional exponent.  The result is sign, integer mantissa and
    power of ten. *)
Definition parse_decimal (s : pystr) : option (bool * Z * Z) :=
  let '(neg, s1) := parse_sign s in
  let '(ip, s2) := span is_ascii_digit s1 in
  let '(fp, s3) :=
    match s2 with
    | c :: r => if (c =? 46)%N then span is_ascii_digit r else ([], s2)
    | [] => ([], s2)
    end in
  match ip ++ fp with
  | [] => None
  | ds =>
    let m := digits_value ds in
    let scale := Z.of_nat (List.length fp) in
    match s3 with
    | [] => Some (neg, m, - scale)
    | c :: r =>
      if ((c =? 101) || (c =? 69))%N then
        let '(eneg, r1) := parse_sign r in
        let '(ed, r2) := span is_ascii_digit r1 in
        match ed, r2 with
        | _ :: _, [] =>
          Some (neg, m, (if eneg then - digits_value ed else digits_value ed) - scale)
        | _, _ => None
        end
      else None
    end
  end.

Definition parse_float (s : pystr) : option float :=
  match strip_underscores 0%N (map to_ascii s) with
  | None => None
  | Some u =>
    let t := rdropwhile Py_ISSPACE (dropwhile Py_ISSPACE u) in
    match parse_inf_or_nan t with
    | Some f => Some f
    | None =>
      match parse_decimal t with
      | Some (neg, m, e) => Some (round_decimal neg m e)
      | None => None
      end
    end
  end.

(** [float(s)] for a [str]: raises [ValueError] on malformed text. *)
Definition float_of_str (s : pystr) : result float :=
  match parse_float s with
  | Some f => Ok f
  | None => Raise ValueError
  end.

End F64.

Export F64.

(* ================================================================= *)
(** ** Values of spreadsheet cells *)

(** What a cell of the loaded table can hold: a [float] (a blank cell is the
    float NaN), an [int] (unbounded), text, [None], or some other object
    (a date, say). *)
Inductive pyval :=
| VFloat (f : float)
| VInt (n : Z)
| VStr (s : pystr)
| VNone
| VOther.

(** [pd.notna(v)] *)
Definition pd_notna (v : pyval) : bool :=
  match v with
  | VFloat f => negb (is_nan f)
  | VNone => false
  | _ => true
  end.

(** What the pipeline takes from the Python runtime without fixing it here:
    the Unicode case mappings of text that has a non-ASCII character, and the
    text [str(v)] of a value that is not text. *)
Class Runtime := {
  uni_lower : pystr -> pystr;
  uni_upper : pystr -> pystr;
  str_of_nontext : pyval -> pystr
}.

Section RuntimeOps.
Context {RT : Runtime}.

(** [s.lower()] and [s.upper()] *)
Definition str_lower (s : pystr) : pystr :=
  if forallb is_ascii s then map ascii_lower s else uni_lower s.

Definition str_upper (s : pystr) : pystr :=
  if forallb is_ascii s then map ascii_upper s else uni_upper s.

(** [str(v)] *)
Definition py_str (v : pyval) : pystr :=
  match v with
  | VStr s => s
  | _ => str_of_nontext v
  end.

End RuntimeOps.

(** A runtime that leaves non-ASCII text alone, for running examples. *)
Definition ascii_runtime : Runtime :=
  {| uni_lower := fun s => s;
     uni_upper := fun s => s;
     str_of_nontext := fun _ => lit "<object>" |}.

(* ================================================================= *)
(** ** [re.match]: a backtracking matcher *)

Module Re.

(** The fragment of regular expressions the pipeline uses: a character of a
    class, a greedy star over a class, sequence, a greedy option, and a
    numbered capturing group. *)
Inductive regex :=
| Chr (p : codepoint -> bool)
| Star (p : codepoint -> bool)
| Seq (a b : regex)
| Opt (a : regex)
| Group (n : nat) (a : regex).

Definition Plus (p : codepoint -> bool) : regex := Seq (Chr p) (Star p).

Definition captures := nat -> option pystr.

Definition no_captures : captures := fun _ => None.

Definition set_group (n : nat) (v : pystr) (c : captures) : captures :=
  fun i => if Nat.eqb i n then Some v else c i.

(** The text consumed between [s] and its suffix [s']. *)
Definition consumed (s s' : pystr) : pystr :=
  firstn (List.length s - List.length s') s.

(** [run r k s c] matches [r] at the start of [s] and hands the rest of the
    text to the continuation [k]; when [k] fails the matcher backtracks into
    [r], longest alternatives first. *)
Fixpoint run (A : Type) (r : regex) (k : pystr -> captures -> option A)
    (s : pystr) (c : captures) : option A :=
  match r with
  | Chr p =>
    match s with
    | x :: s' => if p x then k s' c else None
    | [] => None
    end
  | Star p =>
    (fix loop (t : pystr) : option A :=
       match t with
       | x :: t' =>
         if p x then
           match loop t' with
           | Some v => Some v
           | None => k t c
           end
         else k t c
       | [] => k t c
       end) s
  | Seq a b => run a (run b k) s c
  | Opt a =>
    match run a k s c with
    | Some v => Some v
    | None => k s c
    end
  | Group n a => run a (fun s' c' => k s' (set_group n (consumed s s') c')) s c
  end.

(** [re.match(r, s)]: anchored at the start, free at the end. *)
Definition re_match (r : regex) (s : pystr) : option captures :=
  run r (fun _ c => Some c) s no_captures.

End Re.

Export Re.

(* ================================================================= *)
(** ** Coordinates *)

Open Scope N_scope.

(** [dms_pattern], piece by piece:
    - group 1: one or more decimal digits;
    - one or more of the degree sign (U+00B0) and white space;
    - group 2: one or more digits, optionally a point and one or more digits;
    - optionally an apostrophe or a prime (U+2032);
    - any white space;
    - group 3: any digits, optionally a point and one or more digits;
    - optionally a double quote (code 34) or a double prime (U+2033). *)
Definition degree_or_space (c : codepoint) : bool := (c =? 0xB0) || isspace c.
Definition minute_mark (c : codepoint) : bool := (c =? 39) || (c =? 0x2032).
Definition second_mark (c : codepoint) : bool := (c =? 34) || (c =? 0x2033).
Definition dot (c : codepoint) : bool := c =? 46.

Definition dms_pattern : regex :=
  Seq (Group 1 (Plus isdecimal))
 (Seq (Plus degree_or_space)
 (Seq (Group 2 (Seq (Plus isdecimal) (Opt (Seq (Chr dot) (Plus isdecimal)))))
 (Seq (Opt (Chr minute_mark))
 (Seq (Star isspace)
 (Seq (Group 3 (Seq (Star isdecimal) (Opt (Seq (Chr dot) (Plus isdecimal)))))
      (Opt (Chr second_mark))))))).

(** The [replace] calls that open [dms_to_decimal], as Python reads the
    line: an apostrophe by itself, the double prime by a double quote, and,
    since the quotes of the last two calls of the line open and close one
    triple-quoted literal, the sixteen characters between them (double quote,
    comma, blank, apostrophe, double quote, apostrophe, closing parenthesis,
    point, the word replace, opening parenthesis) by a double quote. *)
Definition fused_literal : pystr :=
  [34; 44; 32; 39; 34; 39; 41; 46; 114; 101; 112; 108; 97; 99; 101; 40].

Definition normalize_marks (coord : pystr) : pystr :=
  str_replace fused_literal [34]
    (str_replace [0x2033] [34]
       (str_replace [39] [39] coord)).

(** [float(match.group(i))] *)
Definition float_of_group (g : option pystr) : result float :=
  match g with
  | Some s => float_of_str s
  | None => Raise TypeError
  end.

(** [float(match.group(3)) if match.group(3) else 0.0] *)
Definition seconds_of_group (g : option pystr) : result float :=
  match g with
  | Some ((_ :: _) as s) => float_of_str s
  | _ => Ok (S754_zero false)
  end.

Definition sixty : float := of_Z 60.
Definition thirty_six_hundred : float := of_Z 3600.

Definition dms_to_decimal (coord : pyval) : result float :=
  match coord with
  | VFloat f => Ok f
  | VInt n => float_of_int n
  | VStr s =>
    let coord := normalize_marks s in
    match re_match dms_pattern (str_strip coord) with
    | Some m =>
      (deg <- float_of_group (m 1%nat) ;;
       min_ <- float_of_group (m 2%nat) ;;
       sec <- seconds_of_group (m 3%nat) ;;
       Ok (fadd (fadd deg (fdiv min_ sixty)) (fdiv sec thirty_six_hundred)))%py
    | None =>
      match float_of_str coord with
      | Ok f => Ok f
      | Raise _ => Ok nan
      end
    end
  | VNone | VOther => Ok nan
  end.

(** A shapely [Point(x, y)]: longitude first. *)
Record point := Point { point_x : float; point_y : float }.

Definition origin : point := Point (of_Z 0) (of_Z 0).

(** A row of the loaded table.  [load_excel] has turned the three taxon
    columns into stripped lower-case text and the year column into numbers
    (NaN where the cell was not numeric); the coordinate columns are as read. *)
Record row := Row {
  lat : pyval;
  lat_dir : pyval;
  long : pyval;
  long_dir : pyval;
  family : pystr;
  genus : pystr;
  species : pystr;
  year : float
}.

Section Convert.
Context {RT : Runtime}.

(** [str(v).strip().upper() if pd.notna(v) else default], then the default
    again unless the text is one of the two letters of the axis. *)
Definition direction (v : pyval) (positive negative default : pystr) : pystr :=
  let d := if pd_notna v then str_upper (str_strip (py_str v)) else default in
  if str_eqb d positive || str_eqb d negative then d else default.

Definition lat_direction (r : row) : pystr :=
  direction (lat_dir r) (lit "N") (lit "S") (lit "N").

Definition long_direction (r : row) : pystr :=
  direction (long_dir r) (lit "E") (lit "W") (lit "W").

(** The body of the [try] of [convert_coordinates]. *)
Definition convert_coordinates_try (r : row) : result point :=
  (lat <- dms_to_decimal (lat r) ;;
   long <- dms_to_decimal (long r) ;;
   let lat := if str_eqb (lat_direction r) (lit "S") then fneg lat else lat in
   let long := if str_eqb (long_direction r) (lit "W") then fneg long else long in
   Ok (Point long lat))%py.

(** [convert_coordinates]: any exception gives the point [(0, 0)]. *)
Definition convert_coordinates (r : row) : point :=
  match convert_coordinates_try r with
  | Ok p => p
  | Raise _ => origin
  end.

End Convert.

(* ================================================================= *)
(** ** Python [int] from text *)

Open Scope Z_scope.

(** [sys.get_int_max_str_digits()] as CPython 3.11 starts with it. *)
Definition int_max_str_digits : nat := 4300.

(** [int(s)] in base ten: white space around, an optional sign, digits with
    single underscores between them; text with more digits than
    [int_max_str_digits] is refused, leading zeros counted. *)
Definition parse_int (s : pystr) : option Z :=
  let t := rdropwhile Py_ISSPACE (dropwhile Py_ISSPACE (map to_ascii s)) in
  let '(neg, d) := parse_sign t in
  match strip_underscores 0%N d with
  | Some ((_ :: _) as ds) =>
    if forallb is_ascii_digit ds && (List.length ds <=? int_max_str_digits)%nat
    then Some (if neg then - digits_value ds else digits_value ds)
    else None
  | _ => None
  end.

Definition int_of_str (s : pystr) : result Z :=
  match parse_int s with
  | Some n => Ok n
  | None => Raise ValueError
  end.

(* ================================================================= *)
(** ** Geometry *)

(** The geometric operations of shapely and geopandas, and the county
    polygons themselves, come from outside the program. *)
Class Geometry := {
  polygon : Type;
  (** [p.within(g)] *)
  within : point -> polygon -> bool;
  (** [counties.dissolve().to_crs("EPSG:4326").geometry.iloc[0]], the outer
      boundary of the counties in geographic coordinates *)
  dissolve : list polygon -> result polygon;
  (** [points.to_crs(counties.crs)] on one point *)
  to_crs : point -> point
}.

(* ================================================================= *)
(** ** The pipeline *)

(** One row of the county table that [process_county_data] returns. *)
Record county_row {G : Geometry} := CountyRow {
  geometry : polygon;
  point_count : Z;
  color : pystr
}.

Arguments CountyRow {G} geometry point_count color.

(** A row of the points table: a specimen and its geometry. *)
Record located := Located {
  specimen : row;
  geom : point
}.

Definition color_range : Type := float * float * pystr.

Definition range_min (r : color_range) : float := fst (fst r).
Definition range_max (r : color_range) : float := snd (fst r).
Definition range_color (r : color_range) : pystr := snd r.

(** [x[0] < y[0]], the one comparison [list.sort] makes between two
    entries. *)
Definition min_lt (x y : color_range) : bool := flt (range_min x) (range_min y).

(** [ranges.sort(key=lambda x: x[0])] as CPython carries it out on a list of
    fewer than 64 entries (the program has five): [count_run] finds the run
    the list begins with, rising as long as no entry is below the one before
    it, or falling as long as every entry is below the one before it, a
    falling run being reversed; [binarysort] then puts the entries that are
    left, one by one, into the sorted part, at the place a binary search with
    [<] finds.  With a NaN among the minima the outcome hangs on exactly
    these comparisons.  Longer lists are sorted in runs that are merged,
    which is not modelled; on minima without NaN the outcome is the same
    there, the stable ascending arrangement being unique. *)
Fixpoint rising (prev : color_range) (l : list color_range)
  : list color_range * list color_range :=
  match l with
  | [] => ([], [])
  | x :: l' =>
    if min_lt x prev then ([], l)
    else let '(run, rest) := rising x l' in (x :: run, rest)
  end.

Fixpoint falling (prev : color_range) (l : list color_range)
  : list color_range * list color_range :=
  match l with
  | [] => ([], [])
  | x :: l' =>
    if min_lt x prev then let '(run, rest) := falling x l' in (x :: run, rest)
    else ([], l)
  end.

(** [count_run], with the reversal of a falling run: the sorted run at the
    head of the list and the entries after it. *)
Definition count_run (l : list color_range) : list color_range * list color_range :=
  match l with
  | x0 :: x1 :: l' =>
    if min_lt x1 x0
    then let '(run, rest) := falling x1 l' in (rev (x0 :: x1 :: run), rest)
    else let '(run, rest) := rising x1 l' in (x0 :: x1 :: run, rest)
  | _ => (l, [])
  end.

(** The binary search of [binarysort]: between the places [l] and [r] of
    the sorted part, the place where [pivot] goes; [p] is the middle,
    [l + ((r - l) >> 1)].  The loop is entered with [l < r]. *)
Fixpoint bisect (fuel : nat) (pivot : color_range) (sorted : list color_range)
    (l r : nat) : nat :=
  match fuel with
  | O => l
  | S fuel' =>
    if (l <? r)%nat then
      let p := (l + (r - l) / 2)%nat in
      if min_lt pivot (nth p sorted pivot)
      then bisect fuel' pivot sorted l p
      else bisect fuel' pivot sorted (S p) r
    else l
  end.

(** One step of [binarysort]: the entries from the place found on slide one
    place up and [pivot] is put there. *)
Definition insert_range (sorted : list color_range) (pivot : color_range)
  : list color_range :=
  let n := List.length sorted in
  let l := bisect (S n) pivot sorted 0 n in
  firstn l sorted ++ pivot :: skipn l sorted.

Definition binarysort (sorted rest : list color_range) : list color_range :=
  fold_left insert_range rest sorted.

Definition sort_ranges (l : list color_range) : list color_range :=
  let '(run, rest) := count_run l in binarysort run rest.

(** [(point_count >= min_val) & (point_count <= max_val)] for one county;
    the integer count is compared as a float. *)
Definition in_color_range (n : Z) (r : color_range) : bool :=
  fge (of_Z n) (range_min r) && fle (of_Z n) (range_max r).

(** The entry widgets of one colour range: minimum, maximum, colour. *)
Definition range_vars : Type := pystr * pystr * pystr.

Definition infinity_sign : pystr := lit "∞".

Definition read_range (v : range_vars) : result color_range :=
  let '(min_var, max_var, color_var) := v in
  (min_val <- float_of_str min_var ;;
   max_val <- (if str_eqb max_var infinity_sign then Ok inf
               else float_of_str max_var) ;;
   Ok (min_val, max_val, color_var))%py.

Fixpoint read_ranges (vs : list range_vars) : result (list color_range) :=
  match vs with
  | [] => Ok []
  | v :: vs' =>
    (r <- read_range v ;;
     rs <- read_ranges vs' ;;
     Ok (r :: rs))%py
  end.

Definition white : pystr := lit "white".

Section Counties.
Context {G : Geometry}.

(** [len(points_data[points_data.geometry.within(county.geometry)])] *)
Definition points_in (points_data : list located) (g : polygon) : list located :=
  filter (fun p => within (geom p) g) points_data.

(** The counting loop: every county row gets the number of points within its
    own polygon; the colour column starts out white. *)
Definition count_points (counties : list polygon) (points_data : list located)
  : list county_row :=
  map (fun g => CountyRow g (Z.of_nat (List.length (points_in points_data g))) white)
      counties.

(** [counties_with_data.loc[mask, 'color'] = color] for one range. *)
Definition paint (rows : list county_row) (r : color_range) : list county_row :=
  map (fun c =>
         if in_color_range (point_count c) r
         then CountyRow (geometry c) (point_count c) (range_color r)
         else c)
      rows.

(** The colour loop over the sorted ranges. *)
Definition assign_colors (ranges : list color_range) (rows : list county_row)
  : list county_row :=
  fold_left paint (sort_ranges ranges) rows.

Definition process_county_data (counties : list polygon)
    (color_ranges : list range_vars) (points_data : list located)
  : result (list county_row) :=
  let counties_with_data := count_points counties points_data in
  (ranges <- read_ranges color_ranges ;;
   Ok (assign_colors ranges counties_with_data))%py.

End Counties.

(** The loaded spreadsheet: its column names and its rows. *)
Record table := Table {
  columns : list string;
  rows : list row
}.

Definition required_columns : list string :=
  [ "lat"; "lat_dir"; "long"; "long_dir"; "family"; "genus"; "species"; "year" ]%string.

(* ================================================================= *)
(** ** Numbers, text and the figure *)

(** [int(x)] for a float: the integer part, towards zero; a NaN raises
    [ValueError] and an infinity [OverflowError]. *)
Definition int_of_float (x : float) : result Z :=
  match x with
  | S754_nan => Raise ValueError
  | S754_infinity _ => Raise OverflowError
  | S754_zero _ => Ok 0
  | S754_finite s m e =>
    let v := if 0 <=? e then Zpos m * 2 ^ e else Zpos m / 2 ^ (- e) in
    Ok (if s then - v else v)
  end.

(** [str(n)] for an [int]: its decimal digits, after a minus sign when
    negative. *)
Fixpoint uint_str (d : Decimal.uint) : pystr :=
  match d with
  | Decimal.Nil => []
  | Decimal.D0 r => 48%N :: uint_str r
  | Decimal.D1 r => 49%N :: uint_str r
  | Decimal.D2 r => 50%N :: uint_str r
  | Decimal.D3 r => 51%N :: uint_str r
  | Decimal.D4 r => 52%N :: uint_str r
  | Decimal.D5 r => 53%N :: uint_str r
  | Decimal.D6 r => 54%N :: uint_str r
  | Decimal.D7 r => 55%N :: uint_str r
  | Decimal.D8 r => 56%N :: uint_str r
  | Decimal.D9 r => 57%N :: uint_str r
  end.

Definition str_of_int (n : Z) : pystr :=
  match Z.to_int n with
  | Decimal.Pos d => uint_str d
  | Decimal.Neg d => 45%N :: uint_str d
  end.

(** The label of one legend entry: [int(min_val)] followed by a plus sign
    when the maximum equals [float('inf')], else [int(min_val)], a hyphen and
    [int(max_val)]; the f-string evaluates the minimum first. *)
Definition legend_label (r : color_range) : result pystr :=
  let '(min_val, max_val, _) := r in
  if feq max_val inf
  then (a <- int_of_float min_val ;;
        Ok (str_of_int a ++ lit "+"))%py
  else (a <- int_of_float min_val ;;
        b <- int_of_float max_val ;;
        Ok (str_of_int a ++ lit "-" ++ str_of_int b))%py.

Fixpoint labels_of (ranges : list color_range) : result (list pystr) :=
  match ranges with
  | [] => Ok []
  | r :: rs =>
    (label <- legend_label r ;;
     rest <- labels_of rs ;;
     Ok (label :: rest))%py
  end.

(** [s.split(sep)] for a separator that is not empty: the pieces between the
    occurrences of [sep], found from the left and without overlap.  [skip]
    counts the characters of an occurrence that are still to be passed over,
    [piece] holds the current piece backwards. *)
Fixpoint split_from (sep : pystr) (skip : nat) (piece : pystr) (s : pystr)
  : list pystr :=
  match s with
  | [] => [rev piece]
  | c :: r =>
    match skip with
    | S k => split_from sep k piece r
    | O =>
      if starts_with sep s
      then rev piece :: split_from sep (Nat.pred (List.length sep)) [] r
      else split_from sep 0 (c :: piece) r
    end
  end.

(** [s.split(sep)]; an empty separator raises [ValueError]. *)
Definition str_split (sep s : pystr) : result (list pystr) :=
  match sep with
  | [] => Raise ValueError
  | _ :: _ => Ok (split_from sep 0 [] s)
  end.

Definition arrow : pystr := lit " > ".

(** The title that [display_maps] writes above the maps: the stored
    [species_info] is split at its arrows into family, genus and species,
    which must be three, and put together again; nothing is written for an
    empty [species_info]. *)
Definition figure_title (species_info : pystr) : result (option pystr) :=
  match species_info with
  | [] => Ok None
  | _ :: _ =>
    (parts <- str_split arrow species_info ;;
     match parts with
     | [family_; genus_; species_] =>
       Ok (Some (family_ ++ arrow ++ genus_ ++ arrow ++ species_))
     | _ => Raise ValueError
     end)%py
  end.

(** What [display_maps] asks of matplotlib comes from outside the program:
    whether a call raises hangs on the texts given as colours, on the shapes
    and on the state of the figure. *)
Class Matplotlib {G : Geometry} := {
  (** [ax.fill(x, y, facecolor=color, edgecolor='black', linewidth=0.5)] on
      the outline of one county *)
  fill : polygon -> pystr -> result unit;
  (** the limits of both maps, from the bounds of the counties, and the two
      labels, the first with the year *)
  set_limits : option (list polygon) -> Z -> result unit;
  (** [mpatches.Patch(facecolor=color, edgecolor='black', label=label)] *)
  Patch : pystr -> pystr -> result unit;
  (** the legend, the layout and [canvas.draw()], for the given title and
      labels *)
  canvas_draw : option pystr -> list pystr -> result unit
}.

(* ================================================================= *)
(** ** The loading window *)

(** The window of a [LoadingIndicator]. *)
Inductive indicator := Shown | Destroyed.

(** Code that runs while a loading window exists: it is given the window as
    it is and gives it back as it has become, also when it raises. *)
Definition gui (A : Type) : Type := indicator -> result A * indicator.

Definition gret {A : Type} (x : A) : gui A := fun loading => (Ok x, loading).

Definition graise {A : Type} (e : exn) : gui A := fun loading => (Raise e, loading).

Definition gbind {A B : Type} (m : gui A) (k : A -> gui B) : gui B :=
  fun loading =>
    match m loading with
    | (Ok x, loading) => k x loading
    | (Raise e, loading) => (Raise e, loading)
    end.

(** An expression that leaves the window alone. *)
Definition lift {A : Type} (r : result A) : gui A := fun loading => (r, loading).

Declare Scope gui_scope.
Delimit Scope gui_scope with gui.
Notation "x <- e ;; k" := (gbind e (fun x => k))
  (at level 61, e at next level, right associativity) : gui_scope.

(** [loading.destroy()]: the progress bar is stopped, then the window is
    destroyed.  Stopping the bar of a window that is destroyed already raises
    [TclError]. *)
Definition destroy : gui unit :=
  fun loading =>
    match loading with
    | Shown => (Ok tt, Destroyed)
    | Destroyed => (Raise TclError, Destroyed)
    end.

(** [try: m except ValueError: handler] *)
Definition except_ValueError {A : Type} (m handler : gui A) : gui A :=
  fun loading =>
    match m loading with
    | (Raise ValueError, loading) => handler loading
    | outcome => outcome
    end.

(** What the user is shown when [generate_map] ends. *)
Inductive notice :=
| Toast (message : string) (error : bool)
| ToastException (e : exn)  (* the text is Error generating maps: and [str(e)] *)
| MessageBox (title message : string)
| Escaped (e : exn).        (* nothing is shown: [e] leaves the method *)

Section GenerateMap.
Context {RT : Runtime} {G : Geometry} {MP : Matplotlib}.

(** [self.current_maps] *)
Record maps := Maps {
  map_a : list county_row;
  map_b : list county_row;
  selected_year : Z;
  species_info : pystr
}.

(** The fields of the application object that [generate_map] reads or
    writes. *)
Record MainApplication := MainApp {
  excel_data : option table;
  montana_counties : option (list polygon);
  year_var : pystr;
  selected_family : pystr;
  selected_genus : pystr;
  selected_species : pystr;
  color_ranges : list range_vars;
  current_maps : option maps
}.

Definition set_current_maps (a : MainApplication) (m : maps) : MainApplication :=
  MainApp (excel_data a) (montana_counties a) (year_var a) (selected_family a)
      (selected_genus a) (selected_species a) (color_ranges a) (Some m).

(** One of the three taxon tests: with the wild card the column must be
    non-empty once stripped (the column holds text, so [notna()] is true);
    otherwise the lower-cased column must equal the lower-cased choice. *)
Definition taxon_test (wildcard choice field : pystr) : bool :=
  if str_eqb choice wildcard
  then negb (str_eqb (str_strip field) [])
  else str_eqb (str_lower field) (str_lower choice).

Definition filter_taxon (fam gen spec : pystr) (data : list row) : list row :=
  let filtered := data in
  let filtered := filter (fun r => taxon_test (lit "All") fam (family r)) filtered in
  let filtered := filter (fun r => taxon_test (lit "All") gen (genus r)) filtered in
  let filtered := filter (fun r => taxon_test (lit "all") spec (species r)) filtered in
  filtered.

(** [filtered.apply(self.convert_coordinates, axis=1)] *)
Definition to_points (filtered : list row) : list located :=
  map (fun r => Located r (convert_coordinates r)) filtered.

(** [points[points.geometry.within(montana_boundary)]] *)
Definition clip (boundary : polygon) (points : list located) : list located :=
  filter (fun p => within (geom p) boundary) points.

Definition reproject (points : list located) : list located :=
  map (fun p => Located (specimen p) (to_crs (geom p))) points.

(** [points['year'] <= selected_year]: the column is numeric and the
    comparison is made on floats, a NaN year giving false. *)
Definition year_at_most (cutoff : float) (p : located) : bool :=
  fle (year (specimen p)) cutoff.

(** The year a run goes on with: [int(self.year_var.get())], which must
    be positive. *)
Definition read_year (a : MainApplication) : result Z :=
  (y <- int_of_str (year_var a) ;;
   if y <=? 0 then Raise ValueError else Ok y)%py.

Definition unselected (choice placeholder : pystr) : bool :=
  str_eqb choice [] || str_eqb choice placeholder.

(** [display_maps]: the title, the outlines of the counties of both maps
    in their colours, the limits and the two labels, the legend with a label
    and a patch for each range in sorted order, and the drawing. *)
Fixpoint fill_counties (counties : list county_row) : result unit :=
  match counties with
  | [] => Ok tt
  | county :: rest =>
    (_ <- fill (geometry county) (color county) ;;
     fill_counties rest)%py
  end.

Fixpoint legend_elements (ranges : list color_range) : result (list pystr) :=
  match ranges with
  | [] => Ok []
  | r :: rs =>
    (label <- legend_label r ;;
     _ <- Patch (range_color r) label ;;
     rest <- legend_elements rs ;;
     Ok (label :: rest))%py
  end.

Definition display_maps (a : MainApplication) : result unit :=
  match current_maps a with
  | None => Ok tt
  | Some m =>
    (title <- figure_title (species_info m) ;;
     _ <- fill_counties (map_a m) ;;
     _ <- fill_counties (map_b m) ;;
     _ <- set_limits (montana_counties a) (selected_year m) ;;
     ranges <- read_ranges (color_ranges a) ;;
     legend_labels <- legend_elements (sort_ranges ranges) ;;
     canvas_draw title legend_labels)%py
  end.

(** How the [try] block of [generate_map] ends when it does not raise:
    with an early [return] after a notice, or with both maps built. *)
Inductive finished :=
| Returned (n : notice)
| Generated (m : maps).

(** The year, or the early [return] of the inner [try]: text that is no
    integer is answered by a toast; for an integer that is not positive the
    window is destroyed and a [ValueError] raised, which the same [except]
    clause catches, where the window is destroyed once more. *)
Definition year_or_return (a : MainApplication) : gui (Z + finished) :=
  except_ValueError
    (selected_year <- lift (int_of_str (year_var a)) ;;
     if selected_year <=? 0
     then (_ <- destroy ;; graise ValueError)
     else gret (inl selected_year))%gui
    (_ <- destroy ;;
     gret (inr (Returned (Toast "Please enter a valid year" true))))%gui.

(** The [try] block of [generate_map] up to the two maps. *)
Definition generate_map_body (a : MainApplication) (data : table)
    (counties : list polygon) : gui finished :=
  (year <- year_or_return a ;;
   match year with
   | inr early => gret early
   | inl selected_year =>
     if negb (forallb (fun col => existsb (String.eqb col) (columns data))
                      required_columns)
     then (_ <- destroy ;; graise ValueError)
     else
       let fam := str_strip (selected_family a) in
       let gen := str_strip (selected_genus a) in
       let spec := str_strip (selected_species a) in
       if unselected fam (lit "Select Family")
          || unselected gen (lit "Select Genus")
          || unselected spec (lit "Select Species")
       then (_ <- destroy ;;
             gret (Returned (MessageBox "Missing Input"
                                        "Please select Family, Genus, and Species.")))
       else
         let filtered := filter_taxon fam gen spec (rows data) in
         match filtered with
         | [] => _ <- destroy ;;
                 gret (Returned (Toast "No data found for selected species" true))
         | _ :: _ =>
           let points := to_points filtered in
           montana_boundary <- lift (dissolve counties) ;;
           let points := clip montana_boundary points in
           match points with
           | [] => _ <- destroy ;;
                   gret (Returned
                           (Toast "No points found within Montana's boundaries" true))
           | _ :: _ =>
             let points := reproject points in
             cutoff <- lift (float_of_int selected_year) ;;
             let map_a_data := filter (year_at_most cutoff) points in
             let map_b_data := points in
             map_a_counties <-
               lift (process_county_data counties (color_ranges a) map_a_data) ;;
             map_b_counties <-
               lift (process_county_data counties (color_ranges a) map_b_data) ;;
             gret (Generated
                     (Maps map_a_counties map_b_counties selected_year
                           (fam ++ lit " > " ++ gen ++ lit " > " ++ spec)))
           end
         end
   end)%gui.

(** What the block gives when it is entered with the loading window shown. *)
Definition generate_map_try (a : MainApplication) (data : table) (counties : list polygon)
  : result finished :=
  fst (generate_map_body a data counties Shown).

(** The [except Exception] clause of [generate_map]: the loading window is
    destroyed and the exception shown in a toast; when the window was
    destroyed before, [destroy] raises in the clause and its [TclError]
    leaves [generate_map]. *)
Definition generate_map_except (e : exn) (a : MainApplication)
  : indicator -> notice * MainApplication :=
  fun loading =>
    match destroy loading with
    | (Ok _, _) => (ToastException e, a)
    | (Raise e', _) => (Escaped e', a)
    end.

(** [generate_map]: the notice shown and the application afterwards.  Once
    both maps are built they are stored and [display_maps] draws them; then
    the loading window is destroyed and success announced. *)
Definition generate_map (a : MainApplication) : notice * MainApplication :=
  match excel_data a with
  | None => (Toast "Please load an Excel file first" true, a)
  | Some data =>
    match montana_counties a with
    | None =>
      (Toast "Please load an Excel file first to initialize county data" true, a)
    | Some counties =>
      match generate_map_body a data counties Shown with
      | (Ok (Returned n), _) => (n, a)
      | (Ok (Generated m), loading) =>
        let a := set_current_maps a m in
        match (_ <- lift (display_maps a) ;; destroy)%gui loading with
        | (Ok _, _) => (Toast "County maps generated successfully" false, a)
        | (Raise e, loading) => generate_map_except e a loading
        end
      | (Raise e, loading) => generate_map_except e a loading
      end
    end
  end.

End GenerateMap.

Arguments maps {G}.
Arguments MainApplication {G}.
Arguments finished {G}.

(* ================================================================= *)
(** ** Instances for running the pipeline on examples *)

(** A polygon as a finite union of open axis-parallel boxes
    [(x0, x1, y0, y1)]; dissolving a list of polygons takes the union of all
    their boxes, and reprojection is the identity. *)
Module Boxes.

Definition box : Type := float * float * float * float.

Definition inside (p : point) (b : box) : bool :=
  let '(x0, x1, y0, y1) := b in
  flt x0 (point_x p) && flt (point_x p) x1
  && flt y0 (point_y p) && flt (point_y p) y1.

Definition geometry_of_boxes : Geometry :=
  {| polygon := list box;
     within := fun p g => existsb (inside p) g;
     dissolve := fun l => Ok (List.concat l);
     to_crs := fun p => p |}.

Definition mk_box (x0 x1 y0 y1 : Z) : list box :=
  [ (of_Z x0, of_Z x1, of_Z y0, of_Z y1) ].

(** A figure on which every call succeeds. *)
Definition plain_figure : @Matplotlib geometry_of_boxes :=
  {| fill := fun _ _ => Ok tt;
     set_limits := fun _ _ => Ok tt;
     Patch := fun _ _ => Ok tt;
     canvas_draw := fun _ _ => Ok tt |}.

End Boxes.

(* ================================================================= *)
(** ** Vocabulary of the statements *)

(** *** Text *)

Definition is_ascii_letter (c : codepoint) : bool :=
  (((65 <=? c) && (c <=? 90)) || ((97 <=? c) && (c <=? 122)))%N.

(** The characters a text accepted by [float] is made of, once it is in
    ASCII, trimmed and without underscores. *)
Definition ok_char (c : codepoint) : bool :=
  (is_ascii_digit c || is_ascii_letter c || (c =? 43) || (c =? 45) || (c =? 46))%N.

(** ASCII digits and the point. *)
Definition plain (c : codepoint) : bool := (is_ascii_digit c || (c =? 46))%N.

Definition overlaps (a b : N * N) : bool :=
  ((fst a <=? snd b) && (fst b <=? snd a))%N.

(** What is checked of each run of ten digits of the table: it is the ASCII
    run, or it lies beyond ASCII and holds neither white space nor the degree
    sign. *)
Definition zero_ok (z : N) : bool :=
  ((z =? 48) ||
   ((127 <=? z) && negb (existsb (overlaps (z, z + 9)) space_ranges)
    && negb (in_range 0xB0 (z, z + 9))))%N.

(** *** Matching *)

(** [a] only ever consumes texts that satisfy [P]. *)
Definition matches_only (a : regex) (P : pystr -> Prop) : Prop :=
  forall (A : Type) (k : pystr -> captures -> option A) s c v,
    run a k s c = Some v ->
    exists l s', s = l ++ s' /\ P l /\ k s' c = Some v.

Definition digits (l : pystr) : Prop := l <> [] /\ forallb isdecimal l = true.

Definition fraction (l : pystr) : Prop := exists b, digits b /\ l = 46%N :: b.

(** The shape of group 2, and of group 3 (whose integer part may be empty). *)
Definition decimal_number (g : pystr) : Prop :=
  exists a f, g = a ++ f /\ digits a /\ (f = [] \/ fraction f).

Definition seconds_text (g : pystr) : Prop :=
  exists a f, g = a ++ f /\ forallb isdecimal a = true /\ (f = [] \/ fraction f).

(** What the piece for the digits of a number, any digits and then
    optionally a point and one or more digits, takes from the head of [s]:
    the digits [s] begins with and, when a point and a digit come next, the
    point and the digits after it; given with what is left of [s]. *)
Definition take_number (s : pystr) : pystr * pystr :=
  let '(a, r) := span isdecimal s in
  match r with
  | c :: r' =>
    if dot c then
      match span isdecimal r' with
      | ((_ :: _) as b, r'') => (a ++ c :: b, r'')
      | ([], _) => (a, r)
      end
    else (a, r)
  | [] => (a, r)
  end.

(** The three groups of a text read from the left as [dms_pattern] says:
    the digits the text begins with; then degree signs and white space, at
    least one; then, beginning with a digit, the number of the minutes; then
    an apostrophe or prime if there is one, any white space, and the number
    of the seconds, which may be empty.  There are no groups when the
    degrees, the separator or the first digit of the minutes is missing. *)
Definition dms_groups (t : pystr) : option (pystr * pystr * pystr) :=
  let '(g1, r1) := span isdecimal t in
  let '(sep, r2) := span degree_or_space r1 in
  let '(g2, r3) := take_number r2 in
  let r4 := match r3 with
            | c :: r => if minute_mark c then r else r3
            | [] => r3
            end in
  let '(g3, _) := take_number (dropwhile isspace r4) in
  match g1, sep, r2 with
  | _ :: _, _ :: _, d :: _ => if isdecimal d then Some (g1, g2, g3) else None
  | _, _, _ => None
  end.

(** The number that digits of any script, with or without a point among
    them, write in base ten, as the nearest float. *)
Definition decimal_value (g : pystr) : float :=
  let '(a, r) := span isdecimal g in
  let b := tl r in
  round_decimal false (digits_value (map to_ascii (a ++ b)))
                (- Z.of_nat (List.length b)).

(** The seconds a third group stands for: none when it is empty. *)
Definition seconds_value (g : pystr) : float :=
  match g with
  | [] => S754_zero false
  | _ :: _ => decimal_value g
  end.

(** [re.match(dms_pattern, coord.strip())] succeeds on the text [s]. *)
Definition dms_matches (s : pystr) : bool :=
  match re_match dms_pattern (str_strip (normalize_marks s)) with
  | Some _ => true
  | None => false
  end.

(** *** Floats *)

(** The nearest float to the integer [n] is finite. *)
Definition fits_float (n : Z) : bool :=
  match of_Z n with S754_infinity _ => false | _ => true end.

(** The float [x] is the integer [n]. *)
Definition exactly (x : float) (n : Z) : Prop :=
  match to_Q x with
  | Some q => (q == inject_Z n)%Q
  | None => False
  end.

(** The float [x] is within [eps] of the rational [q]. *)
Definition near (x : float) (q eps : Q) : Prop :=
  match to_Q x with
  | Some v => (Qabs (v - q) < eps)%Q
  | None => False
  end.

Definition has_sign (s : bool) (x : float) : Prop :=
  match x with
  | S754_zero s' | S754_infinity s' | S754_finite s' _ _ => s' = s
  | S754_nan => False
  end.

(** A key that orders the floats other than NaN as [<=] does. *)
Definition order_key (x : float) : Z * Z * Z :=
  match x with
  | S754_infinity true => (-2, 0, 0)
  | S754_finite true m e => (-1, - e, - Zpos m)
  | S754_zero _ => (0, 0, 0)
  | S754_finite false m e => (1, e, Zpos m)
  | S754_infinity false => (2, 0, 0)
  | S754_nan => (3, 0, 0)
  end.

Definition key_le (a b : Z * Z * Z) : Prop :=
  let '(a1, a2, a3) := a in
  let '(b1, b2, b3) := b in
  a1 < b1 \/ (a1 = b1 /\ (a2 < b2 \/ (a2 = b2 /\ a3 <= b3))).

(** *** Colour ranges *)

Definition le_min (a b : color_range) : Prop :=
  fle (range_min a) (range_min b) = true.

(** [le_min] between elements whose minima are not NaN. *)
Definition le_min_strict (a b : color_range) : Prop :=
  is_nan (range_min a) = false /\ is_nan (range_min b) = false /\ le_min a b.

(** No minimum is a NaN. *)
Definition comparable (l : list color_range) : Prop :=
  Forall (fun r => is_nan (range_min r) = false) l.

Definition same_min (k : float) (r : color_range) : bool := feq (range_min r) k.

(** The count [n] is in none of the ranges. *)
Definition misses (n : Z) (l : list color_range) : Prop :=
  Forall (fun r => in_color_range n r = false) l.

(** The colour one row has after one more range of the loop. *)
Definition repaint (n : Z) (col : pystr) (r : color_range) : pystr :=
  if in_color_range n r then range_color r else col.

(** The last range of a list that holds [n]. *)
Definition last_match (n : Z) (rs : list color_range) : option color_range :=
  find (in_color_range n) (rev rs).

Definition classify (n : Z) (ranges : list color_range) : pystr :=
  match last_match n (sort_ranges ranges) with
  | Some r => range_color r
  | None => white
  end.

(** How one county gets its colour: from the last range of the sorted list
    that holds its count, and white when no range does. *)
Definition colored_by (sorted : list color_range) (n : Z) (col : pystr) : Prop :=
  (exists l1 r l2,
      sorted = l1 ++ r :: l2 /\ in_color_range n r = true /\ misses n l2 /\
      col = range_color r)
  \/ (misses n sorted /\ col = white).

(** The order within a falling run: each entry is below the one before
    it. *)
Definition below (a b : color_range) : Prop := min_lt b a = true.

(** No entry stands somewhere after an entry with a greater minimum.  This
    is the least that a list in ascending order of the minima must satisfy;
    an entry whose minimum is a NaN may stand anywhere. *)
Definition ascending (l : list color_range) : Prop :=
  forall l1 x l2 y l3,
    l = l1 ++ x :: l2 ++ y :: l3 -> flt (range_min y) (range_min x) = false.

(** *** Regions and counts *)

Definition total (l : list Z) : Z := fold_right Z.add 0 l.

Section RegionVocabulary.
Context {G : Geometry}.

(** No point lies within two polygons of the list. *)
Definition non_overlapping (regions : list polygon) : Prop :=
  ForallOrdPairs
    (fun g1 g2 => forall p, within p g1 = true -> within p g2 = false) regions.

(** In how many regions a point lies. *)
Definition hits (p : point) (regions : list polygon) : Z :=
  total (map (fun g => if within p g then 1 else 0) regions).

Definition counts (regions : list polygon) (points : list located) : list Z :=
  map point_count (count_points regions points).

End RegionVocabulary.

(** *** The run of [generate_map] *)

Section RunVocabulary.
Context {RT : Runtime} {G : Geometry}.

Definition taxon_match (fam gen spec : pystr) (r : row) : bool :=
  taxon_test (lit "All") fam (family r)
  && taxon_test (lit "All") gen (genus r)
  && taxon_test (lit "all") spec (species r).

(** The rows the taxon filter of a run keeps. *)
Definition selected_rows (a : MainApplication) (data : table) : list row :=
  filter_taxon (str_strip (selected_family a)) (str_strip (selected_genus a))
               (str_strip (selected_species a)) (rows data).

(** The points both maps are built from. *)
Definition clipped_points (a : MainApplication) (data : table) (boundary : polygon)
  : list located :=
  reproject (clip boundary (to_points (selected_rows a data))).

(** The checks that come before the filter all pass. *)
Definition inputs_accepted (a : MainApplication) (data : table)
    (counties : list polygon) : Prop :=
  excel_data a = Some data /\
  montana_counties a = Some counties /\
  returns (read_year a) /\
  forallb (fun col => existsb (String.eqb col) (columns data)) required_columns = true /\
  unselected (str_strip (selected_family a)) (lit "Select Family") = false /\
  unselected (str_strip (selected_genus a)) (lit "Select Genus") = false /\
  unselected (str_strip (selected_species a)) (lit "Select Species") = false.

End RunVocabulary.

Definition no_data_notice : notice :=
  Toast "No data found for selected species" true.

Definition no_points_notice : notice :=
  Toast "No points found within Montana's boundaries" true.

Definition success_notice : notice :=
  Toast "County maps generated successfully" false.

(* ================================================================= *)
(** ** Example data *)

Import Boxes.

(** 44 + 41.576/60 as a float. *)
Definition example_lat : float := S754_finite false 6289971184565451 (-47).

(** 44 + 30/60 + 15.5/3600 as a float. *)
Definition example_lat_seconds : float :=
  Eval vm_compute in
    fadd (fadd (of_Z 44) (fdiv (of_Z 30) (of_Z 60)))
         (fdiv (round_decimal false 155 (-1)) (of_Z 3600)).

(** A specimen with a latitude in degrees and minutes. *)
Definition dms_row (dir : pystr) : row :=
  Row (VStr (lit "44°41.576'")) (VStr dir) (VStr (lit "110°30'")) (VStr (lit "W"))
      (lit "bovidae") (lit "bison") (lit "bison") (of_Z 1995).

(** Two ranges that overlap from 5 to 10. *)
Definition overlapping_ranges : list range_vars :=
  [ (lit "0", lit "10", lit "A"); (lit "5", lit "15", lit "B") ].

(** Five ranges as the five rows of entry widgets can hold them, the
    minimum of the second not a number. *)
Definition nan_ranges : list range_vars :=
  [ (lit "2", lit "10", lit "A"); (lit "nan", lit "nan", lit "C");
    (lit "1", lit "10", lit "B"); (lit "101", lit "1000", lit "D");
    (lit "1001", lit "∞", lit "E") ].

(** A specimen found at a point of the county grid. *)
Definition specimen_at (x y : Z) : located :=
  Located (dms_row (lit "N")) (Point (of_Z x) (of_Z y)).

Definition west_county : @polygon geometry_of_boxes := mk_box 0 10 0 10.
Definition east_county : @polygon geometry_of_boxes := mk_box 20 30 0 10.

(** Seven specimens in the west county and three in the east county. *)
Definition ten_specimens : list located :=
  map (fun x => specimen_at x 5) [1; 2; 3; 4; 5; 6; 7; 21; 22; 23].

(** Five specimens in the west county. *)
Definition five_specimens : list located :=
  map (fun x => specimen_at x 5) [1; 2; 3; 4; 5].

(** A specimen with decimal coordinates, a blank latitude direction and a
    longitude direction in lower case with blanks around. *)
Definition decimal_row : row :=
  Row (VFloat (round_decimal false 465 (-1))) (VFloat nan)
      (VStr (lit "112.25")) (VStr (lit " w "))
      (lit "canidae") (lit "canis") (lit "lupus") (of_Z 2010).

(** A specimen whose latitude is an integer too large for a float. *)
Definition huge_row : row :=
  Row (VInt (2 ^ 1024)) (VStr (lit "N")) (VFloat (round_decimal false 1105 (-1)))
      (VStr (lit "W")) (lit "bovidae") (lit "bison") (lit "bison") (of_Z 2001).

Definition minus_44_5 : float := round_decimal true 445 (-1).

(** A specimen with a negative latitude and direction S. *)
Definition southern_row : row :=
  Row (VFloat minus_44_5) (VStr (lit "S")) (VFloat (round_decimal false 1105 (-1)))
      (VStr (lit "W")) (lit "bovidae") (lit "bison") (lit "bison") (of_Z 1999).

Definition demo_counties : list (list box) :=
  [ mk_box (-111) (-110) 44 45; mk_box (-113) (-112) 46 47 ].

(** The colour ranges the entry widgets start with. *)
Definition default_ranges : list range_vars :=
  [ (lit "0", lit "0", lit "white");
    (lit "1", lit "10", lit "#e7e8e9");
    (lit "11", lit "100", lit "#bcbec0");
    (lit "101", lit "1000", lit "#939598");
    (lit "1001", lit "∞", lit "#231f20") ].

Definition demo_table : table :=
  Table required_columns [ dms_row (lit "N"); decimal_row; huge_row ].

Definition demo_app (species_choice : pystr) : @MainApplication geometry_of_boxes :=
  @MainApp geometry_of_boxes (Some demo_table) (Some demo_counties) (lit "2000")
           (lit "All") (lit "All") species_choice default_ranges None.

(* ================================================================= *)
(** ** The rest of the interface

    The functions around the pipeline: the two dropdown updates, the parts
    of [load_excel] that process the sheet and fill the family box, the
    labels of the legend, the default colour ranges of
    [_setup_input_fields], the year range of [SummaryDialog], the width of
    the left panel and the file name of [download_map]; with them the few
    more pieces of the runtime they use. *)

(** *** Title case and the order of text *)

(** What [str.title] does to text that has a non-ASCII character is taken
    from the runtime. *)
Class Titlecase := {
  uni_title : pystr -> pystr
}.

(** [s.title()] on ASCII text: a letter that follows a letter is put in lower
    case, any other letter in upper case. *)
Fixpoint title_from (previous_is_cased : bool) (s : pystr) : pystr :=
  match s with
  | [] => []
  | c :: r =>
    (if previous_is_cased then ascii_lower c else ascii_upper c)
      :: title_from (is_ascii_letter c) r
  end.

Definition str_title {TC : Titlecase} (s : pystr) : pystr :=
  if forallb is_ascii s then title_from false s else uni_title s.

Definition ascii_titlecase : Titlecase := {| uni_title := fun s => s |}.

(** [a < b] on text: by code points, a proper prefix first. *)
Fixpoint str_ltb (a b : pystr) : bool :=
  match a, b with
  | _, [] => false
  | [], _ :: _ => true
  | x :: a', y :: b' => ((x <? y) || ((x =? y) && str_ltb a' b'))%N
  end.

(** [sorted(l)] on a list of text. *)
Fixpoint insert_str (x : pystr) (l : list pystr) : list pystr :=
  match l with
  | [] => [x]
  | y :: l' => if str_ltb y x then y :: insert_str x l' else x :: l
  end.

Definition py_sorted (l : list pystr) : list pystr := fold_right insert_str [] l.

(** [column.unique()]: the values in the order of their first appearance. *)
Fixpoint series_unique (l : list pystr) : list pystr :=
  match l with
  | [] => []
  | x :: r => x :: filter (fun y => negb (str_eqb y x)) (series_unique r)
  end.

(** The contents of the three combo boxes. *)
Record dropdowns := Dropdowns {
  family_values : list pystr;
  genus_values : list pystr;
  species_values : list pystr
}.

Definition has_column (data : table) (col : string) : bool :=
  existsb (String.eqb col) (columns data).

(** [data[col]] on the rows [rs] of [data]; without such a column a
    [KeyError], which is an [OtherError] here. *)
Definition column (data : table) (col : string) (field : row -> pystr)
    (rs : list row) : result (list pystr) :=
  if has_column data col then Ok (map field rs) else Raise OtherError.

(** [rs[test(rs[col])]] *)
Definition where_ (data : table) (col : string) (field : row -> pystr)
    (test : pystr -> bool) (rs : list row) : result (list row) :=
  if has_column data col then Ok (filter (fun r => test (field r)) rs)
  else Raise OtherError.

Section Dropdowns.
Context {RT : Runtime} {TC : Titlecase} {G : Geometry}.

(** [str(g).strip() and str(g).lower() != 'nan'] *)
Definition valid_name (g : pystr) : bool :=
  negb (str_eqb (str_strip g) []) && negb (str_eqb (str_lower g) (lit "nan")).

(** [sorted(column.dropna().unique())] without the blank names and without
    the text [nan]; the column holds text, so [dropna] drops nothing. *)
Definition valid_names (column : list pystr) : list pystr :=
  filter valid_name (py_sorted (series_unique column)).

(** The application with the three selections replaced. *)
Definition select (a : MainApplication) (fam gen spec : pystr) : MainApplication :=
  MainApp (excel_data a) (montana_counties a) (year_var a) fam gen spec
          (color_ranges a) (current_maps a).

Definition update_genus_dropdown (a : MainApplication) (d : dropdowns)
  : result (MainApplication * dropdowns) :=
  let family_ := str_strip (selected_family a) in
  if str_eqb family_ (lit "Select Family") then
    Ok (select a (selected_family a) (lit "Select Genus") (selected_species a),
        Dropdowns (family_values d) [] (species_values d))
  else
    match excel_data a with
    | None => Raise TypeError
    | Some data =>
      (filtered <-
         (if str_eqb family_ (lit "All")
          then where_ data "genus" genus
                      (fun g => negb (str_eqb (str_strip g) [])) (rows data)
          else where_ data "family" family
                      (fun f => str_eqb (str_lower f) (str_lower family_)) (rows data)) ;;
       genera <- column data "genus" genus filtered ;;
       let valid_genera := valid_names genera in
       let genus_values := lit "All" :: map str_title valid_genera in
       Ok (select a (selected_family a) (lit "Select Genus") (lit "Select Species"),
           Dropdowns (family_values d) genus_values []))%py
    end.

Definition update_species_dropdown (a : MainApplication) (d : dropdowns)
  : result (MainApplication * dropdowns) :=
  let family_ := str_strip (selected_family a) in
  let genus_ := str_strip (selected_genus a) in
  if str_eqb family_ (lit "Select Family") || str_eqb genus_ (lit "Select Genus") then
    Ok (select a (selected_family a) (selected_genus a) (lit "Select Species"),
        Dropdowns (family_values d) (genus_values d) [])
  else
    match excel_data a with
    | None => Raise TypeError
    | Some data =>
      (filtered <- where_ data "family" family (taxon_test (lit "All") family_) (rows data) ;;
       filtered <- where_ data "genus" genus (taxon_test (lit "All") genus_) filtered ;;
       names <- column data "species" species filtered ;;
       let valid_species := valid_names names in
       let species_values := lit "all" :: valid_species in
       Ok (select a (selected_family a) (selected_genus a) (lit "Select Species"),
           Dropdowns (family_values d) (genus_values d) species_values))%py
    end.

End Dropdowns.

(** [a < b] on text, as a relation. *)
Definition str_lt (a b : pystr) : Prop := str_ltb a b = true.


(** Two characters that [strip] and [lower] cannot tell apart. *)
Definition same_letter (c c' : codepoint) : Prop :=
  is_ascii c' = true /\ ascii_lower c' = ascii_lower c /\ isspace c' = isspace c.

(** *** Numbers and their text *)

(** [a * b] on floats. *)
Definition fmul : float -> float -> float := SFmul prec emax.

(** [legend_labels] of [display_maps]: the ranges are read from the entry
    widgets and sorted as in [process_county_data], then labelled in that
    order; these are the labels of [legend_elements], the patches set
    aside. *)
Definition legend_labels (color_ranges : list range_vars) : result (list pystr) :=
  (ranges <- read_ranges color_ranges ;;
   labels_of (sort_ranges ranges))%py.

(** The default ranges of [_setup_input_fields]; no maximum stands for
    [float('inf')]. *)
Definition default_range_values : list (Z * option Z * pystr) :=
  [ (0, Some 0, lit "white");
    (1, Some 10, lit "#e7e8e9");
    (11, Some 100, lit "#bcbec0");
    (101, Some 1000, lit "#939598");
    (1001, None, lit "#231f20") ].

(** The entry widgets that [_setup_input_fields] creates for them:
    [str(min_val)], the infinity sign or [str(max_val)], and the colour. *)
Definition initial_color_ranges : list range_vars :=
  map (fun '(min_val, max_val, color) =>
         (str_of_int min_val,
          match max_val with
          | None => infinity_sign
          | Some m => str_of_int m
          end,
          color))
      default_range_values.

(** [int(total_width * 0.23) - 10] *)
Definition left_width (total_width : Z) : result Z :=
  (w <- float_of_int total_width ;;
   n <- int_of_float (fmul w (round_decimal false 23 (-2))) ;;
   Ok (n - 10))%py.

(** [set_panel_widths]: the width the left panel is given, if any; nothing
    is done for a container without width, nor when an exception is caught. *)
Definition set_panel_widths (total_width : Z) : option Z :=
  if 0 <? total_width then
    match left_width total_width with
    | Ok w => Some w
    | Raise _ => None
    end
  else None.

(** *** Vocabulary *)

Definition is_finite (x : float) : bool :=
  match x with
  | S754_zero _ | S754_finite _ _ _ => true
  | _ => false
  end.

(** A range that the legend can label. *)
Definition label_ok (r : color_range) : bool :=
  is_finite (range_min r) && (feq (range_max r) inf || is_finite (range_max r)).

(** The colour a county with [n] points gets from the default ranges. *)
Definition default_color (n : Z) : pystr :=
  if n =? 0 then lit "white"
  else if n <=? 10 then lit "#e7e8e9"
  else if n <=? 100 then lit "#bcbec0"
  else if n <=? 1000 then lit "#939598"
  else lit "#231f20".


(** [f] holds on the [len] integers from [lo] on. *)
Fixpoint forall_range (f : Z -> bool) (lo : Z) (len : positive) : bool :=
  match len with
  | xH => f lo
  | xO p => forall_range f lo p && forall_range f (lo + Zpos p) p
  | xI p => f lo && forall_range f (lo + 1) p && forall_range f (lo + 1 + Zpos p) p
  end.

(** The left panel gets 23 per cent of the width [w], less the padding. *)
Definition width_is_23_percent (w : Z) : bool :=
  match set_panel_widths w with
  | Some x => x =? 23 * w / 100 - 10
  | None => false
  end.

(** An entry whose two bounds [float] can read. *)
Definition entry_ok (v : range_vars) : bool :=
  let '(min_var, max_var, _) := v in
  match parse_float min_var with
  | Some _ =>
    str_eqb max_var infinity_sign
    || match parse_float max_var with Some _ => true | None => false end
  | None => false
  end.

(** *** Loading a sheet *)

(** A row of the sheet as [pd.read_excel] returns it. *)
Record raw_row := RawRow {
  raw_lat : pyval;
  raw_lat_dir : pyval;
  raw_long : pyval;
  raw_long_dir : pyval;
  raw_family : pyval;
  raw_genus : pyval;
  raw_species : pyval;
  raw_year : pyval
}.

Record raw_table := RawTable {
  raw_columns : list string;
  raw_rows : list raw_row
}.

(** What [load_excel] takes from pandas without fixing it here: the number
    that [pd.to_numeric(..., errors='coerce')] makes of one cell of the year
    column, NaN where it makes none; and how the rows of a sheet that was
    stored without processing, because a column is missing, appear to later
    operations. *)
Class Pandas := {
  to_numeric : pyval -> float;
  unprocessed : raw_row -> row
}.

Section Processing.
Context {RT : Runtime} {TC : Titlecase} {PD : Pandas}.

(** [column.astype(str).str.strip().str.lower()] on one cell. *)
Definition normalize_name (v : pyval) : pystr :=
  str_lower (str_strip (py_str v)).

(** The processing of [load_excel]: the three taxon columns are normalised
    and the year column is made numeric; the coordinates stay as read. *)
Definition process_row (r : raw_row) : row :=
  Row (raw_lat r) (raw_lat_dir r) (raw_long r) (raw_long_dir r)
      (normalize_name (raw_family r)) (normalize_name (raw_genus r))
      (normalize_name (raw_species r)) (to_numeric (raw_year r)).

(** The values [load_excel] gives the family box. *)
Definition family_values_of (data : list row) : list pystr :=
  let valid_families := valid_names (map family data) in
  lit "All" :: map str_title valid_families.

End Processing.

(** [column.min()] and [column.max()] of a numeric column: NaN cells are
    skipped, and the result is NaN when no cell is left. *)
Definition numeric (ys : list float) : list float :=
  filter (fun y => negb (is_nan y)) ys.

Definition column_min (ys : list float) : float :=
  match numeric ys with
  | [] => nan
  | y :: r => fold_left (fun a b => if flt b a then b else a) r y
  end.

Definition column_max (ys : list float) : float :=
  match numeric ys with
  | [] => nan
  | y :: r => fold_left (fun a b => if flt a b then b else a) r y
  end.

(** The year range of [SummaryDialog]:
    [int(data['year'].min())] and [int(data['year'].max())]. *)
Definition year_range (data : list row) : result (Z * Z) :=
  let years := map year data in
  (first <- int_of_float (column_min years) ;;
   last <- int_of_float (column_max years) ;;
   Ok (first, last))%py.

(** A text without white space at either end. *)
Definition trimmed (t : pystr) : Prop :=
  match t with [] => True | c :: _ => isspace c = false end /\
  match rev t with [] => True | c :: _ => isspace c = false end.

Section Loading.
Context {RT : Runtime} {TC : Titlecase} {PD : Pandas} {G : Geometry}.

(** The application window: the fields of [MainApplication], the contents of
    the three combo boxes and the text of the file entry. *)
Record window := Window {
  application : MainApplication;
  boxes : dropdowns;
  file_path_var : pystr
}.

(** How [load_excel] ends. *)
Inductive load_outcome :=
| Cancelled              (* no file was chosen; nothing is shown *)
| LoadError (e : exn)    (* the toast Error loading file: and [str(e)] *)
| LoadedToast            (* the toast Excel file loaded successfully *)
| LoadEscaped (e : exn). (* nothing is shown: [e] leaves [load_excel] *)

Definition set_excel_data (a : MainApplication) (data : table) : MainApplication :=
  MainApp (Some data) (montana_counties a) (year_var a) (selected_family a)
          (selected_genus a) (selected_species a) (color_ranges a) (current_maps a).

Definition set_montana_counties (a : MainApplication) (counties : list polygon)
  : MainApplication :=
  MainApp (excel_data a) (Some counties) (year_var a) (selected_family a)
          (selected_genus a) (selected_species a) (color_ranges a) (current_maps a).

(** The [except Exception] clause of [load_excel]: the loading window is
    destroyed and the exception shown in a toast; when the window was
    destroyed before, [destroy] raises in the clause and its [TclError]
    leaves [load_excel]. *)
Definition load_excel_except (e : exn) (w : window) (loading : indicator)
  : load_outcome * window :=
  match destroy loading with
  | (Ok _, _) => (LoadError e, w)
  | (Raise e', _) => (LoadEscaped e', w)
  end.

(** [load_excel].  What comes from outside is given: [file_path], the
    answer of the file dialog (empty when it was cancelled); [sheet], the
    outcome of [pd.read_excel(file_path)]; [shapefile], the outcome of
    reading the Montana counties and reprojecting them.  The loading window
    is destroyed before the [ValueError] of a missing column is raised, and
    before the summary dialog, which computes the year range and may
    raise. *)
Definition load_excel (w : window) (file_path : pystr) (sheet : result raw_table)
    (shapefile : result (list polygon)) : load_outcome * window :=
  match file_path with
  | [] => (Cancelled, w)
  | _ :: _ =>
    let loading := Shown in
    match sheet with
    | Raise e => load_excel_except e w loading
    | Ok raw =>
      if negb (forallb (fun col => existsb (String.eqb col) (raw_columns raw))
                       required_columns)
      then
        let w := Window (set_excel_data (application w)
                           (Table (raw_columns raw) (map unprocessed (raw_rows raw))))
                        (boxes w) (file_path_var w) in
        match destroy loading with
        | (Ok _, loading) => load_excel_except ValueError w loading
        | (Raise e, loading) => load_excel_except e w loading
        end
      else
        let data := Table (raw_columns raw) (map process_row (raw_rows raw)) in
        let a := select (set_excel_data (application w) data)
                        (lit "Select Family") (lit "Select Genus") (lit "Select Species") in
        let d := Dropdowns (family_values_of (rows data)) [] [] in
        match shapefile with
        | Raise e => load_excel_except e (Window a d file_path) loading
        | Ok counties =>
          let a := set_montana_counties a counties in
          match destroy loading with
          | (Ok _, loading) =>
            match year_range (rows data) with
            | Raise e => load_excel_except e (Window a d file_path) loading
            | Ok _ => (LoadedToast, Window a d file_path)
            end
          | (Raise e, loading) => load_excel_except e (Window a d file_path) loading
          end
        end
    end
  end.

End Loading.

Arguments window {G}.

(** *** [download_map] *)

(** The fields of [datetime.datetime.now()] that the file name shows. *)
Record datetime := Datetime {
  dt_year : Z;
  dt_month : Z;
  dt_day : Z;
  dt_hour : Z;
  dt_minute : Z
}.

(** A number below 100 on two digits. *)
Definition two_digits (n : Z) : pystr :=
  [ Z.to_N (48 + n / 10); Z.to_N (48 + n mod 10) ].

(** [now.strftime('%I_%M_%p_%m_%d_%Y')]: the hour of the twelve-hour clock,
    the minute, AM or PM (the C locale), month, day and year; the year is
    written without padding, as it is from the year 1000 on. *)
Definition strftime_I (hour : Z) : pystr :=
  two_digits (if hour mod 12 =? 0 then 12 else hour mod 12).

Definition strftime_p (hour : Z) : pystr :=
  if hour <? 12 then lit "AM" else lit "PM".

Definition timestamp (now : datetime) : pystr :=
  strftime_I (dt_hour now) ++ lit "_" ++ two_digits (dt_minute now) ++ lit "_"
  ++ strftime_p (dt_hour now) ++ lit "_" ++ two_digits (dt_month now) ++ lit "_"
  ++ two_digits (dt_day now) ++ lit "_" ++ str_of_int (dt_year now).

(** The file name: [MontanaSpecimensMaps_], the time stamp, a point and the
    format. *)
Definition export_filename (now : datetime) (export_format : pystr) : pystr :=
  lit "MontanaSpecimensMaps_" ++ timestamp now ++ lit "." ++ export_format.

(** How [download_map] ends. *)
Inductive download_outcome :=
| NoMapsYet                   (* the toast Please generate maps first *)
| SvgUnavailable              (* the message box about the missing SVG backend *)
| SaveError (e : exn)         (* the message box Error saving file *)
| Saved (filename : pystr).   (* the toast Maps saved as, with the name *)

Section Download.
Context {G : Geometry}.

(** [download_map].  Given from outside: the clock, the chosen format,
    whether matplotlib has its SVG backend, and what [savefig] does with the
    file of a given name in the Downloads folder. *)
Definition download_map (a : MainApplication) (now : datetime) (export_format : pystr)
    (svg_backend : bool) (savefig : pystr -> result unit) : download_outcome :=
  match current_maps a with
  | None => NoMapsYet
  | Some _ =>
    let filename := export_filename now export_format in
    if str_eqb export_format (lit "svg") && negb svg_backend then SvgUnavailable
    else
      match savefig filename with
      | Raise e => SaveError e
      | Ok _ => Saved filename
      end
  end.

End Download.

(** A date and time of the clock. *)
Definition valid_datetime (d : datetime) : Prop :=
  1000 <= dt_year d /\ 1 <= dt_month d <= 12 /\ 1 <= dt_day d <= 31 /\
  0 <= dt_hour d < 24 /\ 0 <= dt_minute d < 60.

(** The text has no greater-than sign. *)
Definition no_arrow (s : pystr) : Prop := forallb (fun c => negb (c =? 62)%N) s = true.

(** *** Example data for the interface *)

Definition no_boxes : dropdowns := Dropdowns [] [] [].

(** The example application with the three selections and the year given. *)
Definition demo_choice (year fam gen spec : pystr) : @MainApplication geometry_of_boxes :=
  @MainApp geometry_of_boxes (Some demo_table) (Some demo_counties) year
           fam gen spec default_ranges None.

(** A pandas that turns numeric cells into numbers and leaves the cells of
    an unprocessed sheet without names. *)
Definition example_pandas : Pandas :=
  {| to_numeric := fun v =>
       match v with
       | VFloat f => f
       | VInt n => of_Z n
       | _ => nan
       end;
     unprocessed := fun r =>
       Row (raw_lat r) (raw_lat_dir r) (raw_long r) (raw_long_dir r) [] [] [] nan |}.

Definition demo_sheet : raw_table :=
  RawTable required_columns
    [ RawRow (VStr (lit "44°41.576'")) (VStr (lit "N")) (VStr (lit "110°30'"))
             (VStr (lit "W")) (VStr (lit " Bovidae ")) (VStr (lit "Bison"))
             (VStr (lit "bison ")) (VInt 1995) ].

(** A sheet without coordinates. *)
Definition partial_sheet : raw_table :=
  RawTable [ "family"; "genus"; "species"; "year" ]%string [].

Definition demo_window : @window geometry_of_boxes :=
  Window (demo_app (lit "all")) no_boxes [].

(** An application that holds maps. *)
Definition mapped_app : @MainApplication geometry_of_boxes :=
  set_current_maps (demo_app (lit "all")) (Maps [] [] 2000 (lit "All > All > all")).

(** The example application with one range, whose minimum is not a
    number. *)
Definition unlabelled_app : @MainApplication geometry_of_boxes :=
  @MainApp geometry_of_boxes (Some demo_table) (Some demo_counties) (lit "2000")
           (lit "All") (lit "All") (lit "all")
           [ (lit "nan", lit "10", lit "white") ] None.

Definition morning : datetime := Datetime 2025 6 12 9 5.
Definition evening : datetime := Datetime 2025 6 12 21 5.

(* ================================================================= *)
(** ** Proofs: text and the Unicode tables *)

Unset Implicit Arguments.

Open Scope N_scope.

Lemma str_eqb_eq (a b : pystr) : str_eqb a b = true <-> a = b.
Proof.
  unfold str_eqb. destruct (list_eq_dec N.eq_dec a b); split; congruence.
Qed.

Lemma str_eqb_refl (a : pystr) : str_eqb a a = true.
Proof. now apply str_eqb_eq. Qed.

Lemma in_range_overlaps c a b :
  in_range c a = true -> in_range c b = true -> overlaps a b = true.
Proof.
  unfold in_range, overlaps. rewrite !andb_true_iff, !N.leb_le. lia.
Qed.

Lemma decimal_zeros_ok : forallb zero_ok decimal_zeros = true.
Proof. vm_compute. reflexivity. Qed.

Lemma todecimal_inv c d :
  todecimal c = Some d ->
  exists z, In z decimal_zeros /\ z <= c <= z + 9 /\ d = c - z.
Proof.
  unfold todecimal. destruct (find _ _) as [z|] eqn:E; [|discriminate].
  intros [= <-]. apply find_some in E. destruct E as [Hin Hr].
  unfold in_range in Hr. simpl in Hr.
  rewrite andb_true_iff, !N.leb_le in Hr. eauto.
Qed.

Lemma decimal_cases c d :
  todecimal c = Some d ->
  d <= 9 /\
  ((48 <= c <= 57 /\ d = c - 48) \/
   (127 <= c /\ isspace c = false /\ c <> 0xB0)).
Proof.
  intros H. apply todecimal_inv in H. destruct H as (z & Hin & Hc & ->).
  split; [lia|].
  pose proof decimal_zeros_ok as Hok. rewrite forallb_forall in Hok.
  specialize (Hok z Hin). unfold zero_ok in Hok.
  apply orb_prop in Hok. destruct Hok as [Hz|Hz].
  - apply N.eqb_eq in Hz. subst z. left. lia.
  - rewrite !andb_true_iff, !negb_true_iff, N.leb_le in Hz.
    destruct Hz as [[Hz Hsp] Hdeg]. right. split; [lia|]. split.
    + unfold isspace, in_ranges.
      destruct (existsb (in_range c) space_ranges) eqn:E; [|reflexivity].
      apply existsb_exists in E. destruct E as (r & Hr & Hcr).
      assert (existsb (overlaps (z, z + 9)) space_ranges = true); [|congruence].
      apply existsb_exists. exists r. split; [assumption|].
      apply in_range_overlaps with c; [|assumption].
      unfold in_range. simpl. rewrite andb_true_iff, !N.leb_le. lia.
    + intros ->. unfold in_range in Hdeg. simpl in Hdeg.
      rewrite andb_false_iff, !N.leb_gt in Hdeg. lia.
Qed.

Lemma isdecimal_to_ascii c :
  isdecimal c = true -> is_ascii_digit (to_ascii c) = true.
Proof.
  unfold isdecimal. destruct (todecimal c) as [d|] eqn:E; [|discriminate].
  intros _. destruct (decimal_cases _ _ E) as [Hd [[Hc _]|(Hc & Hsp & _)]].
  - unfold to_ascii. destruct (c <? 127) eqn:L; [|apply N.ltb_ge in L; lia].
    unfold is_ascii_digit. rewrite andb_true_iff, !N.leb_le. lia.
  - unfold to_ascii. destruct (c <? 127) eqn:L; [apply N.ltb_lt in L; lia|].
    rewrite Hsp, E. unfold is_ascii_digit. rewrite andb_true_iff, !N.leb_le. lia.
Qed.

Lemma isdecimal_not_sep c :
  isdecimal c = true -> degree_or_space c = false.
Proof.
  unfold isdecimal. destruct (todecimal c) as [d|] eqn:E; [|discriminate].
  intros _. destruct (decimal_cases _ _ E) as [Hd [[Hc _]|(Hc & Hsp & Hdeg)]].
  - unfold degree_or_space. apply orb_false_iff. split.
    + apply N.eqb_neq. lia.
    + unfold isspace, in_ranges, space_ranges, in_range. simpl.
      repeat (apply orb_false_iff; split); try reflexivity;
        apply andb_false_iff; rewrite !N.leb_gt; lia.
  - unfold degree_or_space. rewrite Hsp. apply orb_false_iff. split; auto.
    now apply N.eqb_neq.
Qed.

Lemma digits_to_ascii l :
  forallb isdecimal l = true -> forallb is_ascii_digit (map to_ascii l) = true.
Proof.
  induction l as [|c l IH]; simpl; [reflexivity|].
  rewrite !andb_true_iff. intros [Hc Hl]. split; auto using isdecimal_to_ascii.
Qed.

(* ================================================================= *)
(** ** Proofs: the matcher *)

Section Matcher.
Variable A : Type.
Implicit Types (k : pystr -> captures -> option A) (s : pystr) (c : captures).

Lemma run_Chr p k s c v :
  run (Chr p) k s c = Some v ->
  exists x s', s = x :: s' /\ p x = true /\ k s' c = Some v.
Proof.
  destruct s as [|x s']; simpl; [discriminate|].
  destruct (p x) eqn:E; [|discriminate]. eauto.
Qed.

Lemma run_Star p k s c v :
  run (Star p) k s c = Some v ->
  exists l s', s = l ++ s' /\ forallb p l = true /\ k s' c = Some v.
Proof.
  induction s as [|x s IH]; simpl.
  - intros H. exists [], []. auto.
  - destruct (p x) eqn:E.
    + change ((fix loop (t : pystr) : option A :=
                 match t with
                 | [] => k t c
                 | x0 :: t' =>
                   if p x0
                   then match loop t' with Some v0 => Some v0 | None => k t c end
                   else k t c
                 end) s) with (run (Star p) k s c).
      destruct (run (Star p) k s c) eqn:R.
      * intros [= ->]. destruct (IH eq_refl) as (l & s' & -> & Hl & Hk).
        exists (x :: l), s'. simpl. rewrite E, Hl. auto.
      * intros H. exists [], (x :: s). auto.
    + intros H. exists [], (x :: s). auto.
Qed.

Lemma run_Plus p k s c v :
  run (Plus p) k s c = Some v ->
  exists l s', s = l ++ s' /\ l <> [] /\ forallb p l = true /\ k s' c = Some v.
Proof.
  intros H. change (run (Chr p) (run (Star p) k) s c = Some v) in H.
  apply run_Chr in H. destruct H as (x & s1 & -> & Hx & H).
  apply run_Star in H. destruct H as (l & s' & -> & Hl & H).
  exists (x :: l), s'. simpl. rewrite Hx, Hl. repeat split; auto. discriminate.
Qed.

Lemma run_Opt a k s c v :
  run (Opt a) k s c = Some v ->
  run a k s c = Some v \/ k s c = Some v.
Proof.
  simpl. destruct (run a k s c); auto.
Qed.

End Matcher.

Lemma consumed_app (l s : pystr) : consumed (l ++ s) s = l.
Proof.
  unfold consumed. rewrite length_app.
  replace (List.length l + List.length s - List.length s)%nat with (List.length l) by lia.
  rewrite firstn_app, Nat.sub_diag. simpl. rewrite firstn_all. apply app_nil_r.
Qed.

Lemma mo_Chr p : matches_only (Chr p) (fun l => exists x, l = [x] /\ p x = true).
Proof.
  intros A k s c v H. apply run_Chr in H. destruct H as (x & s' & -> & Hx & H).
  exists [x], s'. eauto.
Qed.

Lemma mo_Star p : matches_only (Star p) (fun l => forallb p l = true).
Proof. intros A k s c v H. now apply run_Star in H. Qed.

Lemma mo_Plus p : matches_only (Plus p) (fun l => l <> [] /\ forallb p l = true).
Proof.
  intros A k s c v H. apply run_Plus in H.
  destruct H as (l & s' & -> & ? & ? & ?). exists l, s'. auto.
Qed.

Lemma mo_Seq a b P Q :
  matches_only a P -> matches_only b Q ->
  matches_only (Seq a b) (fun l => exists l1 l2, l = l1 ++ l2 /\ P l1 /\ Q l2).
Proof.
  intros Ha Hb A k s c v H. change (run a (run b k) s c = Some v) in H.
  apply Ha in H. destruct H as (l1 & s1 & -> & H1 & H).
  apply Hb in H. destruct H as (l2 & s2 & -> & H2 & H).
  exists (l1 ++ l2), s2. rewrite <- app_assoc. eauto 7.
Qed.

Lemma mo_Opt a P :
  matches_only a P -> matches_only (Opt a) (fun l => l = [] \/ P l).
Proof.
  intros Ha A k s c v H. apply run_Opt in H. destruct H as [H|H].
  - apply Ha in H. destruct H as (l & s' & -> & ? & ?). exists l, s'. auto.
  - exists [], s. auto.
Qed.

Lemma mo_weaken a (P Q : pystr -> Prop) :
  matches_only a P -> (forall l, P l -> Q l) -> matches_only a Q.
Proof.
  intros Ha HPQ A k s c v H. apply Ha in H.
  destruct H as (l & s' & ? & ? & ?). exists l, s'. auto.
Qed.

Lemma run_Group_inv (A : Type) n a P (k : pystr -> captures -> option A) s c v :
  matches_only a P ->
  run (Group n a) k s c = Some v ->
  exists l s', s = l ++ s' /\ P l /\ k s' (set_group n l c) = Some v.
Proof.
  intros Ha H.
  change (run a (fun s' c' => k s' (set_group n (consumed s s') c')) s c = Some v) in H.
  apply Ha in H. destruct H as (l & s' & -> & Hl & H).
  rewrite consumed_app in H. eauto.
Qed.

Lemma mo_fraction :
  matches_only (Opt (Seq (Chr dot) (Plus isdecimal))) (fun f => f = [] \/ fraction f).
Proof.
  apply mo_Opt. eapply mo_weaken.
  - apply mo_Seq; [apply mo_Chr | apply mo_Plus].
  - intros l (l1 & l2 & -> & (x & -> & Hx) & Hd).
    unfold dot in Hx. apply N.eqb_eq in Hx. subst x. exists l2. split; auto.
Qed.

Lemma mo_decimal_number :
  matches_only (Seq (Plus isdecimal) (Opt (Seq (Chr dot) (Plus isdecimal))))
               decimal_number.
Proof.
  eapply mo_weaken.
  - apply mo_Seq; [apply mo_Plus | apply mo_fraction].
  - intros l (a & f & -> & Ha & Hf). exists a, f. auto.
Qed.

Lemma mo_seconds_text :
  matches_only (Seq (Star isdecimal) (Opt (Seq (Chr dot) (Plus isdecimal))))
               seconds_text.
Proof.
  eapply mo_weaken.
  - apply mo_Seq; [apply mo_Star | apply mo_fraction].
  - intros l (a & f & -> & Ha & Hf). exists a, f. auto.
Qed.

(** One step into a sequence: [run (Seq a b) k] is [run a (run b k)]. *)
Ltac seq_step H :=
  match type of H with
  | run (Seq ?a ?b) ?k ?s ?c = ?r => change (run a (run b k) s c = r) in H
  end.

(** What a successful match of [dms_pattern] looks like. *)
Lemma dms_match_inv s m :
  re_match dms_pattern s = Some m ->
  exists g1 g2 g3 x tl g3',
    m 1%nat = Some g1 /\ m 2%nat = Some g2 /\ m 3%nat = Some g3 /\
    digits g1 /\ decimal_number g2 /\ seconds_text g3 /\
    s = g1 ++ x :: tl ++ g2 ++ g3' /\ degree_or_space x = true.
Proof.
  unfold re_match, dms_pattern. intros H.
  seq_step H.
  eapply run_Group_inv in H; [|apply mo_Plus].
  destruct H as (g1 & s1 & -> & Hg1 & H).
  seq_step H.
  apply mo_Plus in H. destruct H as (l2 & s2 & -> & (Hl2 & Hsep) & H).
  seq_step H.
  eapply run_Group_inv in H; [|apply mo_decimal_number].
  destruct H as (g2 & s3 & -> & Hg2 & H).
  seq_step H.
  eapply mo_Opt in H; [|apply mo_Chr]. destruct H as (l4 & s4 & -> & _ & H).
  seq_step H.
  apply mo_Star in H. destruct H as (l5 & s5 & -> & _ & H).
  seq_step H.
  eapply run_Group_inv in H; [|apply mo_seconds_text].
  destruct H as (g3 & s6 & -> & Hg3 & H).
  eapply mo_Opt in H; [|apply mo_Chr]. destruct H as (l7 & s7 & -> & _ & H).
  injection H as <-.
  destruct l2 as [|x l2]; [congruence|].
  simpl in Hsep. apply andb_prop in Hsep. destruct Hsep as [Hx _].
  exists g1, g2, g3, x, l2, (l4 ++ l5 ++ g3 ++ l7 ++ s7).
  repeat split; auto; try apply Hg1.
Qed.

(* ================================================================= *)
(** ** Proofs: floats *)

Open Scope Z_scope.

(** *** Comparisons *)

Lemma SFcompare_swap x y :
  SFcompare y x = option_map CompOpp (SFcompare x y).
Proof.
  destruct x as [sx|sx| |sx mx ex], y as [sy|sy| |sy my ey]; simpl;
    try reflexivity;
    try (destruct sx; reflexivity); try (destruct sy; reflexivity);
    try (destruct sx, sy; reflexivity).
  destruct sx, sy; simpl; try reflexivity; f_equal;
    rewrite (Z.compare_antisym ex ey); destruct (ex ?= ey) eqn:E; simpl;
    try reflexivity;
    rewrite (Pos.compare_cont_antisym mx my Eq); simpl;
    try rewrite CompOpp_involutive; reflexivity.
Qed.

Lemma flt_fle x y : flt x y = true -> fle x y = true.
Proof.
  unfold flt, fle, SFltb, SFleb. destruct (SFcompare x y) as [[]|]; auto.
Qed.

Lemma not_flt_fle x y :
  is_nan x = false -> is_nan y = false -> flt y x = false -> fle x y = true.
Proof.
  unfold flt, fle, SFltb, SFleb. rewrite (SFcompare_swap x y).
  destruct (SFcompare x y) as [[]|] eqn:E; simpl; auto; try discriminate.
  destruct x, y; simpl in *; discriminate.
Qed.

Lemma SFcompare_Eq_inv x y :
  SFcompare x y = Some Eq ->
  match x, y with
  | S754_zero _, S754_zero _ => True
  | S754_infinity s1, S754_infinity s2 => s1 = s2
  | S754_finite s1 m1 e1, S754_finite s2 m2 e2 => s1 = s2 /\ m1 = m2 /\ e1 = e2
  | _, _ => False
  end.
Proof.
  destruct x as [sx|sx| |sx mx ex], y as [sy|sy| |sy my ey]; simpl;
    try discriminate; auto;
    try (destruct sx; discriminate); try (destruct sy; discriminate).
  - destruct sx, sy; auto; discriminate.
  - destruct sx, sy; try discriminate;
      destruct (ex ?= ey) eqn:E; try discriminate;
      apply Z.compare_eq in E; intros H.
    + injection H as H. destruct (Pos.compare_cont Eq mx my) eqn:C; try discriminate.
      apply Pos.compare_eq in C. auto.
    + injection H as H. apply Pos.compare_eq in H. auto.
Qed.

Lemma feq_flt_false x y k :
  feq x k = true -> feq y k = true -> flt x y = false.
Proof.
  unfold feq, SFeqb, flt, SFltb.
  destruct (SFcompare x k) as [[]|] eqn:E1; try discriminate.
  destruct (SFcompare y k) as [[]|] eqn:E2; try discriminate.
  intros _ _. apply SFcompare_Eq_inv in E1, E2.
  destruct x as [sx|sx| |sx mx ex], k as [sk|sk| |sk mk ek]; try contradiction;
    destruct y as [sy|sy| |sy my ey]; try contradiction.
  - reflexivity.
  - subst. simpl. destruct sk; reflexivity.
  - destruct E1 as (-> & -> & ->), E2 as (-> & -> & ->). simpl.
    rewrite Z.compare_refl. change (Pos.compare_cont Eq mk mk) with (mk ?= mk)%positive.
    rewrite Pos.compare_refl. destruct sk; reflexivity.
Qed.

Lemma nonneg_cases x :
  fle (of_Z 0) x = true ->
  match x with
  | S754_zero _ => True
  | S754_infinity s | S754_finite s _ _ => s = false
  | S754_nan => False
  end.
Proof.
  change (of_Z 0) with (S754_zero false).
  destruct x as [s|s| |s m e]; unfold fle, SFleb; simpl; auto; try discriminate;
    destruct s; auto; discriminate.
Qed.

Lemma feq_refl_finite s m e : feq (S754_finite s m e) (S754_finite s m e) = true.
Proof.
  unfold feq, SFeqb. simpl. rewrite Z.compare_refl.
  change (Pos.compare_cont Eq m m) with (m ?= m)%positive. rewrite Pos.compare_refl.
  destruct s; reflexivity.
Qed.

Lemma fneg_nonneg x :
  fle (of_Z 0) x = true ->
  feq (fneg x) (fneg (fabs x)) = true /\ fle (fneg x) (of_Z 0) = true.
Proof.
  intros H. apply nonneg_cases in H. change (of_Z 0) with (S754_zero false).
  destruct x as [s|s| |s m e]; try contradiction; subst; simpl.
  - split; reflexivity.
  - split; reflexivity.
  - split; [apply feq_refl_finite|reflexivity].
Qed.

Lemma fle_key x y :
  is_nan x = false -> is_nan y = false ->
  (fle x y = true <-> key_le (order_key x) (order_key y)).
Proof.
  unfold fle, SFleb.
  destruct x as [sx|sx| |sx mx ex], y as [sy|sy| |sy my ey]; simpl;
    try discriminate; intros _ _;
    try (destruct sx); try (destruct sy); simpl;
    try (split; [intros _; lia | reflexivity]);
    try (split; [discriminate | lia]).
  - destruct (Z.compare_spec ex ey) as [->|H|H].
    + change (Pos.compare_cont Eq mx my) with (mx ?= my)%positive.
      destruct (Pos.compare_spec mx my) as [->|H|H]; simpl;
        (split; [try discriminate; intros _; lia | try reflexivity; lia]).
    + split; [discriminate | lia].
    + split; [intros _; lia | reflexivity].
  - destruct (Z.compare_spec ex ey) as [->|H|H].
    + change (Pos.compare_cont Eq mx my) with (mx ?= my)%positive.
      destruct (Pos.compare_spec mx my) as [->|H|H]; simpl;
        (split; [try discriminate; intros _; lia | try reflexivity; lia]).
    + split; [intros _; lia | reflexivity].
    + split; [discriminate | lia].
Qed.

Lemma fle_trans x y z :
  is_nan x = false -> is_nan y = false -> is_nan z = false ->
  fle x y = true -> fle y z = true -> fle x z = true.
Proof.
  intros Hx Hy Hz. rewrite !fle_key by assumption.
  destruct (order_key x) as [[a1 a2] a3], (order_key y) as [[b1 b2] b3],
           (order_key z) as [[c1 c2] c3].
  unfold key_le. lia.
Qed.

Lemma fle_antisym_feq x y :
  is_nan x = false -> is_nan y = false ->
  fle x y = true -> fle y x = true -> feq x y = true.
Proof.
  intros Hx Hy H1 H2. unfold fle, SFleb, feq, SFeqb in *.
  rewrite (SFcompare_swap x y) in H2.
  destruct (SFcompare x y) as [[]|]; simpl in *; try discriminate; reflexivity.
Qed.

Lemma feq_refl x : is_nan x = false -> feq x x = true.
Proof.
  destruct x as [s|s| |s m e]; simpl; try discriminate; intros _.
  - reflexivity.
  - destruct s; reflexivity.
  - apply feq_refl_finite.
Qed.

Lemma fle_refl x : is_nan x = false -> fle x x = true.
Proof.
  intros H. apply feq_refl in H. unfold feq, SFeqb, fle, SFleb in *.
  destruct (SFcompare x x) as [[]|]; auto.
Qed.

(** *** Rounding keeps the sign and never makes a NaN *)

Lemma shr_1_nonneg mrs : 0 <= shr_m mrs -> 0 <= shr_m (shr_1 mrs).
Proof.
  destruct mrs as [m r s]. simpl.
  destruct m as [|p|p]; simpl; try lia; destruct p; simpl; lia.
Qed.

Lemma iter_pos_inv {A} (P : A -> Prop) (f : A -> A) :
  (forall x, P x -> P (f x)) -> forall p x, P x -> P (iter_pos f p x).
Proof.
  intros Hf. induction p as [p IH|p IH|]; intros x Hx; simpl; auto.
Qed.

Lemma shr_nonneg mrs e n : 0 <= shr_m mrs -> 0 <= shr_m (fst (shr mrs e n)).
Proof.
  intros H. unfold shr. destruct n; simpl; auto.
  apply iter_pos_inv with (P := fun r => 0 <= shr_m r); auto using shr_1_nonneg.
Qed.

Lemma shr_fexp_nonneg m e l :
  0 <= m -> 0 <= shr_m (fst (shr_fexp prec emax m e l)).
Proof.
  intros H. unfold shr_fexp. apply shr_nonneg. destruct l as [|[]]; exact H.
Qed.

Lemma round_nearest_even_nonneg m l : 0 <= m -> 0 <= round_nearest_even m l.
Proof.
  intros H. unfold round_nearest_even. destruct l as [|[]]; try lia.
  destruct (Z.even m); lia.
Qed.

Lemma binary_round_aux_sign s mx ex lx :
  0 <= mx -> has_sign s (binary_round_aux prec emax s mx ex lx).
Proof.
  intros H. unfold binary_round_aux.
  pose proof (shr_fexp_nonneg mx ex lx H) as H1.
  destruct (shr_fexp prec emax mx ex lx) as [mrs' e']. simpl in H1.
  pose proof (shr_fexp_nonneg _ e' loc_Exact
                (round_nearest_even_nonneg _ (loc_of_shr_record mrs') H1)) as H2.
  destruct (shr_fexp prec emax _ e' loc_Exact) as [mrs'' e'']. simpl in H2.
  destruct (shr_m mrs'') as [|p|p].
  - reflexivity.
  - destruct (e'' <=? emax - prec); reflexivity.
  - lia.
Qed.

Lemma binary_round_sign s m e : has_sign s (binary_round prec emax s m e).
Proof.
  unfold binary_round. destruct (shl_align m e _) as [mz ez].
  apply binary_round_aux_sign. lia.
Qed.

Lemma of_Z_sign n : has_sign (n <? 0) (of_Z n).
Proof.
  unfold of_Z, binary_normalize. destruct n as [|p|p]; simpl.
  - reflexivity.
  - apply binary_round_sign.
  - apply binary_round_sign.
Qed.

Lemma has_sign_not_nan s x : has_sign s x -> is_nan x = false.
Proof. destruct x; simpl; auto; contradiction. Qed.

Lemma of_Z_not_nan n : is_nan (of_Z n) = false.
Proof. eapply has_sign_not_nan, of_Z_sign. Qed.

Lemma fle_inf x : is_nan x = false -> fle x inf = true.
Proof.
  destruct x as [s|s| |s m e]; simpl; try discriminate; intros _;
    unfold fle, SFleb; simpl; destruct s; reflexivity.
Qed.

Lemma div_core_nonneg m1 e1 m2 e2 :
  0 < m1 -> 0 < m2 ->
  0 <= fst (fst (SFdiv_core_binary prec emax m1 e1 m2 e2)).
Proof.
  intros H1 H2. unfold SFdiv_core_binary.
  set (s := e1 - e2 - _).
  set (m' := match s with Z0 => m1 | Zpos _ => Z.shiftl m1 s | Zneg _ => 0 end).
  assert (Hm : 0 <= m').
  { unfold m'. destruct s; try lia. apply Z.shiftl_nonneg. lia. }
  pose proof (Z_div_mod m' m2 ltac:(lia)) as Hd.
  destruct (Z.div_eucl m' m2) as [q r]. simpl. nia.
Qed.

Lemma round_decimal_sign s m e : 0 <= m -> has_sign s (round_decimal s m e).
Proof.
  intros Hm. unfold round_decimal. destruct (0 <=? e) eqn:E.
  - apply Z.leb_le in E. unfold binary_normalize.
    assert (Hp : 0 <= m * 10 ^ e) by (apply Z.mul_nonneg_nonneg; [lia|apply Z.pow_nonneg; lia]).
    destruct (m * 10 ^ e) as [|p|p] eqn:Ep; try lia.
    + destruct s; reflexivity.
    + destruct s; simpl; apply binary_round_sign.
  - destruct m as [|p|p]; try lia; [reflexivity|].
    pose proof (div_core_nonneg (Z.abs (Zpos p)) 0 (10 ^ (- e)) 0) as Hq.
    destruct (SFdiv_core_binary prec emax (Z.abs (Zpos p)) 0 (10 ^ (- e)) 0) as [[q e'] l].
    apply binary_round_aux_sign. apply Hq; [simpl; lia|].
    apply Z.pow_pos_nonneg; [lia|]. apply Z.leb_gt in E. lia.
Qed.

Lemma fdiv_sign x m e :
  has_sign false x -> has_sign false (fdiv x (S754_finite false m e)).
Proof.
  unfold fdiv. destruct x as [s|s| |s mx ex]; simpl; try contradiction; intros ->;
    try reflexivity.
  pose proof (div_core_nonneg (Zpos mx) ex (Zpos m) e ltac:(lia) ltac:(lia)) as Hq.
  destruct (SFdiv_core_binary prec emax (Zpos mx) ex (Zpos m) e) as [[q e'] l].
  apply binary_round_aux_sign. exact Hq.
Qed.

Lemma fadd_sign x y :
  has_sign false x -> has_sign false y -> has_sign false (fadd x y).
Proof.
  unfold fadd.
  destruct x as [sx|sx| |sx mx ex], y as [sy|sy| |sy my ey]; simpl;
    try contradiction; intros -> ->; try reflexivity.
  unfold binary_normalize.
  destruct (shl_align mx ex (Z.min ex ey)) as [m1 e1].
  destruct (shl_align my ey (Z.min ex ey)) as [m2 e2]. simpl.
  apply binary_round_sign.
Qed.

Lemma has_sign_nonneg x : has_sign false x -> fle (of_Z 0) x = true.
Proof.
  change (of_Z 0) with (S754_zero false).
  destruct x as [s|s| |s m e]; simpl; try contradiction; intros ->; reflexivity.
Qed.

(** *** Small integers are floats *)

Lemma digits2_pos_bounds p :
  2 ^ (Zpos (digits2_pos p) - 1) <= Zpos p < 2 ^ Zpos (digits2_pos p).
Proof.
  induction p as [p IH|p IH|]; cbn [digits2_pos].
  - rewrite Pos2Z.inj_succ.
    replace (Z.succ (Zpos (digits2_pos p)) - 1) with (Z.succ (Zpos (digits2_pos p) - 1)) by lia.
    rewrite !Z.pow_succ_r by lia. lia.
  - rewrite Pos2Z.inj_succ.
    replace (Z.succ (Zpos (digits2_pos p)) - 1) with (Z.succ (Zpos (digits2_pos p) - 1)) by lia.
    rewrite !Z.pow_succ_r by lia. lia.
  - simpl. lia.
Qed.

Lemma digits2_pos_le_53 p : Zpos p < 2 ^ 53 -> Zpos (digits2_pos p) <= 53.
Proof.
  intros H. pose proof (digits2_pos_bounds p) as [Hlo _].
  destruct (Z_le_gt_dec (Zpos (digits2_pos p)) 53) as [|Hgt]; [assumption|].
  assert (2 ^ 53 <= 2 ^ (Zpos (digits2_pos p) - 1)) by (apply Z.pow_le_mono_r; lia).
  lia.
Qed.

Lemma iter_xO_digits p k :
  digits2_pos (Pos.iter xO p k) = (digits2_pos p + k)%positive.
Proof.
  induction k as [|k IH] using Pos.peano_ind.
  - simpl. lia.
  - rewrite Pos.iter_succ. cbn [digits2_pos]. rewrite IH. lia.
Qed.

Lemma iter_xO_value p k : Zpos (Pos.iter xO p k) = Zpos p * 2 ^ Zpos k.
Proof.
  induction k as [|k IH] using Pos.peano_ind.
  - simpl. lia.
  - rewrite Pos.iter_succ, Pos2Z.inj_xO, IH, Pos2Z.inj_succ, Z.pow_succ_r by lia. lia.
Qed.

Lemma fexp_eq x : fexp prec emax x = Z.max (x - 53) (-1074).
Proof. reflexivity. Qed.

(** A mantissa of exactly 53 bits with a small exponent is left as it is. *)
Lemma binary_round_aux_exact s m e :
  Zpos (digits2_pos m) = 53 -> -52 <= e <= 0 ->
  binary_round_aux prec emax s (Zpos m) e loc_Exact = S754_finite s m e.
Proof.
  intros Hd He.
  assert (Hshr : shr_fexp prec emax (Zpos m) e loc_Exact
                 = ({| shr_m := Zpos m; shr_r := false; shr_s := false |}, e)).
  { unfold shr_fexp. rewrite fexp_eq. cbn [Zdigits2 shr_record_of_loc].
    rewrite Hd. replace (Z.max (53 + e - 53) (-1074) - e) with 0 by lia.
    reflexivity. }
  unfold binary_round_aux. rewrite Hshr. cbn [shr_m loc_of_shr_record round_nearest_even].
  rewrite Hshr. cbn [shr_m].
  destruct (e <=? emax - prec) eqn:E; [reflexivity|].
  apply Z.leb_gt in E. unfold emax, prec in E. lia.
Qed.

Lemma of_Z_small_pos s p :
  Zpos p < 2 ^ 53 ->
  exists m e,
    binary_round prec emax s p 0 = S754_finite s m e /\
    -52 <= e <= 0 /\ Zpos m = Zpos p * 2 ^ (- e).
Proof.
  intros H. pose proof (digits2_pos_le_53 p H) as Hd.
  unfold binary_round, shl_align. rewrite fexp_eq.
  replace (Z.max (Zpos (digits2_pos p) + 0 - 53) (-1074) - 0)
    with (Zpos (digits2_pos p) - 53) by lia.
  replace (Z.max (Zpos (digits2_pos p) + 0 - 53) (-1074))
    with (Zpos (digits2_pos p) - 53) by lia.
  destruct (Zpos (digits2_pos p) - 53) as [|k|k] eqn:E; try lia.
  - exists p, 0. rewrite (binary_round_aux_exact s p 0) by lia.
    split; [reflexivity|]. split; [lia|]. simpl. lia.
  - exists (Pos.iter xO p k), (Zneg k).
    assert (Zpos k = 53 - Zpos (digits2_pos p)) by lia.
    rewrite binary_round_aux_exact.
    + split; [reflexivity|]. split; [lia|]. apply iter_xO_value.
    + rewrite iter_xO_digits. lia.
    + lia.
Qed.

Lemma finite_value s m e n :
  -52 <= e <= 0 -> Zpos m = Z.abs n * 2 ^ (- e) -> s = (n <? 0) -> n <> 0 ->
  exactly (S754_finite s m e) n.
Proof.
  intros He Hm -> Hn. unfold exactly, to_Q.
  destruct (0 <=? e) eqn:E.
  - apply Z.leb_le in E. assert (e = 0) by lia. subst e. simpl in *.
    destruct (n <? 0) eqn:S; [apply Z.ltb_lt in S|apply Z.ltb_ge in S];
      unfold Qeq, Qopp, inject_Z; simpl; lia.
  - assert (Hpow : 0 < 2 ^ (- e)) by (apply Z.pow_pos_nonneg; lia).
    destruct (n <? 0) eqn:S; [apply Z.ltb_lt in S|apply Z.ltb_ge in S];
      unfold Qeq, Qopp, inject_Z; simpl; rewrite Z2Pos.id by assumption; lia.
Qed.

Lemma of_Z_exact n :
  Z.abs n < 2 ^ 53 -> exactly (of_Z n) n /\ fits_float n = true.
Proof.
  intros H. unfold fits_float, of_Z, binary_normalize.
  destruct n as [|p|p].
  - split; reflexivity.
  - destruct (of_Z_small_pos false p H) as (m & e & -> & He & Hm).
    split; [|reflexivity]. apply finite_value; auto; lia.
  - destruct (of_Z_small_pos true p H) as (m & e & -> & He & Hm).
    split; [|reflexivity]. apply finite_value; auto; lia.
Qed.

(* ================================================================= *)
(** ** Proofs: text as a number *)

Open Scope N_scope.

(** *** [float] succeeds on the captured groups *)

Lemma ascii_digit_bounds c : is_ascii_digit c = true <-> 48 <= c <= 57.
Proof. unfold is_ascii_digit. rewrite andb_true_iff, !N.leb_le. tauto. Qed.

Lemma plain_cases c : plain c = true -> 48 <= c <= 57 \/ c = 46.
Proof.
  unfold plain. rewrite orb_true_iff, ascii_digit_bounds, N.eqb_eq. tauto.
Qed.

Lemma strip_underscores_plain l : forall prev,
  prev <> 95 -> forallb plain l = true -> strip_underscores prev l = Some l.
Proof.
  induction l as [|c l IH]; simpl; intros prev Hp Hl.
  - destruct (prev =? 95) eqn:E; [apply N.eqb_eq in E; contradiction|reflexivity].
  - apply andb_prop in Hl. destruct Hl as [Hc Hl].
    apply plain_cases in Hc.
    destruct (c =? 95) eqn:E; [apply N.eqb_eq in E; lia|].
    destruct (prev =? 95) eqn:E'; [apply N.eqb_eq in E'; contradiction|].
    simpl. rewrite IH; auto. apply N.eqb_neq in E. exact E.
Qed.

Lemma span_app p a rest :
  forallb p a = true ->
  match rest with [] => True | c :: _ => p c = false end ->
  span p (a ++ rest) = (a, rest).
Proof.
  intros Ha Hr. induction a as [|c a IH]; simpl.
  - destruct rest as [|c r]; [reflexivity|]. simpl. now rewrite Hr.
  - simpl in Ha. apply andb_prop in Ha. destruct Ha as [Hc Ha].
    rewrite Hc, IH; auto.
Qed.

Lemma span_all p a : forallb p a = true -> span p a = (a, []).
Proof.
  intros H. rewrite <- (app_nil_r a) at 1. now apply span_app.
Qed.

Lemma Py_ISSPACE_plain c : plain c = true -> Py_ISSPACE c = false.
Proof.
  intros H. apply plain_cases in H. unfold Py_ISSPACE.
  apply orb_false_iff. split.
  - apply andb_false_iff. rewrite !N.leb_gt. lia.
  - apply N.eqb_neq. lia.
Qed.

Lemma dropwhile_id p l :
  match l with [] => True | c :: _ => p c = false end -> dropwhile p l = l.
Proof. destruct l as [|c l]; simpl; [reflexivity|]. now intros ->. Qed.

Lemma forallb_rev (p : codepoint -> bool) l : forallb p (rev l) = forallb p l.
Proof.
  induction l as [|c l IH]; simpl; [reflexivity|].
  rewrite forallb_app, IH. simpl. rewrite andb_true_r. apply andb_comm.
Qed.

Lemma trim_plain l :
  forallb plain l = true ->
  rdropwhile Py_ISSPACE (dropwhile Py_ISSPACE l) = l.
Proof.
  intros H. rewrite dropwhile_id.
  - unfold rdropwhile. rewrite dropwhile_id; [apply rev_involutive|].
    rewrite <- forallb_rev in H. destruct (rev l) as [|c r]; [exact I|].
    simpl in H. apply andb_prop in H. now apply Py_ISSPACE_plain.
  - destruct l as [|c r]; [exact I|].
    simpl in H. apply andb_prop in H. now apply Py_ISSPACE_plain.
Qed.

Lemma parse_sign_plain t :
  forallb plain t = true -> parse_sign t = (false, t).
Proof.
  destruct t as [|c t]; [reflexivity|]. simpl. intros H.
  apply andb_prop in H. destruct H as [H _]. apply plain_cases in H.
  unfold parse_sign.
  destruct (c =? 45) eqn:E1; [apply N.eqb_eq in E1; lia|].
  destruct (c =? 43) eqn:E2; [apply N.eqb_eq in E2; lia|]. reflexivity.
Qed.

Lemma ascii_lower_plain c : plain c = true -> ascii_lower c = c.
Proof.
  intros H. apply plain_cases in H. unfold ascii_lower.
  destruct ((65 <=? c) && (c <=? 90)) eqn:E; [|reflexivity].
  rewrite andb_true_iff, !N.leb_le in E. lia.
Qed.

Lemma parse_inf_or_nan_plain t :
  forallb plain t = true -> parse_inf_or_nan t = None.
Proof.
  intros H. unfold parse_inf_or_nan. rewrite (parse_sign_plain _ H).
  assert (E : forall w, match w with c :: _ => plain c = false | [] => True end ->
                        w <> [] -> str_eqb (map ascii_lower t) w = false).
  { intros w Hw Hne. destruct (str_eqb (map ascii_lower t) w) eqn:E; [|reflexivity].
    apply str_eqb_eq in E. subst w.
    destruct t as [|c t]; [now elim Hne|]. simpl in *.
    apply andb_prop in H. destruct H as [Hc _].
    rewrite (ascii_lower_plain _ Hc) in Hw. congruence. }
  rewrite !E; try reflexivity; try discriminate.
Qed.

Lemma forallb_weaken (p q : codepoint -> bool) l :
  (forall c, p c = true -> q c = true) -> forallb p l = true -> forallb q l = true.
Proof.
  intros Hpq. induction l as [|c l IH]; simpl; [auto|].
  rewrite !andb_true_iff. intros [? ?]. auto.
Qed.

Lemma digit_plain c : is_ascii_digit c = true -> plain c = true.
Proof. unfold plain. now intros ->. Qed.

(** A run of ASCII digits, optionally followed by a point and more digits
    (at least one digit in all), is a decimal literal. *)
Lemma parse_decimal_number a f :
  forallb is_ascii_digit a = true ->
  (f = [] \/ exists b, f = 46 :: b /\ forallb is_ascii_digit b = true) ->
  a ++ f <> [] ->
  (f = [] \/ f <> [46]) ->
  exists m e, parse_decimal (a ++ f) = Some (false, m, e).
Proof.
  intros Ha Hf Hne Hf'.
  assert (Hpl : forallb plain (a ++ f) = true).
  { rewrite forallb_app. apply andb_true_iff. split.
    - eapply forallb_weaken; [apply digit_plain|exact Ha].
    - destruct Hf as [->|(b & -> & Hb)]; [reflexivity|]. simpl.
      eapply forallb_weaken; [apply digit_plain|exact Hb]. }
  unfold parse_decimal. rewrite (parse_sign_plain _ Hpl).
  destruct Hf as [->|(b & -> & Hb)].
  - rewrite app_nil_r in *. rewrite (span_all _ _ Ha). rewrite app_nil_r.
    destruct a as [|c a]; [now elim Hne|]. eauto.
  - rewrite (span_app _ _ (46 :: b) Ha); [|reflexivity].
    rewrite (span_all _ _ Hb). rewrite N.eqb_refl.
    destruct (a ++ b) as [|c r] eqn:E; [|eauto].
    apply app_eq_nil in E. destruct E as [-> ->]. destruct Hf' as [?|?]; [discriminate|].
    now elim H.
Qed.

Lemma parse_float_number a f :
  forallb isdecimal a = true ->
  (f = [] \/ fraction f) ->
  a ++ f <> [] ->
  exists x, parse_float (a ++ f) = Some x.
Proof.
  intros Ha Hf Hne.
  set (a' := map to_ascii a). set (f' := map to_ascii f).
  assert (Ha' : forallb is_ascii_digit a' = true) by now apply digits_to_ascii.
  assert (Hf' : f' = [] \/ exists b, f' = 46 :: b /\ forallb is_ascii_digit b = true).
  { destruct Hf as [->|(b & [Hb1 Hb2] & ->)]; [now left|right].
    exists (map to_ascii b). split; [reflexivity|]. now apply digits_to_ascii. }
  assert (Hf'' : f' = [] \/ f' <> [46]).
  { destruct Hf as [->|(b & [Hb1 Hb2] & ->)]; [now left|right].
    unfold f'. simpl. destruct b; [now elim Hb1|discriminate]. }
  assert (Hne' : a' ++ f' <> []).
  { unfold a', f'. rewrite <- map_app. destruct (a ++ f); [now elim Hne|discriminate]. }
  assert (Hpl : forallb plain (a' ++ f') = true).
  { rewrite forallb_app. apply andb_true_iff. split.
    - eapply forallb_weaken; [apply digit_plain|exact Ha'].
    - destruct Hf' as [->|(b & -> & Hb)]; [reflexivity|]. simpl.
      eapply forallb_weaken; [apply digit_plain|exact Hb]. }
  unfold parse_float. rewrite map_app. fold a' f'.
  rewrite strip_underscores_plain; [|lia|exact Hpl].
  rewrite trim_plain by exact Hpl.
  rewrite parse_inf_or_nan_plain by exact Hpl.
  destruct (parse_decimal_number a' f' Ha' Hf' Hne' Hf'') as (m & e & ->). eauto.
Qed.

Lemma float_of_digits g : digits g -> returns (float_of_str g).
Proof.
  intros [Hne Hd]. destruct (parse_float_number g [] Hd) as (x & Hx); auto.
  - now rewrite app_nil_r.
  - rewrite app_nil_r in Hx. exists x. unfold float_of_str. now rewrite Hx.
Qed.

Lemma float_of_decimal_number g : decimal_number g -> returns (float_of_str g).
Proof.
  intros (a & f & -> & [Hne Hd] & Hf).
  destruct (parse_float_number a f Hd Hf) as (x & Hx).
  - destruct a; [now elim Hne|discriminate].
  - exists x. unfold float_of_str. now rewrite Hx.
Qed.

Lemma seconds_of_seconds_text g :
  seconds_text g -> returns (seconds_of_group (Some g)).
Proof.
  intros (a & f & -> & Hd & Hf). unfold seconds_of_group.
  destruct (a ++ f) as [|c r] eqn:E; [eexists; reflexivity|].
  destruct (parse_float_number a f Hd Hf) as (x & Hx).
  - rewrite E. discriminate.
  - rewrite E in Hx. exists x. change (float_of_str (c :: r) = Ok x).
    unfold float_of_str. now rewrite Hx.
Qed.

(** *** The text that [float] accepts *)

Lemma span_inv p s a b :
  span p s = (a, b) -> s = a ++ b /\ forallb p a = true.
Proof.
  revert a b. induction s as [|c s IH]; simpl; intros a b.
  - intros [= <- <-]. auto.
  - destruct (p c) eqn:E.
    + destruct (span p s) as [a' b'] eqn:E'. intros [= <- <-].
      destruct (IH _ _ eq_refl) as [-> H]. simpl. rewrite E. auto.
    + intros [= <- <-]. auto.
Qed.

Lemma parse_sign_inv s neg r :
  parse_sign s = (neg, r) ->
  s = r \/ exists c, s = c :: r /\ (c = 45 \/ c = 43).
Proof.
  unfold parse_sign. destruct s as [|c s]; [intros [= <- <-]; auto|].
  destruct (c =? 45) eqn:E1.
  - apply N.eqb_eq in E1. intros [= <- <-]. right. eauto.
  - destruct (c =? 43) eqn:E2.
    + apply N.eqb_eq in E2. intros [= <- <-]. right. eauto.
    + intros [= <- <-]. auto.
Qed.

Lemma ok_digit c : is_ascii_digit c = true -> ok_char c = true.
Proof. unfold ok_char. now intros ->. Qed.

Lemma ok_digits l : forallb is_ascii_digit l = true -> forallb ok_char l = true.
Proof. apply forallb_weaken, ok_digit. Qed.

Lemma ok_signed s neg r :
  parse_sign s = (neg, r) -> forallb ok_char r = true -> forallb ok_char s = true.
Proof.
  intros H Hr. apply parse_sign_inv in H.
  destruct H as [->|(c & -> & [->| ->])]; simpl; auto.
Qed.

Lemma parse_decimal_ok t r : parse_decimal t = Some r -> forallb ok_char t = true.
Proof.
  unfold parse_decimal.
  destruct (parse_sign t) as [neg s1] eqn:Es. intros H.
  apply (ok_signed _ _ _ Es). clear Es.
  destruct (span is_ascii_digit s1) as [ip s2] eqn:E1.
  apply span_inv in E1. destruct E1 as [-> Hip].
  rewrite forallb_app, (ok_digits _ Hip). simpl.
  assert (Hexp : forall fp s3,
    match ip ++ fp with
    | [] => None
    | ds =>
      match s3 with
      | [] => Some (neg, digits_value ds, (- Z.of_nat (List.length fp))%Z)
      | c :: r0 =>
        if (c =? 101) || (c =? 69) then
          let '(eneg, r1) := parse_sign r0 in
          let '(ed, r2) := span is_ascii_digit r1 in
          match ed, r2 with
          | _ :: _, [] =>
            Some (neg, digits_value ds,
                  ((if eneg then - digits_value ed else digits_value ed)
                   - Z.of_nat (List.length fp))%Z)
          | _, _ => None
          end
        else None
      end
    end = Some r -> forallb ok_char s3 = true).
  { intros fp s3 H3. destruct (ip ++ fp); [discriminate|].
    destruct s3 as [|x r0]; [reflexivity|].
    destruct ((x =? 101) || (x =? 69)) eqn:Ec; [|discriminate].
    destruct (parse_sign r0) as [eneg r1] eqn:Es.
    destruct (span is_ascii_digit r1) as [ed r2] eqn:E2.
    apply span_inv in E2. destruct E2 as [-> Hed].
    destruct ed; [discriminate|]. destruct r2; [|discriminate].
    simpl. apply andb_true_iff. split.
    - apply orb_prop in Ec. unfold ok_char, is_ascii_letter.
      destruct Ec as [Ec|Ec]; apply N.eqb_eq in Ec; subst x; reflexivity.
    - apply (ok_signed _ _ _ Es). rewrite app_nil_r. now apply ok_digits. }
  destruct s2 as [|c r0]; [reflexivity|].
  destruct (c =? 46) eqn:Ec.
  - apply N.eqb_eq in Ec. subst c.
    destruct (span is_ascii_digit r0) as [fp s3] eqn:E2.
    apply Hexp in H. apply span_inv in E2. destruct E2 as [-> Hfp].
    simpl. rewrite forallb_app, (ok_digits _ Hfp), H. reflexivity.
  - apply (Hexp [] (c :: r0)). exact H.
Qed.

Lemma ascii_lower_letter c :
  ((97 <=? ascii_lower c) && (ascii_lower c <=? 122)) = true -> ok_char c = true.
Proof.
  unfold ascii_lower, ok_char, is_ascii_letter.
  destruct ((65 <=? c) && (c <=? 90)) eqn:E.
  - intros _. destruct (is_ascii_digit c); reflexivity.
  - intros ->. destruct (is_ascii_digit c); reflexivity.
Qed.

Lemma lower_word_ok r w :
  map ascii_lower r = w ->
  forallb (fun c => (97 <=? c) && (c <=? 122)) w = true ->
  forallb ok_char r = true.
Proof.
  intros <-. induction r as [|c r IH]; simpl; [reflexivity|].
  rewrite !andb_true_iff. intros [[H1 H2] Hr]. split; [|auto].
  apply ascii_lower_letter. now rewrite H1, H2.
Qed.

Lemma parse_inf_or_nan_ok t f :
  parse_inf_or_nan t = Some f -> forallb ok_char t = true.
Proof.
  unfold parse_inf_or_nan. destruct (parse_sign t) as [neg r] eqn:Es.
  intros H. apply (ok_signed _ _ _ Es). clear Es.
  destruct (str_eqb (map ascii_lower r) (lit "inf")) eqn:E1.
  { apply str_eqb_eq in E1. now apply (lower_word_ok _ _ E1). }
  destruct (str_eqb (map ascii_lower r) (lit "infinity")) eqn:E2.
  { apply str_eqb_eq in E2. now apply (lower_word_ok _ _ E2). }
  simpl in H.
  destruct (str_eqb (map ascii_lower r) (lit "nan")) eqn:E3; [|discriminate].
  apply str_eqb_eq in E3. now apply (lower_word_ok _ _ E3).
Qed.

Lemma strip_underscores_filter s : forall prev u,
  strip_underscores prev s = Some u ->
  u = filter (fun c => negb (c =? 95)) s.
Proof.
  induction s as [|c s IH]; simpl; intros prev u.
  - destruct (prev =? 95); [discriminate|]. now intros [= <-].
  - destruct (c =? 95) eqn:E; simpl.
    + destruct (is_ascii_digit prev); [|discriminate]. apply IH.
    + destruct ((prev =? 95) && negb (is_ascii_digit c)); [discriminate|].
      destruct (strip_underscores c s) as [u'|] eqn:E'; [|discriminate].
      simpl. intros [= <-]. f_equal. now apply IH with c.
Qed.

Lemma dropwhile_stop p X d R :
  p d = false -> exists X', dropwhile p (X ++ d :: R) = X' ++ d :: R.
Proof.
  intros Hd. induction X as [|c X IH]; simpl.
  - rewrite Hd. now exists [].
  - destruct (p c); [exact IH|]. now exists (c :: X).
Qed.

Lemma rdropwhile_stop p L d Z :
  p d = false -> exists Z', rdropwhile p (L ++ d :: Z) = L ++ d :: Z'.
Proof.
  intros Hd. unfold rdropwhile.
  rewrite rev_app_distr. simpl. rewrite <- app_assoc. simpl.
  destruct (dropwhile_stop p (rev Z) d (rev L) Hd) as (Z' & ->).
  exists (rev Z'). rewrite rev_app_distr. simpl. rewrite rev_involutive.
  now rewrite <- app_assoc.
Qed.

(** Trimming keeps everything from the first to the last character that is
    not white space. *)
Lemma trim_between p X d1 Y d2 Z :
  p d1 = false -> p d2 = false ->
  exists X' Z',
    rdropwhile p (dropwhile p (X ++ d1 :: Y ++ d2 :: Z)) = X' ++ d1 :: Y ++ d2 :: Z'.
Proof.
  intros H1 H2.
  destruct (dropwhile_stop p X d1 (Y ++ d2 :: Z) H1) as (X' & ->).
  replace (X' ++ d1 :: Y ++ d2 :: Z) with ((X' ++ d1 :: Y) ++ d2 :: Z)
    by (rewrite <- app_assoc; reflexivity).
  destruct (rdropwhile_stop p (X' ++ d1 :: Y) d2 Z H2) as (Z' & ->).
  exists X', Z'. rewrite <- app_assoc. reflexivity.
Qed.

Lemma trim_keeps p y l :
  In y l -> p y = false -> In y (rdropwhile p (dropwhile p l)).
Proof.
  intros Hin Hy. apply in_split in Hin. destruct Hin as (X & Z & ->).
  destruct (dropwhile_stop p X y Z Hy) as (X' & ->).
  destruct (rdropwhile_stop p X' y Z Hy) as (Z' & ->).
  apply in_or_app. right. now left.
Qed.

(** The characters of a text that [float] accepts, once brought to ASCII,
    trimmed and freed of underscores. *)
Lemma parse_float_trimmed s f :
  parse_float s = Some f ->
  forallb ok_char
    (rdropwhile Py_ISSPACE
       (dropwhile Py_ISSPACE (filter (fun c => negb (c =? 95)) (map to_ascii s))))
  = true.
Proof.
  unfold parse_float.
  destruct (strip_underscores 0 (map to_ascii s)) as [u|] eqn:Eu; [|discriminate].
  apply strip_underscores_filter in Eu. subst u.
  set (t := rdropwhile _ _).
  destruct (parse_inf_or_nan t) as [x|] eqn:E1.
  - intros _. eapply parse_inf_or_nan_ok; eauto.
  - destruct (parse_decimal t) as [r|] eqn:E2; [|discriminate].
    intros _. eapply parse_decimal_ok; eauto.
Qed.

Lemma parse_float_char s f c :
  parse_float s = Some f -> In c s ->
  to_ascii c <> 95 -> Py_ISSPACE (to_ascii c) = false ->
  ok_char (to_ascii c) = true.
Proof.
  intros H Hin H95 Hsp. apply parse_float_trimmed in H.
  rewrite forallb_forall in H. apply H.
  apply trim_keeps; [|assumption].
  apply filter_In. split; [now apply in_map|].
  apply negb_true_iff. now apply N.eqb_neq.
Qed.

Lemma isspace_small c : c < 127 -> isspace c = true -> (9 <= c <= 13) \/ (28 <= c <= 32).
Proof.
  intros Hc. unfold isspace, in_ranges, space_ranges, in_range. simpl.
  rewrite !orb_true_iff, !andb_true_iff, !N.leb_le. lia.
Qed.

Lemma sep_to_ascii x :
  degree_or_space x = true -> ok_char (to_ascii x) = false /\ to_ascii x <> 95.
Proof.
  unfold degree_or_space. intros H.
  assert (Hbad : forall y, (9 <= y <= 13) \/ (28 <= y <= 32) \/ y = 63 ->
                           ok_char y = false /\ y <> 95).
  { intros y Hy. split; [|lia].
    unfold ok_char, is_ascii_digit, is_ascii_letter.
    repeat (apply orb_false_iff; split);
      try (apply andb_false_iff; rewrite !N.leb_gt; lia);
      apply N.eqb_neq; lia. }
  apply Hbad. unfold to_ascii. destruct (x <? 127) eqn:L.
  - apply N.ltb_lt in L. apply orb_prop in H. destruct H as [H|H].
    + apply N.eqb_eq in H. lia.
    + destruct (isspace_small _ L H); lia.
  - destruct (isspace x) eqn:S; [lia|].
    rewrite orb_false_r in H. apply N.eqb_eq in H. subst x.
    vm_compute. auto.
Qed.

Lemma digit_kept d :
  isdecimal d = true ->
  negb (to_ascii d =? 95) = true /\ Py_ISSPACE (to_ascii d) = false.
Proof.
  intros H. apply isdecimal_to_ascii in H. split.
  - apply negb_true_iff, N.eqb_neq. apply ascii_digit_bounds in H. lia.
  - apply Py_ISSPACE_plain, digit_plain, H.
Qed.

(** A text that [float] accepts has no degree sign or white space between
    two of its digits. *)
Lemma float_no_separator s f X d1 Y x Y' d2 Z :
  parse_float s = Some f ->
  s = X ++ d1 :: (Y ++ x :: Y') ++ d2 :: Z ->
  isdecimal d1 = true -> isdecimal d2 = true -> degree_or_space x = true ->
  False.
Proof.
  intros H -> H1 H2 Hx. apply parse_float_trimmed in H.
  destruct (digit_kept _ H1) as [K1 S1]. destruct (digit_kept _ H2) as [K2 S2].
  destruct (sep_to_ascii _ Hx) as [Hok H95].
  rewrite map_app in H. simpl in H. rewrite map_app in H. simpl in H.
  rewrite filter_app in H. simpl in H. rewrite K1 in H.
  rewrite filter_app in H. simpl in H. rewrite K2 in H.
  match type of H with
  | forallb _ (rdropwhile _ (dropwhile _ (?a ++ ?b :: ?c ++ ?d :: ?e))) = _ =>
    destruct (trim_between Py_ISSPACE a b c d e S1 S2) as (X' & Z' & E)
  end.
  rewrite E in H. rewrite forallb_forall in H.
  assert (Hin : In (to_ascii x) (filter (fun c => negb (c =? 95))
                                        (map to_ascii (Y ++ x :: Y')))).
  { apply filter_In. split.
    - apply in_map, in_or_app. right. now left.
    - apply negb_true_iff. now apply N.eqb_neq. }
  rewrite H in Hok; [discriminate|].
  apply in_or_app. right. right. apply in_or_app. now left.
Qed.

Lemma dropwhile_suffix p l : exists w, l = w ++ dropwhile p l.
Proof.
  induction l as [|c l [w IH]]; simpl.
  - now exists [].
  - destruct (p c).
    + exists (c :: w). simpl. now f_equal.
    + now exists [].
Qed.

Lemma rdropwhile_prefix p l : exists w, l = rdropwhile p l ++ w.
Proof.
  unfold rdropwhile. destruct (dropwhile_suffix p (rev l)) as [w E].
  exists (rev w). rewrite <- rev_app_distr, <- E. symmetry. apply rev_involutive.
Qed.

Lemma str_strip_inside s : exists w1 w2, s = w1 ++ str_strip s ++ w2.
Proof.
  unfold str_strip. destruct (dropwhile_suffix isspace s) as [w1 E1].
  destruct (rdropwhile_prefix isspace (dropwhile isspace s)) as [w2 E2].
  exists w1, w2. now rewrite <- E2.
Qed.

Lemma float_text_no_dms s f :
  parse_float s = Some f -> re_match dms_pattern (str_strip s) = None.
Proof.
  intros H. destruct (re_match dms_pattern (str_strip s)) as [m|] eqn:E; [|reflexivity].
  exfalso. apply dms_match_inv in E.
  destruct E as (g1 & g2 & g3 & x & tl & r & _ & _ & _ & Hg1 & Hg2 & _ & E & Hx).
  destruct Hg1 as [Hne1 Hd1]. destruct g1 as [|d1 g1]; [now elim Hne1|].
  destruct Hg2 as (a & fr & -> & [Hne2 Hd2] & _).
  destruct a as [|d2 a]; [now elim Hne2|].
  simpl in Hd1, Hd2. apply andb_prop in Hd1, Hd2.
  destruct (str_strip_inside s) as (w1 & w2 & Es). rewrite E in Es.
  apply (float_no_separator s f w1 d1 g1 x tl d2 (a ++ fr ++ r ++ w2)); try tauto.
  rewrite Es. repeat (rewrite <- ?app_assoc, <- ?app_comm_cons; simpl). reflexivity.
Qed.

(** *** The [replace] calls leave such text alone *)

Lemma starts_with_head old s c o :
  old = o :: c -> ~ In o s -> starts_with old s = false.
Proof.
  intros -> Hin. destruct s as [|b s]; [reflexivity|]. simpl.
  destruct (o =? b) eqn:E; [|reflexivity].
  apply N.eqb_eq in E. subst b. elim Hin. now left.
Qed.

Lemma replace_from_absent o old new s :
  ~ In o s -> replace_from (o :: old) new 0 s = s.
Proof.
  induction s as [|c s IH]; [reflexivity|]. intros Hin.
  cbn [replace_from].
  rewrite (starts_with_head (o :: old) (c :: s) old o eq_refl Hin).
  f_equal. apply IH. intros H. apply Hin. now right.
Qed.

Lemma replace_same c s : str_replace [c] [c] s = s.
Proof.
  unfold str_replace. induction s as [|x s IH]; [reflexivity|].
  cbn [replace_from starts_with]. destruct (c =? x) eqn:E.
  - apply N.eqb_eq in E. subst x. simpl. f_equal. exact IH.
  - simpl. f_equal. exact IH.
Qed.

Lemma normalize_marks_absent s :
  ~ In 34 s -> ~ In 0x2033 s -> normalize_marks s = s.
Proof.
  intros H1 H2. unfold normalize_marks. rewrite replace_same.
  change (str_replace [0x2033] [34] s) with (replace_from [0x2033] [34] 0 s).
  rewrite replace_from_absent by exact H2.
  unfold str_replace, fused_literal. now apply replace_from_absent.
Qed.

Lemma float_text_marks s f : parse_float s = Some f -> normalize_marks s = s.
Proof.
  intros H. apply normalize_marks_absent; intros Hin;
    pose proof (parse_float_char s f _ H Hin) as K; vm_compute in K;
    specialize (K ltac:(discriminate) eq_refl); discriminate.
Qed.

Open Scope Z_scope.

(** *** The groups of a match are not negative *)

Lemma digits_value_nonneg ds : forall acc,
  0 <= acc -> forallb is_ascii_digit ds = true ->
  0 <= fold_left (fun a c => a * 10 + (Z.of_N c - 48)) ds acc.
Proof.
  induction ds as [|c ds IH]; simpl; intros acc Ha Hd; [exact Ha|].
  apply andb_prop in Hd. destruct Hd as [Hc Hd]. apply IH; [|exact Hd].
  apply ascii_digit_bounds in Hc. lia.
Qed.

Lemma parse_decimal_nonneg t neg m e :
  parse_decimal t = Some (neg, m, e) -> 0 <= m.
Proof.
  unfold parse_decimal.
  destruct (parse_sign t) as [sg s1].
  destruct (span is_ascii_digit s1) as [ip s2] eqn:E1.
  apply span_inv in E1. destruct E1 as [-> Hip].
  assert (Hfp : forall fp s3, forallb is_ascii_digit fp = true ->
    match ip ++ fp with
    | [] => None
    | ds =>
      match s3 with
      | [] => Some (sg, digits_value ds, (- Z.of_nat (List.length fp))%Z)
      | c :: r0 =>
        if ((c =? 101) || (c =? 69))%N then
          let '(eneg, r1) := parse_sign r0 in
          let '(ed, r2) := span is_ascii_digit r1 in
          match ed, r2 with
          | _ :: _, [] =>
            Some (sg, digits_value ds,
                  ((if eneg then - digits_value ed else digits_value ed)
                   - Z.of_nat (List.length fp))%Z)
          | _, _ => None
          end
        else None
      end
    end = Some (neg, m, e) -> 0 <= m).
  { intros fp s3 Hd H.
    assert (Hv : 0 <= digits_value (ip ++ fp)).
    { apply digits_value_nonneg; [lia|]. rewrite forallb_app, Hip, Hd. reflexivity. }
    destruct (ip ++ fp) as [|c0 l0]; [discriminate|].
    destruct s3 as [|x r0]; [injection H as _ <- _; exact Hv|].
    destruct ((x =? 101) || (x =? 69))%N; [|discriminate].
    destruct (parse_sign r0) as [eneg r1].
    destruct (span is_ascii_digit r1) as [ed r2].
    destruct ed; [discriminate|]. destruct r2; [|discriminate].
    injection H as _ <- _. exact Hv. }
  destruct s2 as [|c r0]; [apply (Hfp [] []); reflexivity|].
  destruct (c =? 46)%N.
  - destruct (span is_ascii_digit r0) as [fp s3] eqn:E2.
    apply span_inv in E2. destruct E2 as [_ Hd]. now apply Hfp.
  - apply (Hfp [] (c :: r0)). reflexivity.
Qed.

Lemma parse_float_number_sign a f x :
  forallb isdecimal a = true ->
  (f = [] \/ fraction f) ->
  parse_float (a ++ f) = Some x -> has_sign false x.
Proof.
  intros Ha Hf.
  set (a' := map to_ascii a). set (f' := map to_ascii f).
  assert (Ha' : forallb is_ascii_digit a' = true) by now apply digits_to_ascii.
  assert (Hpl : forallb plain (a' ++ f') = true).
  { rewrite forallb_app. apply andb_true_iff. split.
    - eapply forallb_weaken; [apply digit_plain|exact Ha'].
    - destruct Hf as [->|(b & [Hb1 Hb2] & ->)]; [reflexivity|].
      unfold f'. simpl. eapply forallb_weaken; [apply digit_plain|].
      now apply digits_to_ascii. }
  unfold parse_float. rewrite map_app. fold a' f'.
  rewrite strip_underscores_plain; [|lia|exact Hpl].
  rewrite trim_plain by exact Hpl.
  rewrite parse_inf_or_nan_plain by exact Hpl.
  destruct (parse_decimal (a' ++ f')) as [[[neg m] e]|] eqn:E; [|discriminate].
  intros [= <-].
  pose proof (parse_decimal_nonneg _ _ _ _ E) as Hm.
  assert (neg = false).
  { unfold parse_decimal in E. rewrite (parse_sign_plain _ Hpl) in E.
    destruct (span is_ascii_digit (a' ++ f')) as [ip s2].
    destruct (match s2 with
              | [] => ([], s2)
              | c :: r => if (c =? 46)%N then span is_ascii_digit r else ([], s2)
              end) as [fp s3].
    destruct (ip ++ fp); [discriminate|].
    destruct s3 as [|y r]; [now injection E|].
    destruct ((y =? 101) || (y =? 69))%N; [|discriminate].
    destruct (parse_sign r) as [eneg r1]. destruct (span is_ascii_digit r1) as [ed r2].
    destruct ed; [discriminate|]. destruct r2; [|discriminate]. now injection E. }
  subst neg. now apply round_decimal_sign.
Qed.

(* ================================================================= *)
(** ** Proofs: coordinates *)

Lemma float_of_int_fits n : fits_float n = true -> float_of_int n = Ok (of_Z n).
Proof.
  unfold fits_float, float_of_int. destruct (of_Z n); auto; discriminate.
Qed.

Lemma dms_matched s m :
  re_match dms_pattern (str_strip (normalize_marks s)) = Some m ->
  exists deg min_ sec,
    float_of_group (m 1%nat) = Ok deg /\
    float_of_group (m 2%nat) = Ok min_ /\
    seconds_of_group (m 3%nat) = Ok sec /\
    (m 3%nat = Some [] -> sec = S754_zero false) /\
    dms_to_decimal (VStr s)
    = Ok (fadd (fadd deg (fdiv min_ sixty)) (fdiv sec thirty_six_hundred)).
Proof.
  intros H. pose proof (dms_match_inv _ _ H) as
    (g1 & g2 & g3 & x & tl & r & E1 & E2 & E3 & Hg1 & Hg2 & Hg3 & _).
  destruct (float_of_digits _ Hg1) as [deg Hdeg].
  destruct (float_of_decimal_number _ Hg2) as [min_ Hmin].
  destruct (seconds_of_seconds_text _ Hg3) as [sec Hsec].
  exists deg, min_, sec. unfold dms_to_decimal. rewrite H, E1, E2, E3.
  cbn [float_of_group]. rewrite Hdeg, Hmin, Hsec. cbn [bind].
  repeat split; auto.
  intros [= ->]. simpl in Hsec. congruence.
Qed.

Lemma dms_to_decimal_text_returns s : returns (dms_to_decimal (VStr s)).
Proof.
  destruct (re_match dms_pattern (str_strip (normalize_marks s))) as [m|] eqn:E.
  - destruct (dms_matched _ _ E) as (deg & min_ & sec & _ & _ & _ & _ & ->).
    eexists; reflexivity.
  - unfold dms_to_decimal. rewrite E.
    destruct (float_of_str (normalize_marks s)); eexists; reflexivity.
Qed.

Lemma dms_matches_inv s :
  dms_matches s = true ->
  exists m, re_match dms_pattern (str_strip (normalize_marks s)) = Some m.
Proof.
  unfold dms_matches.
  destruct (re_match dms_pattern (str_strip (normalize_marks s))) as [m|];
    [eauto|discriminate].
Qed.

Lemma dms_text_nonneg s x :
  dms_matches s = true ->
  dms_to_decimal (VStr s) = Ok x ->
  fle (of_Z 0) x = true.
Proof.
  intros Hm Hx. apply dms_matches_inv in Hm. destruct Hm as [m Hm].
  pose proof (dms_match_inv _ _ Hm) as
    (g1 & g2 & g3 & c & tl & r & E1 & E2 & E3 & Hg1 & Hg2 & Hg3 & _).
  unfold dms_to_decimal in Hx. rewrite Hm, E1, E2, E3 in Hx.
  cbn [float_of_group] in Hx. unfold float_of_str in Hx.
  destruct (parse_float g1) as [deg|] eqn:P1; [|discriminate].
  destruct (parse_float g2) as [min_|] eqn:P2; [|discriminate].
  cbn [bind] in Hx.
  assert (S1 : has_sign false deg).
  { destruct Hg1 as [_ Hd]. apply (parse_float_number_sign g1 [] deg Hd); auto.
    now rewrite app_nil_r. }
  assert (S2 : has_sign false min_).
  { destruct Hg2 as (a & f & -> & [_ Hd] & Hf).
    now apply (parse_float_number_sign a f min_ Hd Hf). }
  assert (S3 : forall sec, seconds_of_group (Some g3) = Ok sec -> has_sign false sec).
  { intros sec. unfold seconds_of_group, float_of_str.
    destruct Hg3 as (a & f & -> & Hd & Hf).
    destruct (a ++ f) as [|c0 l0] eqn:E; [intros [= <-]; reflexivity|].
    rewrite <- E. destruct (parse_float (a ++ f)) as [v|] eqn:P3; [|discriminate].
    intros [= <-]. now apply (parse_float_number_sign a f v Hd Hf). }
  destruct (seconds_of_group (Some g3)) as [sec|] eqn:P3; [|discriminate].
  cbn [bind] in Hx. injection Hx as <-.
  apply has_sign_nonneg, fadd_sign; [apply fadd_sign; [exact S1|]|].
  - apply fdiv_sign. exact S2.
  - apply fdiv_sign. now apply S3.
Qed.

Lemma decimal_text_unchanged s f :
  float_of_str s = Ok f -> dms_to_decimal (VStr s) = Ok f.
Proof.
  unfold float_of_str. destruct (parse_float s) as [x|] eqn:E; [|discriminate].
  intros [= ->]. unfold dms_to_decimal.
  rewrite (float_text_marks _ _ E), (float_text_no_dms _ _ E).
  unfold float_of_str. now rewrite E.
Qed.

(** *** The groups of a match *)

Section Greedy.
Variable A : Type.
Implicit Types (k : pystr -> captures -> option A) (s : pystr) (c : captures).

(** When what follows accepts the text left by the longest run, the star
    takes the longest run. *)
Lemma run_Star_span p k s c v :
  k (snd (span p s)) c = Some v -> run (Star p) k s c = Some v.
Proof.
  induction s as [|x s IH]; simpl; [auto|].
  destruct (p x) eqn:E; [|auto].
  change ((fix loop (t : pystr) : option A :=
             match t with
             | [] => k t c
             | x0 :: t' =>
               if p x0
               then match loop t' with Some v0 => Some v0 | None => k t c end
               else k t c
             end) s) with (run (Star p) k s c).
  destruct (span p s) as [a b]. simpl in *. intros H. now rewrite (IH H).
Qed.

Lemma run_Chr_cons p k x s c :
  run (Chr p) k (x :: s) c = if p x then k s c else None.
Proof. reflexivity. Qed.

Lemma run_Plus_span p k x s c v :
  p x = true -> k (snd (span p s)) c = Some v -> run (Plus p) k (x :: s) c = Some v.
Proof.
  intros Hx H. change (run (Chr p) (run (Star p) k) (x :: s) c = Some v).
  rewrite run_Chr_cons, Hx. now apply run_Star_span.
Qed.

Lemma run_fraction_none k s c :
  match s with
  | x :: y :: _ => dot x && isdecimal y = false
  | _ => True
  end ->
  run (Seq (Chr dot) (Plus isdecimal)) k s c = None.
Proof.
  change (run (Seq (Chr dot) (Plus isdecimal)) k s c)
    with (run (Chr dot) (run (Chr isdecimal) (run (Star isdecimal) k)) s c).
  destruct s as [|x [|y s]]; simpl; [reflexivity| |].
  - destruct (dot x); reflexivity.
  - destruct (dot x); [|reflexivity]. simpl. now intros ->.
Qed.

Lemma run_Opt_eq a k s c :
  run (Opt a) k s c
  = match run a k s c with Some v => Some v | None => k s c end.
Proof. reflexivity. Qed.

(** The piece for a number takes what [take_number] takes. *)
Lemma run_number k s c v :
  k (snd (take_number s)) c = Some v ->
  run (Seq (Star isdecimal) (Opt (Seq (Chr dot) (Plus isdecimal)))) k s c = Some v.
Proof.
  intros H.
  change (run (Star isdecimal) (run (Opt (Seq (Chr dot) (Plus isdecimal))) k) s c = Some v).
  apply run_Star_span. unfold take_number in H.
  destruct (span isdecimal s) as [a r]. cbn [snd].
  rewrite run_Opt_eq.
  destruct r as [|x r'].
  - cbn [snd] in H. rewrite run_fraction_none by exact I. exact H.
  - destruct (dot x) eqn:Ex.
    + destruct (span isdecimal r') as [[|y b] r''] eqn:Es.
      * cbn [snd] in H. rewrite run_fraction_none; [exact H|].
        destruct r' as [|y r']; [exact I|]. rewrite Ex. simpl in Es.
        destruct (isdecimal y); [|reflexivity].
        destruct (span isdecimal r'); discriminate.
      * cbn [snd] in H.
        assert (E : run (Seq (Chr dot) (Plus isdecimal)) k (x :: r') c = Some v).
        { change (run (Chr dot) (run (Plus isdecimal) k) (x :: r') c = Some v).
          rewrite run_Chr_cons, Ex.
          destruct r' as [|y' r']; [discriminate|]. simpl in Es.
          destruct (isdecimal y') eqn:Ey; [|discriminate].
          apply run_Plus_span; [exact Ey|].
          destruct (span isdecimal r') as [b' r3]. injection Es as _ _ <-. exact H. }
        now rewrite E.
    + cbn [snd] in H. rewrite run_fraction_none; [exact H|].
      destruct r' as [|y r']; [exact I|]. now rewrite Ex.
Qed.

Lemma run_Opt_Chr (p : codepoint -> bool) k s c v :
  k (match s with x :: r => if p x then r else s | [] => s end) c = Some v ->
  run (Opt (Chr p)) k s c = Some v.
Proof.
  destruct s as [|x r]; simpl; [auto|]. destruct (p x); [intros ->; reflexivity|auto].
Qed.

End Greedy.

Lemma span_app_eq p s : fst (span p s) ++ snd (span p s) = s.
Proof. destruct (span p s) as [a b] eqn:E. apply span_inv in E. simpl. symmetry. tauto. Qed.

Lemma span_dropwhile p s : snd (span p s) = dropwhile p s.
Proof.
  induction s as [|x s IH]; simpl; [reflexivity|].
  destruct (p x); [|reflexivity]. destruct (span p s). exact IH.
Qed.

Lemma take_number_app s : fst (take_number s) ++ snd (take_number s) = s.
Proof.
  unfold take_number. destruct (span isdecimal s) as [a r] eqn:E.
  apply span_inv in E. destruct E as [-> _].
  destruct r as [|x r']; [reflexivity|].
  destruct (dot x); [|reflexivity].
  destruct (span isdecimal r') as [[|y b] r''] eqn:E'; [reflexivity|].
  apply span_inv in E'. destruct E' as [-> _]. cbn [fst snd].
  now rewrite <- !app_assoc.
Qed.

Lemma take_number_cons d s :
  isdecimal d = true ->
  take_number (d :: s) = (d :: fst (take_number s), snd (take_number s)).
Proof.
  intros Hd. unfold take_number. cbn [span]. rewrite Hd.
  destruct (span isdecimal s) as [a r].
  destruct r as [|x r']; [reflexivity|].
  destruct (dot x); [|reflexivity].
  destruct (span isdecimal r') as [[|y b] r'']; reflexivity.
Qed.

(** The shape of what [take_number] takes. *)
Lemma take_number_shape s :
  exists a f,
    fst (take_number s) = a ++ f /\ a = fst (span isdecimal s) /\
    forallb isdecimal a = true /\ (f = [] \/ fraction f).
Proof.
  unfold take_number. destruct (span isdecimal s) as [a r] eqn:E.
  apply span_inv in E. destruct E as [_ Ha]. exists a.
  destruct r as [|x r']; [exists []; rewrite app_nil_r; auto|].
  destruct (dot x) eqn:Ex; [|exists []; rewrite app_nil_r; auto].
  destruct (span isdecimal r') as [[|y b] r''] eqn:E';
    [exists []; rewrite app_nil_r; auto|].
  apply span_inv in E'. destruct E' as [_ Hb].
  exists (x :: y :: b). cbn [fst]. repeat split; auto. right.
  exists (y :: b). unfold dot in Ex. apply N.eqb_eq in Ex. subst x.
  repeat split; auto. discriminate.
Qed.

(** A text with groups is matched by the pattern, with these groups. *)
Lemma dms_groups_match t g1 g2 g3 :
  dms_groups t = Some (g1, g2, g3) ->
  exists m,
    re_match dms_pattern t = Some m /\
    m 1%nat = Some g1 /\ m 2%nat = Some g2 /\ m 3%nat = Some g3.
Proof.
  unfold dms_groups.
  pose proof (span_app_eq isdecimal t) as E1.
  destruct (span isdecimal t) as [a1 r1] eqn:S1. cbn [fst snd] in E1.
  pose proof (span_app_eq degree_or_space r1) as E2.
  destruct (span degree_or_space r1) as [sep r2] eqn:S2. cbn [fst snd] in E2.
  pose proof (take_number_app r2) as E3.
  destruct (take_number r2) as [n2 r3] eqn:T2. cbn [fst snd] in E3.
  set (r4 := match r3 with c :: r => if minute_mark c then r else r3 | [] => r3 end).
  pose proof (take_number_app (dropwhile isspace r4)) as E4.
  destruct (take_number (dropwhile isspace r4)) as [n3 r6] eqn:T3. cbn [fst snd] in E4.
  destruct a1 as [|d1 a1]; [discriminate|].
  destruct sep as [|x sep]; [discriminate|].
  destruct r2 as [|d2 r2]; [discriminate|].
  destruct (isdecimal d2) eqn:Hd2; [|discriminate].
  intros [= <- <- <-].
  exists (set_group 3 n3 (set_group 2 n2 (set_group 1 (d1 :: a1) no_captures))).
  split; [|repeat split; reflexivity].
  unfold re_match, dms_pattern.
  (* group 1 *)
  change (run (Plus isdecimal)
            (fun s' c' =>
               run (Seq (Plus degree_or_space)
                   (Seq (Group 2 (Seq (Plus isdecimal)
                                      (Opt (Seq (Chr dot) (Plus isdecimal)))))
                   (Seq (Opt (Chr minute_mark))
                   (Seq (Star isspace)
                   (Seq (Group 3 (Seq (Star isdecimal)
                                      (Opt (Seq (Chr dot) (Plus isdecimal)))))
                        (Opt (Chr second_mark)))))))
                 (fun _ c => Some c) s' (set_group 1 (consumed t s') c'))
            t no_captures = Some (set_group 3 n3 (set_group 2 n2
                                    (set_group 1 (d1 :: a1) no_captures)))).
  rewrite <- E1 at 1. cbn [app].
  assert (Hd1 : isdecimal d1 = true /\ span isdecimal (a1 ++ r1) = (a1, r1)).
  { rewrite <- E1 in S1. cbn [app span] in S1.
    destruct (isdecimal d1); [|discriminate].
    destruct (span isdecimal (a1 ++ r1)) as [u w]. injection S1 as <- <-. auto. }
  destruct Hd1 as [Hd1 S1'].
  apply run_Plus_span; [exact Hd1|]. rewrite S1'. cbn [snd].
  rewrite <- E1. change ((d1 :: a1) ++ r1) with ((d1 :: a1) ++ r1).
  rewrite consumed_app.
  (* the separator *)
  change (run (Plus degree_or_space)
            (run (Seq (Group 2 (Seq (Plus isdecimal)
                                    (Opt (Seq (Chr dot) (Plus isdecimal)))))
                 (Seq (Opt (Chr minute_mark))
                 (Seq (Star isspace)
                 (Seq (Group 3 (Seq (Star isdecimal)
                                    (Opt (Seq (Chr dot) (Plus isdecimal)))))
                      (Opt (Chr second_mark))))))
               (fun _ c => Some c))
            r1 (set_group 1 (d1 :: a1) no_captures)
          = Some (set_group 3 n3 (set_group 2 n2
                                    (set_group 1 (d1 :: a1) no_captures)))).
  rewrite <- E2 at 1. cbn [app].
  assert (Hx : degree_or_space x = true /\
               span degree_or_space (sep ++ d2 :: r2) = (sep, d2 :: r2)).
  { rewrite <- E2 in S2. cbn [app span] in S2.
    destruct (degree_or_space x); [|discriminate].
    destruct (span degree_or_space (sep ++ d2 :: r2)) as [u w].
    injection S2 as <- <-. auto. }
  destruct Hx as [Hx S2'].
  apply run_Plus_span; [exact Hx|]. rewrite S2'. cbn [snd].
  (* group 2 *)
  change (run (Chr isdecimal)
            (run (Seq (Star isdecimal) (Opt (Seq (Chr dot) (Plus isdecimal))))
               (fun s' c' =>
                  run (Seq (Opt (Chr minute_mark))
                      (Seq (Star isspace)
                      (Seq (Group 3 (Seq (Star isdecimal)
                                         (Opt (Seq (Chr dot) (Plus isdecimal)))))
                           (Opt (Chr second_mark)))))
                    (fun _ c => Some c) s'
                    (set_group 2 (consumed (d2 :: r2) s') c')))
            (d2 :: r2) (set_group 1 (d1 :: a1) no_captures)
          = Some (set_group 3 n3 (set_group 2 n2
                                    (set_group 1 (d1 :: a1) no_captures)))).
  rewrite run_Chr_cons, Hd2.
  rewrite (take_number_cons d2 r2 Hd2) in T2. injection T2 as <- <-.
  apply run_number.
  rewrite <- E3 at 1. cbn [app].
  change (d2 :: fst (take_number r2) ++ snd (take_number r2))
    with ((d2 :: fst (take_number r2)) ++ snd (take_number r2)).
  rewrite consumed_app.
  (* the mark of the minutes, white space *)
  change (run (Opt (Chr minute_mark))
            (run (Star isspace)
               (run (Group 3 (Seq (Star isdecimal)
                                  (Opt (Seq (Chr dot) (Plus isdecimal)))))
                  (run (Opt (Chr second_mark)) (fun _ c => Some c))))
            (snd (take_number r2))
            (set_group 2 (d2 :: fst (take_number r2))
                       (set_group 1 (d1 :: a1) no_captures))
          = Some (set_group 3 n3 (set_group 2 (d2 :: fst (take_number r2))
                                    (set_group 1 (d1 :: a1) no_captures)))).
  apply run_Opt_Chr. fold r4.
  apply run_Star_span. rewrite span_dropwhile.
  (* group 3 *)
  change (run (Seq (Star isdecimal) (Opt (Seq (Chr dot) (Plus isdecimal))))
            (fun s' c' =>
               run (Opt (Chr second_mark)) (fun _ c => Some c) s'
                   (set_group 3 (consumed (dropwhile isspace r4) s') c'))
            (dropwhile isspace r4)
            (set_group 2 (d2 :: fst (take_number r2))
                       (set_group 1 (d1 :: a1) no_captures))
          = Some (set_group 3 n3 (set_group 2 (d2 :: fst (take_number r2))
                                    (set_group 1 (d1 :: a1) no_captures)))).
  apply run_number. rewrite T3. cbn [snd].
  rewrite <- E4 at 1. rewrite consumed_app.
  apply run_Opt_Chr. reflexivity.
Qed.

(** A text that the pattern matches has groups. *)
Lemma dms_match_groups t m :
  re_match dms_pattern t = Some m -> dms_groups t <> None.
Proof.
  unfold re_match, dms_pattern. intros H.
  seq_step H.
  eapply run_Group_inv in H; [|apply mo_Plus].
  destruct H as (g1 & s1 & -> & [Hne1 Hg1] & H).
  seq_step H.
  apply mo_Plus in H. destruct H as (l2 & s2 & -> & (Hne2 & Hsep) & H).
  seq_step H.
  eapply run_Group_inv in H; [|apply mo_decimal_number].
  destruct H as (g2 & s3 & -> & (a & f & -> & [Hnea Ha] & Hf) & _).
  destruct a as [|d a]; [now elim Hnea|].
  destruct l2 as [|x l2]; [now elim Hne2|].
  destruct g1 as [|d1 g1]; [now elim Hne1|].
  cbn [forallb] in Ha, Hsep. apply andb_prop in Ha, Hsep.
  destruct Ha as [Hd Ha], Hsep as [Hx Hsep].
  unfold dms_groups.
  rewrite (span_app isdecimal (d1 :: g1) ((x :: l2) ++ ((d :: a) ++ f) ++ s3) Hg1).
  2:{ cbn [app]. destruct (isdecimal x) eqn:E; [|reflexivity].
      apply isdecimal_not_sep in E. congruence. }
  rewrite (span_app degree_or_space (x :: l2) (((d :: a) ++ f) ++ s3)).
  2:{ cbn [forallb]. now rewrite Hx, Hsep. }
  2:{ cbn [app]. now apply isdecimal_not_sep. }
  destruct (take_number (((d :: a) ++ f) ++ s3)) as [n2 r3].
  destruct (take_number _) as [n3 r6].
  cbn [app]. rewrite Hd. discriminate.
Qed.

(** *** The numbers of the groups *)

Lemma parse_decimal_value a b :
  forallb is_ascii_digit a = true -> forallb is_ascii_digit b = true ->
  a ++ b <> [] ->
  parse_decimal (a ++ match b with [] => [] | _ :: _ => 46%N :: b end)
  = Some (false, digits_value (a ++ b), - Z.of_nat (List.length b)).
Proof.
  intros Ha Hb Hne.
  assert (Hpl : forallb plain (a ++ match b with [] => [] | _ :: _ => 46%N :: b end) = true).
  { rewrite forallb_app. apply andb_true_iff. split.
    - eapply forallb_weaken; [apply digit_plain|exact Ha].
    - destruct b as [|y b]; [reflexivity|].
      change (plain 46%N && forallb plain (y :: b) = true). apply andb_true_iff. split.
      + reflexivity.
      + eapply forallb_weaken; [apply digit_plain|exact Hb]. }
  unfold parse_decimal. rewrite (parse_sign_plain _ Hpl).
  destruct b as [|y b].
  - rewrite app_nil_r in *. rewrite (span_all _ _ Ha). rewrite app_nil_r.
    destruct a as [|c a]; [now elim Hne|]. reflexivity.
  - rewrite (span_app _ _ (46%N :: y :: b) Ha); [|reflexivity].
    rewrite N.eqb_refl. rewrite (span_all _ _ Hb).
    destruct (a ++ y :: b) as [|c r] eqn:E; [|reflexivity].
    now elim Hne.
Qed.

Lemma isdecimal_dot : isdecimal 46%N = false.
Proof. reflexivity. Qed.

(** [float] reads the digits of a group, with or without a point among
    them, as the number they write. *)
Lemma float_of_number a f :
  forallb isdecimal a = true -> (f = [] \/ fraction f) -> a ++ f <> [] ->
  float_of_str (a ++ f) = Ok (decimal_value (a ++ f)).
Proof.
  intros Ha Hf Hne.
  set (b := tl f).
  assert (Hb : forallb isdecimal b = true /\
               f = match b with [] => [] | _ :: _ => 46%N :: b end).
  { destruct Hf as [->|(b' & [Hb1 Hb2] & ->)]; [split; reflexivity|].
    subst b. cbn [tl]. split; [exact Hb2|]. destruct b'; [now elim Hb1|reflexivity]. }
  destruct Hb as [Hb Ef].
  assert (Es : span isdecimal (a ++ f) = (a, f)).
  { apply span_app; [exact Ha|]. rewrite Ef. destruct b; [exact I|reflexivity]. }
  unfold decimal_value. rewrite Es. fold b.
  unfold float_of_str, parse_float.
  assert (Ea : map to_ascii (a ++ f)
               = map to_ascii a ++ match map to_ascii b with
                                   | [] => []
                                   | _ :: _ => 46%N :: map to_ascii b
                                   end).
  { rewrite map_app. f_equal. rewrite Ef. destruct b; reflexivity. }
  rewrite Ea.
  assert (Ha' : forallb is_ascii_digit (map to_ascii a) = true) by now apply digits_to_ascii.
  assert (Hb' : forallb is_ascii_digit (map to_ascii b) = true) by now apply digits_to_ascii.
  assert (Hne' : map to_ascii a ++ map to_ascii b <> []).
  { rewrite <- map_app. intros E. apply map_eq_nil in E. apply app_eq_nil in E.
    destruct E as [-> E]. rewrite Ef, E in Hne. now elim Hne. }
  assert (Hpl : forallb plain (map to_ascii a ++ match map to_ascii b with
                                                  | [] => []
                                                  | _ :: _ => 46%N :: map to_ascii b
                                                  end) = true).
  { rewrite forallb_app. apply andb_true_iff. split.
    - eapply forallb_weaken; [apply digit_plain|exact Ha'].
    - destruct (map to_ascii b) as [|y b']; [reflexivity|].
      change (plain 46%N && forallb plain (y :: b') = true).
      apply andb_true_iff. split; [reflexivity|].
      eapply forallb_weaken; [apply digit_plain|exact Hb']. }
  rewrite strip_underscores_plain; [|lia|exact Hpl].
  rewrite trim_plain by exact Hpl.
  rewrite parse_inf_or_nan_plain by exact Hpl.
  rewrite (parse_decimal_value _ _ Ha' Hb' Hne').
  rewrite length_map, <- map_app. reflexivity.
Qed.

Lemma float_of_taken s :
  fst (take_number s) <> [] ->
  float_of_str (fst (take_number s)) = Ok (decimal_value (fst (take_number s))).
Proof.
  destruct (take_number_shape s) as (a & f & E & _ & Ha & Hf). rewrite E.
  now apply float_of_number.
Qed.

(** The value of a text with groups. *)
Lemma dms_groups_value s g1 g2 g3 :
  dms_groups (str_strip (normalize_marks s)) = Some (g1, g2, g3) ->
  dms_matches s = true /\
  dms_to_decimal (VStr s)
  = Ok (fadd (fadd (decimal_value g1) (fdiv (decimal_value g2) sixty))
             (fdiv (seconds_value g3) thirty_six_hundred)).
Proof.
  intros H. pose proof (dms_groups_match _ _ _ _ H) as (m & Hm & E1 & E2 & E3).
  split; [unfold dms_matches; now rewrite Hm|].
  unfold dms_to_decimal. rewrite Hm, E1, E2, E3. cbn [float_of_group].
  unfold dms_groups in H.
  destruct (span isdecimal (str_strip (normalize_marks s))) as [a1 r1] eqn:S1.
  destruct (span degree_or_space r1) as [sep r2].
  pose proof (float_of_taken r2) as F2.
  pose proof (take_number_cons) as C2.
  destruct (take_number r2) as [n2 r3] eqn:T2.
  set (r4 := match r3 with c :: r => if minute_mark c then r else r3 | [] => r3 end) in *.
  pose proof (float_of_taken (dropwhile isspace r4)) as F3.
  destruct (take_number (dropwhile isspace r4)) as [n3 r6].
  destruct a1 as [|d1 a1]; [discriminate|].
  destruct sep as [|x sep]; [discriminate|].
  destruct r2 as [|d2 r2]; [discriminate|].
  destruct (isdecimal d2) eqn:Hd2; [|discriminate].
  injection H as <- <- <-.
  apply span_inv in S1. destruct S1 as [_ Ha1].
  rewrite <- (app_nil_r (d1 :: a1)).
  rewrite (float_of_number (d1 :: a1) [] Ha1) by (auto; discriminate).
  rewrite app_nil_r. cbn [bind]. cbn [fst] in F2, F3.
  rewrite F2.
  2:{ rewrite (C2 d2 r2 Hd2) in T2. injection T2 as <- _. discriminate. }
  cbn [bind]. unfold seconds_of_group, seconds_value.
  destruct n3 as [|y n3]; [reflexivity|].
  rewrite F3 by discriminate. reflexivity.
Qed.

(** C4: a text that, with its marks normalised and stripped, reads as the
    digits of the degrees, degree signs or white space, the number of the
    minutes and perhaps the number of the seconds is what the pattern
    matches, and [dms_to_decimal] returns for it degrees plus minutes over
    60 plus seconds over 3600, each group counting as the number its digits
    write and seconds that are not there as 0.  The text 44°41.576' gives
    about 44.6929, which [convert_coordinates] returns as it is with
    direction N and negated, about -44.6929, with direction S; the text
    44 30 15.5, with seconds, gives about 44.504306. *)
Theorem dms_text_value :
  (forall s g1 g2 g3,
     dms_groups (str_strip (normalize_marks s)) = Some (g1, g2, g3) ->
     dms_matches s = true /\
     dms_to_decimal (VStr s)
     = Ok (fadd (fadd (decimal_value g1) (fdiv (decimal_value g2) sixty))
                (fdiv (seconds_value g3) thirty_six_hundred))) /\
  (forall s,
     dms_matches s = true ->
     exists g1 g2 g3, dms_groups (str_strip (normalize_marks s)) = Some (g1, g2, g3)) /\
  seconds_value [] = S754_zero false /\
  exactly sixty 60 /\ exactly thirty_six_hundred 3600 /\
  dms_groups (lit "44°41.576'") = Some (lit "44", lit "41.576", []) /\
  dms_to_decimal (VStr (lit "44°41.576'")) = Ok example_lat /\
  near example_lat (446929 # 10000) (1 # 10000) /\
  (forall RT : Runtime,
     point_y (convert_coordinates (dms_row (lit "N"))) = example_lat /\
     point_y (convert_coordinates (dms_row (lit "S"))) = fneg example_lat) /\
  near (fneg example_lat) (- (446929 # 10000)) (1 # 10000) /\
  dms_groups (lit "44 30 15.5") = Some (lit "44", lit "30", lit "15.5") /\
  exactly (decimal_value (lit "44")) 44 /\
  exactly (decimal_value (lit "30")) 30 /\
  near (seconds_value (lit "15.5")) (155 # 10) (1 # 1000000) /\
  dms_to_decimal (VStr (lit "44 30 15.5")) = Ok example_lat_seconds /\
  near example_lat_seconds (44504306 # 1000000) (1 # 1000000).
Proof.
  split; [exact dms_groups_value|]. split.
  { intros s H. apply dms_matches_inv in H. destruct H as [m Hm].
    apply dms_match_groups in Hm.
    destruct (dms_groups (str_strip (normalize_marks s))) as [[[g1 g2] g3]|];
      [eauto|now elim Hm]. }
  split; [reflexivity|].
  repeat split; try (vm_compute; reflexivity).
Qed.

(** C5, as amended: a float is returned as it is; an [int] is returned as the
    nearest float, which is the same number whenever its magnitude is below
    2^53, and [float] raises when that nearest float would be infinite; text
    that [float] accepts is returned as the float it denotes. *)
Theorem numbers_and_decimal_text_unchanged :
  (forall f, dms_to_decimal (VFloat f) = Ok f) /\
  (forall n, Z.abs n < 2 ^ 53 ->
             dms_to_decimal (VInt n) = Ok (of_Z n) /\ exactly (of_Z n) n) /\
  (forall n, fits_float n = true -> dms_to_decimal (VInt n) = Ok (of_Z n)) /\
  (forall n, fits_float n = false -> dms_to_decimal (VInt n) = Raise OverflowError) /\
  (forall s f, float_of_str s = Ok f -> dms_to_decimal (VStr s) = Ok f).
Proof.
  split; [reflexivity|]. split; [|split; [|split]].
  - intros n H. destruct (of_Z_exact n H) as [He Hf].
    split; [|exact He]. simpl. now apply float_of_int_fits.
  - intros n H. simpl. now apply float_of_int_fits.
  - intros n H. simpl. unfold float_of_int, fits_float in *.
    destruct (of_Z n); try discriminate; reflexivity.
  - apply decimal_text_unchanged.
Qed.

(** C5 as stated fails: an [int] that is not a float comes back as another
    number. *)
Lemma large_int_is_rounded :
  ~ (forall n, exists x, dms_to_decimal (VInt n) = Ok x /\ exactly x n).
Proof.
  intros H. destruct (H (2 ^ 53 + 1)) as (x & Hx & He).
  vm_compute in Hx. injection Hx as <-. vm_compute in He. discriminate.
Qed.

(** C7, as amended: [dms_to_decimal] returns without raising on every float,
    every text, [None] and any other object, and on every [int] whose nearest
    float is finite; it returns NaN on text that neither matches the pattern
    nor parses as a number, and on values that are neither text nor numbers. *)
Theorem dms_to_decimal_returns v :
  (forall n, v = VInt n -> fits_float n = true) ->
  returns (dms_to_decimal v) /\
  (forall s, v = VStr s ->
     re_match dms_pattern (str_strip (normalize_marks s)) = None ->
     parse_float (normalize_marks s) = None ->
     dms_to_decimal v = Ok nan) /\
  (v = VNone \/ v = VOther -> dms_to_decimal v = Ok nan).
Proof.
  intros Hfit. split; [|split].
  - destruct v as [f|n|s| |]; try (eexists; reflexivity).
    + simpl. rewrite float_of_int_fits by auto. eexists; reflexivity.
    + apply dms_to_decimal_text_returns.
  - intros s -> Hm Hp. unfold dms_to_decimal. rewrite Hm.
    unfold float_of_str. now rewrite Hp.
  - intros [-> | ->]; reflexivity.
Qed.

(** C7 as stated fails: [float] raises [OverflowError] on an [int] beyond the
    range of floats, and [dms_to_decimal] lets it through. *)
Lemma dms_to_decimal_raises_on_huge_int :
  ~ returns (dms_to_decimal (VInt (2 ^ 1024))).
Proof.
  intros [x H]. vm_compute in H. discriminate.
Qed.

Section Hemisphere.
Context {RT : Runtime}.

Lemma convert_coordinates_ok r x y :
  dms_to_decimal (lat r) = Ok x ->
  dms_to_decimal (long r) = Ok y ->
  convert_coordinates r
  = Point (if str_eqb (long_direction r) (lit "W") then fneg y else y)
          (if str_eqb (lat_direction r) (lit "S") then fneg x else x).
Proof.
  intros Hx Hy. unfold convert_coordinates, convert_coordinates_try.
  rewrite Hx, Hy. reflexivity.
Qed.

(** C6, as amended: when both coordinates parse, a latitude with direction S
    is returned negated, and so is a longitude with direction W; when the
    parsed value is not negative, as it is for every text in degrees and
    minutes, the result equals minus its absolute value and is not
    positive. *)
Theorem negative_hemisphere_negates r x y :
  dms_to_decimal (lat r) = Ok x ->
  dms_to_decimal (long r) = Ok y ->
  (lat_direction r = lit "S" ->
     point_y (convert_coordinates r) = fneg x /\
     (fle (of_Z 0) x = true ->
        feq (point_y (convert_coordinates r)) (fneg (fabs x)) = true /\
        fle (point_y (convert_coordinates r)) (of_Z 0) = true)) /\
  (long_direction r = lit "W" ->
     point_x (convert_coordinates r) = fneg y /\
     (fle (of_Z 0) y = true ->
        feq (point_x (convert_coordinates r)) (fneg (fabs y)) = true /\
        fle (point_x (convert_coordinates r)) (of_Z 0) = true)) /\
  (forall s, lat r = VStr s -> dms_matches s = true -> fle (of_Z 0) x = true) /\
  (forall s, long r = VStr s -> dms_matches s = true -> fle (of_Z 0) y = true).
Proof.
  intros Hx Hy. rewrite (convert_coordinates_ok r x y Hx Hy). cbn [point_x point_y].
  split; [|split; [|split]].
  - intros ->. rewrite str_eqb_refl. split; [reflexivity|apply fneg_nonneg].
  - intros ->. rewrite str_eqb_refl. split; [reflexivity|apply fneg_nonneg].
  - intros s Hs Hm. rewrite Hs in Hx. now apply (dms_text_nonneg s).
  - intros s Hs Hm. rewrite Hs in Hy. now apply (dms_text_nonneg s).
Qed.

End Hemisphere.

(** C6 as stated fails: the sign is flipped, not forced, so a negative
    latitude with direction S comes out positive. *)
Lemma southern_negative_latitude_turns_positive :
  ~ (forall (RT : Runtime) (r : row) (x : float),
       dms_to_decimal (lat r) = Ok x ->
       lat_direction r = lit "S" ->
       point_y (convert_coordinates r) = fneg (fabs x) /\
       fle (point_y (convert_coordinates r)) (of_Z 0) = true).
Proof.
  intros H.
  destruct (H ascii_runtime southern_row minus_44_5 eq_refl eq_refl) as [H1 _].
  vm_compute in H1. discriminate.
Qed.

(* ================================================================= *)
(** ** Proofs: counties *)

Section CountyFacts.
Context {G : Geometry}.

(** The colour loop never touches the geometry or the count of a row. *)
Lemma paint_count rows r :
  map (fun c => (geometry c, point_count c)) (paint rows r)
  = map (fun c => (geometry c, point_count c)) rows.
Proof.
  unfold paint. rewrite map_map. apply map_ext. intros c.
  destruct (in_color_range (point_count c) r); reflexivity.
Qed.

Lemma fold_paint_count rs : forall rows,
  map (fun c => (geometry c, point_count c)) (fold_left paint rs rows)
  = map (fun c => (geometry c, point_count c)) rows.
Proof.
  induction rs as [|r rs IH]; intros rows; simpl; [reflexivity|].
  now rewrite IH, paint_count.
Qed.

Lemma paint_map rows r :
  paint rows r
  = map (fun c => CountyRow (geometry c) (point_count c)
                            (repaint (point_count c) (color c) r)) rows.
Proof.
  unfold paint, repaint. apply map_ext. intros [g n col]. simpl.
  destruct (in_color_range n r); reflexivity.
Qed.

Lemma fold_paint_map rs : forall rows,
  fold_left paint rs rows
  = map (fun c => CountyRow (geometry c) (point_count c)
                            (fold_left (repaint (point_count c)) rs (color c))) rows.
Proof.
  induction rs as [|r rs IH]; intros rows; simpl.
  - rewrite <- (map_id rows) at 1. apply map_ext. now intros [g n col].
  - rewrite IH, paint_map, map_map. reflexivity.
Qed.

Lemma fold_repaint_last n rs : forall col,
  fold_left (repaint n) rs col
  = match last_match n rs with
    | Some r => range_color r
    | None => col
    end.
Proof.
  unfold last_match. induction rs as [|r rs IH] using rev_ind; intros col.
  - reflexivity.
  - rewrite fold_left_app, rev_app_distr. simpl. unfold repaint at 1.
    destruct (in_color_range n r); [reflexivity|]. apply IH.
Qed.

Lemma assign_colors_spec ranges counties points :
  assign_colors ranges (count_points counties points)
  = map (fun g =>
           let n := Z.of_nat (List.length (points_in points g)) in
           CountyRow g n (classify n ranges))
        counties.
Proof.
  unfold assign_colors, count_points. rewrite fold_paint_map, map_map.
  apply map_ext. intros g. simpl. now rewrite fold_repaint_last.
Qed.

Lemma process_county_data_spec counties vars points t :
  process_county_data counties vars points = Ok t ->
  exists ranges,
    read_ranges vars = Ok ranges /\
    t = map (fun g =>
               let n := Z.of_nat (List.length (points_in points g)) in
               CountyRow g n (classify n ranges))
            counties.
Proof.
  unfold process_county_data. destruct (read_ranges vars) as [ranges|e]; [|discriminate].
  simpl. intros [= <-]. exists ranges. split; [reflexivity|]. apply assign_colors_spec.
Qed.

(** *** Counting *)

Lemma filter_length_le {A} (p : A -> bool) l :
  (List.length (filter p l) <= List.length l)%nat.
Proof.
  induction l as [|a l IH]; simpl; [lia|]. destruct (p a); simpl; lia.
Qed.


End CountyFacts.

(** *** Sorting the ranges *)

Lemma flt_not_fle x y : flt x y = true -> fle y x = false.
Proof.
  unfold flt, fle, SFltb, SFleb. rewrite (SFcompare_swap x y).
  destruct (SFcompare x y) as [[]|]; simpl; auto; discriminate.
Qed.

Lemma flt_not_nan x y : flt x y = true -> is_nan x = false /\ is_nan y = false.
Proof.
  unfold flt, SFltb. destruct x, y; simpl; auto; discriminate.
Qed.

Lemma not_fle_flt x y :
  is_nan x = false -> is_nan y = false -> fle y x = false -> flt x y = true.
Proof.
  intros Hx Hy H. destruct (flt x y) eqn:E; [reflexivity|].
  rewrite (not_flt_fle y x Hy Hx E) in H. discriminate.
Qed.

Lemma flt_fle_trans x y z :
  is_nan z = false -> flt x y = true -> fle y z = true -> flt x z = true.
Proof.
  intros Hz Hxy Hyz. destruct (flt_not_nan _ _ Hxy) as [Hx Hy].
  apply not_fle_flt; auto. destruct (fle z x) eqn:E; [|reflexivity].
  pose proof (flt_not_fle _ _ Hxy) as K.
  rewrite (fle_trans y z x Hy Hz Hx Hyz E) in K. discriminate.
Qed.

Lemma flt_trans x y z : flt x y = true -> flt y z = true -> flt x z = true.
Proof.
  intros Hxy Hyz. destruct (flt_not_nan _ _ Hyz) as [_ Hz].
  apply (flt_fle_trans x y z Hz Hxy). now apply flt_fle.
Qed.

(** The order of the minima, on ranges whose minima are numbers. *)
Lemma le_min_strict_trans : Transitive le_min_strict.
Proof.
  intros a b c (Ha & Hb & Hab) (_ & Hc & Hbc). repeat split; auto.
  unfold le_min in *. now apply fle_trans with (range_min b).
Qed.

Lemma sorted_strongly l :
  comparable l -> Sorted le_min l -> StronglySorted le_min_strict l.
Proof.
  intros Hc Hs. apply Sorted_StronglySorted; [exact le_min_strict_trans|].
  induction Hs as [|a l Hs IH Hhd]; [constructor|].
  inversion Hc as [|? ? Ha Hl]; subst. constructor; [now apply IH|].
  destruct Hhd as [|b l Hab]; constructor.
  inversion Hl; subst. repeat split; auto.
Qed.

Lemma strongly_sorted l : StronglySorted le_min_strict l -> Sorted le_min l.
Proof.
  intros H. apply StronglySorted_Sorted in H.
  induction H as [|a l Hs IH Hhd]; constructor; auto.
  destruct Hhd as [|b l (_ & _ & Hab)]; constructor. exact Hab.
Qed.

(** **** The run at the head of the list *)

Lemma rising_app prev l :
  fst (rising prev l) ++ snd (rising prev l) = l.
Proof.
  revert prev. induction l as [|x l IH]; intros prev; simpl; [reflexivity|].
  destruct (min_lt x prev); [reflexivity|].
  specialize (IH x). destruct (rising x l) as [run rest]. simpl in *. now rewrite IH.
Qed.

Lemma falling_app prev l :
  fst (falling prev l) ++ snd (falling prev l) = l.
Proof.
  revert prev. induction l as [|x l IH]; intros prev; simpl; [reflexivity|].
  destruct (min_lt x prev); [|reflexivity].
  specialize (IH x). destruct (falling x l) as [run rest]. simpl in *. now rewrite IH.
Qed.

Lemma rising_sorted prev l :
  comparable (prev :: l) -> Sorted le_min (prev :: fst (rising prev l)).
Proof.
  revert prev. induction l as [|x l IH]; intros prev Hc; simpl.
  - repeat constructor.
  - destruct (min_lt x prev) eqn:E; simpl; [repeat constructor|].
    inversion Hc as [|? ? Hp Hc']; subst. inversion Hc' as [|? ? Hx _]; subst.
    specialize (IH x Hc'). destruct (rising x l) as [run rest]. simpl in *.
    constructor; [exact IH|]. constructor. now apply not_flt_fle.
Qed.

Lemma below_trans : Transitive below.
Proof. intros a b c H1 H2. unfold below, min_lt in *. now apply flt_trans with (range_min b). Qed.

Lemma falling_sorted prev l : Sorted below (prev :: fst (falling prev l)).
Proof.
  revert prev. induction l as [|x l IH]; intros prev; simpl.
  - repeat constructor.
  - destruct (min_lt x prev) eqn:E; simpl; [|repeat constructor].
    specialize (IH x). destruct (falling x l) as [run rest]. simpl in *.
    constructor; [exact IH|]. constructor. exact E.
Qed.

Lemma strongly_sorted_snoc (R : color_range -> color_range -> Prop) l x :
  StronglySorted R l -> Forall (fun y => R y x) l -> StronglySorted R (l ++ [x]).
Proof.
  induction 1 as [|a l Hs IH Ha]; intros Hx; simpl.
  - repeat constructor.
  - inversion Hx; subst. constructor; [now apply IH|].
    apply Forall_app. split; [assumption|]. now constructor.
Qed.

Lemma strongly_sorted_rev (R : color_range -> color_range -> Prop) l :
  StronglySorted R l -> StronglySorted (fun a b => R b a) (rev l).
Proof.
  induction 1 as [|a l Hs IH Ha]; simpl; [constructor|].
  apply strongly_sorted_snoc; [exact IH|].
  apply Forall_rev. exact Ha.
Qed.

Lemma falling_rev_sorted l :
  StronglySorted below l -> Sorted le_min (rev l).
Proof.
  intros H. apply strongly_sorted_rev in H. apply StronglySorted_Sorted in H.
  induction H as [|a l' Hs IH Hhd]; constructor; auto.
  destruct Hhd as [|b l'' Hab]; constructor. unfold below, min_lt in Hab.
  now apply flt_fle.
Qed.

(** A falling run holds no two entries with the same minimum, so that
    turning it round moves no entry past an equal one. *)
Lemma falling_rev_stable k l :
  StronglySorted below l ->
  filter (same_min k) (rev l) = filter (same_min k) l.
Proof.
  induction 1 as [|x l Hs IH Hx]; [reflexivity|].
  simpl. rewrite filter_app, IH. simpl.
  destruct (same_min k x) eqn:Ex; [|apply app_nil_r].
  assert (E : filter (same_min k) l = []).
  { clear IH Hs. induction l as [|y l IH]; [reflexivity|].
    inversion Hx as [|? ? Hy Hl]; subst. simpl.
    destruct (same_min k y) eqn:Ey; [|now apply IH].
    unfold below, min_lt, same_min in *.
    rewrite (feq_flt_false _ _ _ Ey Ex) in Hy. discriminate. }
  rewrite E. reflexivity.
Qed.

Lemma count_run_perm l :
  Permutation l (fst (count_run l) ++ snd (count_run l)).
Proof.
  destruct l as [|x0 [|x1 l]]; [reflexivity..|].
  cbn [count_run]. destruct (min_lt x1 x0).
  - pose proof (falling_app x1 l) as E. destruct (falling x1 l) as [run rest].
    simpl in *. rewrite <- E at 1.
    change (x0 :: x1 :: run ++ rest) with ((x0 :: x1 :: run) ++ rest).
    apply Permutation_app_tail.
    change ((rev run ++ [x1]) ++ [x0]) with (rev (x0 :: x1 :: run)).
    apply Permutation_rev.
  - pose proof (rising_app x1 l) as E. destruct (rising x1 l) as [run rest].
    simpl in *. now rewrite E.
Qed.

Lemma count_run_sorted l :
  comparable l -> Sorted le_min (fst (count_run l)).
Proof.
  intros Hc. destruct l as [|x0 [|x1 l]]; [repeat constructor..|].
  cbn [count_run]. destruct (min_lt x1 x0) eqn:E.
  - pose proof (falling_sorted x1 l) as Hs. destruct (falling x1 l) as [run rest].
    simpl in *.
    change ((rev run ++ [x1]) ++ [x0]) with (rev (x0 :: x1 :: run)).
    apply falling_rev_sorted. apply Sorted_StronglySorted; [exact below_trans|].
    constructor; [exact Hs|]. constructor. exact E.
  - inversion Hc as [|? ? H0 Hc']; subst.
    pose proof (rising_sorted x1 l Hc') as Hs. destruct (rising x1 l) as [run rest].
    simpl in *. constructor; [exact Hs|]. constructor.
    inversion Hc'; subst. now apply not_flt_fle.
Qed.

Lemma count_run_stable k l :
  filter (same_min k) (fst (count_run l) ++ snd (count_run l)) = filter (same_min k) l.
Proof.
  destruct l as [|x0 [|x1 l]]; try (simpl; rewrite ?app_nil_r; reflexivity).
  cbn [count_run]. destruct (min_lt x1 x0) eqn:E.
  - pose proof (falling_app x1 l) as Ea. pose proof (falling_sorted x1 l) as Hs.
    destruct (falling x1 l) as [run rest]. cbn [fst snd] in *.
    rewrite filter_app, falling_rev_stable, <- filter_app.
    + cbn [app]. now rewrite Ea.
    + apply Sorted_StronglySorted; [exact below_trans|].
      constructor; [exact Hs|]. constructor. exact E.
  - pose proof (rising_app x1 l) as Ea. destruct (rising x1 l) as [run rest].
    cbn [fst snd app] in *. now rewrite Ea.
Qed.

(** **** The binary search *)

Lemma strongly_sorted_middle (R : color_range -> color_range -> Prop) a x b :
  StronglySorted R (a ++ x :: b) -> Forall (fun y => R y x) a /\ Forall (R x) b.
Proof.
  induction a as [|y a IH]; simpl; intros H; inversion H as [|? ? Hs Hy]; subst.
  - split; [constructor|assumption].
  - destruct (IH Hs) as [H1 H2]. split; [|exact H2]. constructor; [|exact H1].
    rewrite Forall_forall in Hy. apply Hy. apply in_or_app. right. now left.
Qed.

Lemma nth_middle_split (s : list color_range) p d :
  (p < List.length s)%nat ->
  s = firstn p s ++ nth p s d :: skipn (S p) s.
Proof.
  revert p. induction s as [|x s IH]; intros p Hp; simpl in *; [lia|].
  destruct p as [|p]; simpl; [reflexivity|]. f_equal. apply IH. lia.
Qed.

Lemma skipn_nth (s : list color_range) p d :
  (p < List.length s)%nat -> skipn p s = nth p s d :: skipn (S p) s.
Proof.
  revert p. induction s as [|x s IH]; intros p Hp; simpl in *; [lia|].
  destruct p as [|p]; [reflexivity|]. apply IH. lia.
Qed.

Lemma firstn_S_nth (s : list color_range) p d :
  (p < List.length s)%nat -> firstn (S p) s = firstn p s ++ [nth p s d].
Proof.
  revert p. induction s as [|x s IH]; intros p Hp; simpl in *; [lia|].
  destruct p as [|p]; [reflexivity|]. cbn [firstn app]. f_equal. apply IH. lia.
Qed.

Lemma half_bounds l r : (l < r -> l <= l + (r - l) / 2 < r)%nat.
Proof.
  intros H.
  assert ((r - l) / 2 < r - l)%nat by (apply Nat.div_lt; lia). lia.
Qed.

(** On a sorted part whose minima are numbers the search ends at the place
    after the entries that [pivot] is not below and before those it is
    below. *)
Lemma bisect_spec pivot s :
  StronglySorted le_min_strict s -> is_nan (range_min pivot) = false ->
  forall fuel l r,
    (r - l < fuel)%nat -> (l <= r <= List.length s)%nat ->
    Forall (fun x => min_lt pivot x = false) (firstn l s) ->
    Forall (fun x => min_lt pivot x = true) (skipn r s) ->
    let pos := bisect fuel pivot s l r in
    Forall (fun x => min_lt pivot x = false) (firstn pos s) /\
    Forall (fun x => min_lt pivot x = true) (skipn pos s).
Proof.
  intros Hs Hp. induction fuel as [|fuel IH]; intros l r Hf Hlr Hl Hr; [lia|].
  cbn [bisect]. destruct (Nat.ltb_spec l r) as [Hlt|Hge].
  - pose proof (half_bounds l r Hlt) as Hb.
    set (p := (l + (r - l) / 2)%nat) in *.
    assert (Hps : (p < List.length s)%nat) by lia.
    pose proof (nth_middle_split s p pivot Hps) as Es.
    set (x := nth p s pivot) in *.
    assert (Hm : StronglySorted le_min_strict (firstn p s ++ x :: skipn (S p) s))
      by (rewrite <- Es; exact Hs).
    apply strongly_sorted_middle in Hm. destruct Hm as [Hbefore Hafter].
    destruct (min_lt pivot x) eqn:E.
    + apply IH; try lia; [exact Hl|].
      rewrite (skipn_nth s p pivot Hps). fold x. constructor; [exact E|].
      eapply Forall_impl; [|exact Hafter]. intros y (_ & Hy & Hxy).
      unfold min_lt in *. now apply flt_fle_trans with (range_min x).
    + apply IH; try lia; [|exact Hr].
      rewrite (firstn_S_nth s p pivot Hps). fold x. apply Forall_app. split; [|now constructor].
      eapply Forall_impl; [|exact Hbefore]. intros y (Hy & Hx & Hyx).
      unfold min_lt in *. destruct (flt (range_min pivot) (range_min y)) eqn:F; [|reflexivity].
      rewrite (flt_fle_trans _ _ _ Hx F Hyx) in E. discriminate.
  - assert (l = r) by lia. subst r. split; assumption.
Qed.

Lemma insert_range_perm sorted pivot :
  Permutation (sorted ++ [pivot]) (insert_range sorted pivot).
Proof.
  unfold insert_range.
  set (l := bisect _ _ _ _ _).
  rewrite <- (firstn_skipn l sorted) at 1. rewrite <- app_assoc.
  apply Permutation_app_head. symmetry. apply Permutation_cons_append.
Qed.

Lemma strongly_sorted_insert a x b :
  StronglySorted le_min_strict (a ++ b) ->
  Forall (fun y => le_min_strict y x) a -> Forall (le_min_strict x) b ->
  StronglySorted le_min_strict (a ++ x :: b).
Proof.
  induction a as [|y a IH]; simpl; intros Hs Ha Hb.
  - now constructor.
  - inversion Hs as [|? ? Hs' Hy]; subst. inversion Ha as [|? ? Hyx Ha']; subst.
    constructor; [now apply IH|].
    apply Forall_app in Hy. destruct Hy as [Hy1 Hy2].
    apply Forall_app. split; [exact Hy1|]. constructor; [exact Hyx|exact Hy2].
Qed.

Lemma insert_range_sorted sorted pivot :
  StronglySorted le_min_strict sorted -> comparable (pivot :: sorted) ->
  StronglySorted le_min_strict (insert_range sorted pivot).
Proof.
  intros Hs Hc. inversion Hc as [|? ? Hp Hc']; subst.
  unfold insert_range.
  destruct (bisect_spec pivot sorted Hs Hp (S (List.length sorted)) 0 (List.length sorted))
    as [H1 H2]; try lia; try (cbn [firstn]; constructor).
  { rewrite skipn_all. constructor. }
  set (l := bisect _ _ _ _ _) in *.
  assert (Hc1 : comparable (firstn l sorted)).
  { unfold comparable in *. rewrite <- (firstn_skipn l sorted) in Hc'.
    now apply Forall_app in Hc'. }
  assert (Hc2 : comparable (skipn l sorted)).
  { unfold comparable in *. rewrite <- (firstn_skipn l sorted) in Hc'.
    now apply Forall_app in Hc'. }
  apply strongly_sorted_insert.
  - now rewrite firstn_skipn.
  - unfold comparable in Hc1. rewrite Forall_forall in *. intros y Hy.
    repeat split; auto. unfold le_min, min_lt in *. apply not_flt_fle; auto.
  - unfold comparable in Hc2. rewrite Forall_forall in *. intros y Hy.
    repeat split; auto. unfold le_min, min_lt in *. apply flt_fle; auto.
Qed.

Lemma insert_range_stable k sorted pivot :
  StronglySorted le_min_strict sorted -> is_nan (range_min pivot) = false ->
  filter (same_min k) (insert_range sorted pivot)
  = filter (same_min k) (sorted ++ [pivot]).
Proof.
  intros Hs Hp. unfold insert_range.
  destruct (bisect_spec pivot sorted Hs Hp (S (List.length sorted)) 0 (List.length sorted))
    as [_ H2]; try lia; try (cbn [firstn]; constructor).
  { rewrite skipn_all. constructor. }
  set (l := bisect _ _ _ _ _) in *.
  rewrite <- (firstn_skipn l sorted) at 3.
  rewrite !filter_app. cbn [filter].
  destruct (same_min k pivot) eqn:E; [|now rewrite app_nil_r].
  assert (E2 : filter (same_min k) (skipn l sorted) = []).
  { induction (skipn l sorted) as [|y t IH]; [reflexivity|].
    inversion H2 as [|? ? Hy Ht]; subst. simpl.
    destruct (same_min k y) eqn:Ey; [|now apply IH].
    unfold min_lt, same_min in *. rewrite (feq_flt_false _ _ _ E Ey) in Hy. discriminate. }
  rewrite E2, app_nil_r. reflexivity.
Qed.

Lemma binarysort_perm rest : forall sorted,
  Permutation (sorted ++ rest) (binarysort sorted rest).
Proof.
  induction rest as [|x rest IH]; intros sorted; simpl.
  - now rewrite app_nil_r.
  - unfold binarysort in *. cbn [fold_left]. rewrite <- IH.
    change (x :: rest) with ([x] ++ rest). rewrite app_assoc.
    apply Permutation_app_tail. apply insert_range_perm.
Qed.

Lemma sort_ranges_perm l : Permutation l (sort_ranges l).
Proof.
  unfold sort_ranges. pose proof (count_run_perm l) as H.
  destruct (count_run l) as [run rest]. cbn [fst snd] in H.
  rewrite H at 1. apply binarysort_perm.
Qed.

Lemma sort_ranges_comparable l : comparable l -> comparable (sort_ranges l).
Proof.
  intros H. unfold comparable in *.
  eapply Permutation_Forall; [apply sort_ranges_perm|exact H].
Qed.

Lemma binarysort_sorted rest : forall sorted,
  StronglySorted le_min_strict sorted -> comparable (sorted ++ rest) ->
  StronglySorted le_min_strict (binarysort sorted rest) /\
  forall k, filter (same_min k) (binarysort sorted rest)
            = filter (same_min k) (sorted ++ rest).
Proof.
  induction rest as [|x rest IH]; intros sorted Hs Hc.
  - rewrite app_nil_r. split; [exact Hs|reflexivity].
  - unfold binarysort in *. cbn [fold_left].
    assert (Hx : is_nan (range_min x) = false).
    { unfold comparable in Hc. apply Forall_app in Hc. destruct Hc as [_ Hc].
      now inversion Hc. }
    assert (Hcs : comparable (x :: sorted)).
    { unfold comparable in *. apply Forall_app in Hc. destruct Hc as [Hc _].
      now constructor. }
    destruct (IH (insert_range sorted x)) as [H1 H2].
    + now apply insert_range_sorted.
    + unfold comparable in *. apply Forall_app in Hc. destruct Hc as [Hc1 Hc2].
      inversion Hc2; subst. apply Forall_app. split; [|assumption].
      eapply Permutation_Forall; [apply insert_range_perm|].
      apply Forall_app. split; [assumption|]. now constructor.
    + split; [exact H1|]. intros k. rewrite H2, filter_app.
      rewrite insert_range_stable by assumption.
      change (x :: rest) with ([x] ++ rest). now rewrite !filter_app, app_assoc.
Qed.

Lemma sort_ranges_facts l :
  comparable l ->
  StronglySorted le_min_strict (sort_ranges l) /\
  forall k, filter (same_min k) (sort_ranges l) = filter (same_min k) l.
Proof.
  intros Hc. unfold sort_ranges.
  pose proof (count_run_perm l) as Hp. pose proof (count_run_sorted l Hc) as Hs.
  pose proof (fun k => count_run_stable k l) as Hk.
  destruct (count_run l) as [run rest]. cbn [fst snd] in *.
  assert (Hc' : comparable (run ++ rest)).
  { unfold comparable in *. eapply Permutation_Forall; [exact Hp|exact Hc]. }
  destruct (binarysort_sorted rest run) as [H1 H2]; [|exact Hc'|].
  - apply sorted_strongly; [|exact Hs]. unfold comparable in *.
    now apply Forall_app in Hc'.
  - split; [exact H1|]. intros k. now rewrite H2, Hk.
Qed.

Lemma sort_ranges_sorted l : comparable l -> Sorted le_min (sort_ranges l).
Proof. intros H. apply strongly_sorted. now apply sort_ranges_facts. Qed.

Lemma sort_ranges_stable k l :
  comparable l -> filter (same_min k) (sort_ranges l) = filter (same_min k) l.
Proof. intros H. now apply sort_ranges_facts. Qed.

Lemma filter_same_head k x l :
  same_min k x = true -> filter (same_min k) (x :: l) = x :: filter (same_min k) l.
Proof. intros H. simpl. now rewrite H. Qed.

Lemma in_filter_same x l :
  is_nan (range_min x) = false -> In x l ->
  In x (filter (same_min (range_min x)) l).
Proof.
  intros Hx Hin. apply filter_In. split; [exact Hin|].
  unfold same_min. now apply feq_refl.
Qed.

Lemma sorted_stable_eq l1 : forall l2,
  comparable l1 -> comparable l2 ->
  StronglySorted le_min_strict l1 -> StronglySorted le_min_strict l2 ->
  (forall k, filter (same_min k) l1 = filter (same_min k) l2) ->
  l1 = l2.
Proof.
  induction l1 as [|x l1 IH]; intros l2 C1 C2 S1 S2 Hf.
  - destruct l2 as [|y l2]; [reflexivity|]. exfalso.
    inversion C2 as [|? ? Hy _]; subst.
    pose proof (in_filter_same y (y :: l2) Hy (or_introl eq_refl)) as Hin.
    rewrite <- Hf in Hin. exact Hin.
  - inversion C1 as [|? ? Hx C1']; subst.
    destruct l2 as [|y l2].
    + exfalso. pose proof (in_filter_same x (x :: l1) Hx (or_introl eq_refl)) as Hin.
      rewrite Hf in Hin. exact Hin.
    + inversion C2 as [|? ? Hy C2']; subst.
      inversion S1 as [|? ? S1' H1]; subst. inversion S2 as [|? ? S2' H2]; subst.
      assert (Exy : feq (range_min x) (range_min y) = true).
      { apply fle_antisym_feq; auto.
        - assert (Hin : In y (x :: l1)).
          { pose proof (in_filter_same y (y :: l2) Hy (or_introl eq_refl)) as Hin.
            rewrite <- Hf in Hin. apply filter_In in Hin. tauto. }
          destruct Hin as [->|Hin]; [now apply fle_refl|].
          rewrite Forall_forall in H1. now apply H1.
        - assert (Hin : In x (y :: l2)).
          { pose proof (in_filter_same x (x :: l1) Hx (or_introl eq_refl)) as Hin.
            rewrite Hf in Hin. apply filter_In in Hin. tauto. }
          destruct Hin as [->|Hin]; [now apply fle_refl|].
          rewrite Forall_forall in H2. now apply H2. }
      assert (x = y).
      { pose proof (Hf (range_min y)) as Hk.
        rewrite !filter_same_head in Hk; [now injection Hk| |exact Exy].
        unfold same_min. now apply feq_refl. }
      subst y. f_equal. apply IH; auto.
      intros k. specialize (Hf k). simpl in Hf.
      destruct (same_min k x); [now injection Hf|exact Hf].
Qed.

(** On minima without NaN every stable ascending arrangement is the one
    [sort_ranges] computes. *)
Lemma stable_sort_unique l l' :
  comparable l ->
  Permutation l l' -> Sorted le_min l' ->
  (forall k, filter (same_min k) l' = filter (same_min k) l) ->
  l' = sort_ranges l.
Proof.
  intros Hc Hp Hs Hf.
  assert (Hc' : comparable l') by (unfold comparable in *; eapply Permutation_Forall; eauto).
  apply sorted_stable_eq; auto.
  - now apply sort_ranges_comparable.
  - now apply sorted_strongly.
  - apply sorted_strongly; [now apply sort_ranges_comparable|now apply sort_ranges_sorted].
  - intros k. rewrite Hf. symmetry. now apply sort_ranges_stable.
Qed.

(** *** The last match *)

Lemma last_match_snoc n l x :
  last_match n (l ++ [x])
  = if in_color_range n x then Some x else last_match n l.
Proof. unfold last_match. rewrite rev_app_distr. reflexivity. Qed.

Lemma last_match_Some n l r :
  last_match n l = Some r ->
  exists l1 l2, l = l1 ++ r :: l2 /\ in_color_range n r = true /\ misses n l2.
Proof.
  induction l as [|x l IH] using rev_ind; [discriminate|].
  rewrite last_match_snoc. destruct (in_color_range n x) eqn:E.
  - intros [= <-]. exists l, []. repeat split; auto. constructor.
  - intros H. destruct (IH H) as (l1 & l2 & -> & Hr & Hm).
    exists l1, (l2 ++ [x]). rewrite <- app_assoc. repeat split; auto.
    apply Forall_app. split; [assumption|]. now constructor.
Qed.

Lemma last_match_None n l : last_match n l = None -> misses n l.
Proof.
  induction l as [|x l IH] using rev_ind; [constructor|].
  rewrite last_match_snoc. destruct (in_color_range n x) eqn:E; [discriminate|].
  intros H. apply Forall_app. split; [now apply IH|]. now constructor.
Qed.

Lemma in_open_range n mn col :
  in_color_range n (mn, inf, col) = fge (of_Z n) mn.
Proof.
  unfold in_color_range, range_min, range_max. simpl.
  rewrite fle_inf by apply of_Z_not_nan. apply andb_true_r.
Qed.

Lemma classify_colored_by n ranges :
  colored_by (sort_ranges ranges) n (classify n ranges).
Proof.
  unfold classify, colored_by.
  destruct (last_match n (sort_ranges ranges)) as [r|] eqn:E.
  - left. apply last_match_Some in E. destruct E as (l1 & l2 & E & Hr & Hm).
    exists l1, r, l2. auto.
  - right. split; [now apply last_match_None|reflexivity].
Qed.

Section Classifier.
Context {G : Geometry}.

Lemma in_color_range_spec n r :
  in_color_range n r = true <->
  fle (range_min r) (of_Z n) = true /\ fle (of_Z n) (range_max r) = true.
Proof. unfold in_color_range, fge, fle. apply andb_true_iff. Qed.

(** C2, as amended: the table has the counties in their order, each with the
    number of points within it, and when the minima of the ranges are numbers
    (no NaN) every county has the colour of the last range whose inclusive
    interval holds its count, in the one arrangement of the ranges that is
    ascending by minimum and keeps ranges of equal minimum in their order;
    it is white when no range holds the count.  A maximum of plus infinity
    admits every count from the minimum on; with ranges (0,10,A) and (5,15,B)
    a county of 7 points gets B. *)
Theorem classifier_last_match_wins counties vars points t :
  process_county_data counties vars points = Ok t ->
  exists ranges,
    read_ranges vars = Ok ranges /\
    map geometry t = counties /\
    Forall (fun c => point_count c = Z.of_nat (List.length (points_in points (geometry c))) /\
                     0 <= point_count c) t /\
    (comparable ranges ->
       exists sorted,
         Permutation ranges sorted /\
         Sorted le_min sorted /\
         (forall k, filter (same_min k) sorted = filter (same_min k) ranges) /\
         (forall sorted',
            Permutation ranges sorted' -> Sorted le_min sorted' ->
            (forall k, filter (same_min k) sorted' = filter (same_min k) ranges) ->
            sorted' = sorted) /\
         Forall (fun c => colored_by sorted (point_count c) (color c)) t) /\
    (forall n r,
       in_color_range n r = true <->
       fle (range_min r) (of_Z n) = true /\ fle (of_Z n) (range_max r) = true) /\
    (forall n mn col, in_color_range n (mn, inf, col) = fge (of_Z n) mn) /\
    (forall counties' points' g,
       In g counties' -> List.length (points_in points' g) = 7%nat ->
       exists t',
         process_county_data counties' overlapping_ranges points' = Ok t' /\
         In (CountyRow g 7 (lit "B")) t').
Proof.
  intros H. apply process_county_data_spec in H. destruct H as (ranges & Hr & ->).
  exists ranges. split; [exact Hr|]. split; [|split; [|split; [|split; [|split]]]].
  - rewrite map_map. cbn [geometry]. apply map_id.
  - apply Forall_map, Forall_forall. intros g _. cbn [point_count geometry]. split; [reflexivity|lia].
  - intros Hc. exists (sort_ranges ranges). split; [apply sort_ranges_perm|].
    split; [now apply sort_ranges_sorted|]. split; [|split].
    + intros k. now apply sort_ranges_stable.
    + intros sorted Hp Hs Hk. now apply stable_sort_unique.
    + apply Forall_map, Forall_forall. intros g _. cbn [point_count color].
      apply classify_colored_by.
  - apply in_color_range_spec.
  - apply in_open_range.
  - intros counties' points' g Hg Hn. eexists. split.
    + unfold process_county_data. change (read_ranges overlapping_ranges)
        with (Ok [ (of_Z 0, of_Z 10, lit "A"); (of_Z 5, of_Z 15, lit "B") ]).
      cbn [bind]. reflexivity.
    + rewrite assign_colors_spec. apply in_map_iff. exists g. split; [|exact Hg].
      rewrite Hn. reflexivity.
Qed.

End Classifier.

(** *** Aggregation *)

Section Aggregation.
Context {G : Geometry}.

Lemma hits_none p regions :
  Forall (fun g => within p g = false) regions -> hits p regions = 0.
Proof.
  unfold hits. induction 1 as [|g l Hg _ IH]; simpl; [reflexivity|].
  rewrite Hg. exact IH.
Qed.

Lemma hits_bounds p regions : 0 <= hits p regions.
Proof.
  unfold hits. induction regions as [|g l IH]; simpl; [lia|].
  destruct (within p g); lia.
Qed.

Lemma hits_le_1 p regions : non_overlapping regions -> hits p regions <= 1.
Proof.
  unfold non_overlapping. induction 1 as [|g l Hg _ IH]; [unfold hits; simpl; lia|].
  unfold hits in *. simpl. destruct (within p g) eqn:E; [|lia].
  fold (hits p l). rewrite hits_none; [lia|].
  rewrite Forall_forall in *. intros g' Hin. now apply Hg.
Qed.

Lemma counts_cons regions p points :
  total (counts regions (p :: points))
  = hits (geom p) regions + total (counts regions points).
Proof.
  unfold counts, count_points, hits. rewrite !map_map.
  cbn [point_count]. unfold total.
  induction regions as [|g l IH]; cbn [map fold_right]; [reflexivity|].
  rewrite IH. unfold points_in. cbn [filter].
  destruct (within (geom p) g); cbn [List.length]; lia.
Qed.

Lemma counts_nil regions : total (counts regions []) = 0.
Proof.
  unfold counts, count_points. rewrite map_map. simpl.
  induction regions; simpl; lia.
Qed.

(** C3: the counting loop gives every region a count, zero included and also
    when there are no points at all, and when no two regions overlap the
    counts add up to at most the number of points. *)
Theorem aggregation_counts_every_region regions points :
  non_overlapping regions ->
  map geometry (count_points regions points) = regions /\
  Forall (fun c => 0 <= point_count c) (count_points regions points) /\
  Forall (fun c => point_count c = 0) (count_points regions []) /\
  total (map point_count (count_points regions points)) <= Z.of_nat (List.length points).
Proof.
  intros Hno. repeat split.
  - unfold count_points. rewrite map_map. simpl. apply map_id.
  - unfold count_points. apply Forall_map, Forall_forall. intros g _. simpl. lia.
  - unfold count_points. apply Forall_map, Forall_forall. intros g _. reflexivity.
  - fold (counts regions points). induction points as [|p points IH].
    + rewrite counts_nil. simpl. lia.
    + rewrite counts_cons. pose proof (hits_le_1 (geom p) _ Hno).
      simpl List.length. lia.
Qed.

End Aggregation.

(* ================================================================= *)
(** ** Proofs: the run of [generate_map] *)

(** *** The taxon filter *)

Lemma filter_filter {A} (p q : A -> bool) l :
  filter p (filter q l) = filter (fun x => q x && p x) l.
Proof.
  induction l as [|a l IH]; simpl; [reflexivity|].
  destruct (q a); simpl; [|exact IH]. destruct (p a); now rewrite IH.
Qed.

Section Filter.
Context {RT : Runtime}.

Lemma filter_taxon_filter fam gen spec data :
  filter_taxon fam gen spec data = filter (taxon_match fam gen spec) data.
Proof.
  unfold filter_taxon, taxon_match. rewrite !filter_filter.
  apply filter_ext. intros r. now rewrite andb_assoc.
Qed.

Lemma taxon_test_spec wildcard choice field :
  taxon_test wildcard choice field = true <->
  (choice = wildcard /\ str_strip field <> []) \/
  (choice <> wildcard /\ str_lower field = str_lower choice).
Proof.
  unfold taxon_test. destruct (str_eqb choice wildcard) eqn:E.
  - apply str_eqb_eq in E. rewrite negb_true_iff. split.
    + intros H. left. split; [assumption|]. intros K.
      rewrite K in H. now rewrite str_eqb_refl in H.
    + intros [[_ H]|[H _]]; [|contradiction].
      destruct (str_eqb (str_strip field) []) eqn:K; [|reflexivity].
      apply str_eqb_eq in K. contradiction.
  - assert (choice <> wildcard).
    { intros K. apply str_eqb_eq in K. congruence. }
    rewrite str_eqb_eq. split; [auto|]. intros [[K _]|[_ K]]; [contradiction|assumption].
Qed.

(** C8: the filter keeps exactly the rows that pass the three tests, one per
    taxon column and joined by AND: with the wild card the column must be
    non-empty after stripping, with a literal it must equal the literal up to
    case; so wild-card family and genus with a literal species keep the rows
    whose species equals it up to case and whose family and genus are
    non-empty. *)
Theorem record_filter_is_conjunction fam gen spec data :
  filter_taxon fam gen spec data = filter (taxon_match fam gen spec) data /\
  (forall r,
     taxon_match fam gen spec r = true <->
     ((fam = lit "All" /\ str_strip (family r) <> []) \/
      (fam <> lit "All" /\ str_lower (family r) = str_lower fam)) /\
     ((gen = lit "All" /\ str_strip (genus r) <> []) \/
      (gen <> lit "All" /\ str_lower (genus r) = str_lower gen)) /\
     ((spec = lit "all" /\ str_strip (species r) <> []) \/
      (spec <> lit "all" /\ str_lower (species r) = str_lower spec))) /\
  (spec <> lit "all" ->
   forall r,
     In r (filter_taxon (lit "All") (lit "All") spec data) <->
     In r data /\ str_lower (species r) = str_lower spec /\
     str_strip (family r) <> [] /\ str_strip (genus r) <> []).
Proof.
  split; [apply filter_taxon_filter|]. split.
  - intros r. unfold taxon_match. rewrite !andb_true_iff, !taxon_test_spec. tauto.
  - intros Hs r. rewrite filter_taxon_filter, filter_In.
    unfold taxon_match. rewrite !andb_true_iff, !taxon_test_spec.
    intuition congruence.
Qed.

End Filter.

Section MapFacts.
Context {RT : Runtime} {G : Geometry}.

(** The year that the run works with. *)
Lemma read_year_inv a y :
  read_year a = Ok y <-> int_of_str (year_var a) = Ok y /\ (y <=? 0) = false.
Proof.
  unfold read_year. destruct (int_of_str (year_var a)) as [n|e]; cbn [bind].
  - destruct (n <=? 0) eqn:E; split.
    + discriminate.
    + intros [[= ->] K]. congruence.
    + intros [= ->]. auto.
    + intros [[= ->] _]. reflexivity.
  - split; [discriminate|]. intros [K _]. discriminate K.
Qed.

(** The [try] block, path by path, with the state of the loading window at
    its end. *)
Lemma generate_map_body_eq a data counties :
  generate_map_body a data counties Shown =
  match int_of_str (year_var a) with
  | Raise ValueError => (Ok (Returned (Toast "Please enter a valid year" true)), Destroyed)
  | Raise e => (Raise e, Shown)
  | Ok selected_year =>
    if selected_year <=? 0 then (Raise TclError, Destroyed)
    else if negb (forallb (fun col => existsb (String.eqb col) (columns data))
                          required_columns)
    then (Raise ValueError, Destroyed)
    else if unselected (str_strip (selected_family a)) (lit "Select Family")
            || unselected (str_strip (selected_genus a)) (lit "Select Genus")
            || unselected (str_strip (selected_species a)) (lit "Select Species")
    then (Ok (Returned (MessageBox "Missing Input"
                                   "Please select Family, Genus, and Species.")),
          Destroyed)
    else
      match selected_rows a data with
      | [] => (Ok (Returned (Toast "No data found for selected species" true)), Destroyed)
      | _ :: _ =>
        match dissolve counties with
        | Raise e => (Raise e, Shown)
        | Ok boundary =>
          match clip boundary (to_points (selected_rows a data)) with
          | [] => (Ok (Returned (Toast "No points found within Montana's boundaries" true)),
                   Destroyed)
          | _ :: _ =>
            match float_of_int selected_year with
            | Raise e => (Raise e, Shown)
            | Ok cutoff =>
              match process_county_data counties (color_ranges a)
                      (filter (year_at_most cutoff) (clipped_points a data boundary)) with
              | Raise e => (Raise e, Shown)
              | Ok map_a_counties =>
                match process_county_data counties (color_ranges a)
                        (clipped_points a data boundary) with
                | Raise e => (Raise e, Shown)
                | Ok map_b_counties =>
                  (Ok (Generated
                         (Maps map_a_counties map_b_counties selected_year
                               (str_strip (selected_family a) ++ lit " > "
                                ++ str_strip (selected_genus a) ++ lit " > "
                                ++ str_strip (selected_species a)))),
                   Shown)
                end
              end
            end
          end
        end
      end
  end.
Proof.
  unfold generate_map_body, year_or_return, except_ValueError, gbind, lift, gret, graise,
    destroy, clipped_points, selected_rows.
  destruct (int_of_str (year_var a)) as [y|[]]; try reflexivity.
  destruct (y <=? 0); [reflexivity|].
  destruct (negb _); [reflexivity|].
  match goal with
  | |- context [if ?c then _ else _] => destruct c
  end; [reflexivity|].
  destruct (filter_taxon _ _ _ _) as [|r0 filtered]; [reflexivity|].
  destruct (dissolve counties) as [boundary|e]; [|reflexivity].
  destruct (clip boundary _) as [|p0 points]; [reflexivity|].
  destruct (float_of_int y) as [cutoff|e]; [|reflexivity].
  destruct (process_county_data counties (color_ranges a) (filter _ _)) as [ta|e];
    [|reflexivity].
  destruct (process_county_data counties (color_ranges a) _) as [tb|e]; reflexivity.
Qed.

Lemma generate_map_body_generated a data counties m loading :
  generate_map_body a data counties Shown = (Ok (Generated m), loading) ->
  loading = Shown /\
  exists boundary cutoff,
    read_year a = Ok (selected_year m) /\
    dissolve counties = Ok boundary /\
    float_of_int (selected_year m) = Ok cutoff /\
    clipped_points a data boundary <> [] /\
    process_county_data counties (color_ranges a)
      (filter (year_at_most cutoff) (clipped_points a data boundary)) = Ok (map_a m) /\
    process_county_data counties (color_ranges a)
      (clipped_points a data boundary) = Ok (map_b m).
Proof.
  rewrite generate_map_body_eq. unfold clipped_points.
  destruct (int_of_str (year_var a)) as [y|[]] eqn:Ei; try discriminate.
  destruct (y <=? 0) eqn:Ey0; [discriminate|].
  destruct (negb _); [discriminate|].
  match goal with
  | |- context [if ?c then _ else _] => destruct c
  end; [discriminate|].
  destruct (selected_rows a data) as [|r0 filtered]; [discriminate|].
  destruct (dissolve counties) as [boundary|e]; [|discriminate].
  destruct (clip boundary _) as [|p0 points] eqn:Ec; [discriminate|].
  destruct (float_of_int y) as [cutoff|e] eqn:Ey; [|discriminate].
  destruct (process_county_data counties (color_ranges a) (filter _ _)) as [ta|e] eqn:Ea;
    [|discriminate].
  destruct (process_county_data counties (color_ranges a) (reproject _)) as [tb|e] eqn:Eb;
    [|discriminate].
  intros [= <- <-]. split; [reflexivity|].
  cbn [selected_year map_a map_b]. exists boundary, cutoff.
  split; [now apply read_year_inv|]. rewrite Ec. repeat split; auto.
  discriminate.
Qed.

Lemma generate_map_try_generated a data counties m :
  generate_map_try a data counties = Ok (Generated m) ->
  exists boundary cutoff,
    read_year a = Ok (selected_year m) /\
    dissolve counties = Ok boundary /\
    float_of_int (selected_year m) = Ok cutoff /\
    clipped_points a data boundary <> [] /\
    process_county_data counties (color_ranges a)
      (filter (year_at_most cutoff) (clipped_points a data boundary)) = Ok (map_a m) /\
    process_county_data counties (color_ranges a)
      (clipped_points a data boundary) = Ok (map_b m).
Proof.
  unfold generate_map_try.
  destruct (generate_map_body a data counties Shown) as [r loading] eqn:E.
  cbn [fst]. intros ->. now apply generate_map_body_generated in E.
Qed.

Context {MP : Matplotlib}.

Lemma generate_map_success a a' :
  generate_map a = (success_notice, a') ->
  exists data counties m,
    excel_data a = Some data /\ montana_counties a = Some counties /\
    generate_map_try a data counties = Ok (Generated m) /\
    a' = set_current_maps a m.
Proof.
  unfold generate_map, generate_map_try.
  destruct (excel_data a) as [data|]; [|discriminate].
  destruct (montana_counties a) as [counties|]; [|discriminate].
  pose proof (generate_map_body_eq a data counties) as Eb.
  destruct (generate_map_body a data counties Shown) as [[[n|m]|e] loading] eqn:E.
  - intros [= -> <-]. exfalso. revert Eb.
    destruct (int_of_str (year_var a)) as [y|[]]; try discriminate.
    destruct (y <=? 0); [discriminate|].
    destruct (negb _); [discriminate|].
    match goal with
    | |- context [if ?c then _ else _] => destruct c
    end; [discriminate|].
    destruct (selected_rows a data); [discriminate|].
    destruct (dissolve counties); [|discriminate].
    destruct (clip _ _); [discriminate|].
    destruct (float_of_int y); [|discriminate].
    destruct (process_county_data _ _ (filter _ _)); [|discriminate].
    destruct (process_county_data _ _ _); discriminate.
  - destruct (generate_map_body_generated _ _ _ _ _ E) as [-> _].
    unfold gbind, lift, generate_map_except.
    destruct (display_maps (set_current_maps a m)) as [u|e']; cbn [destroy].
    + intros [= <-]. exists data, counties, m. rewrite E. repeat split; reflexivity.
    + discriminate.
  - unfold generate_map_except. destruct (destroy loading) as [[]]; discriminate.
Qed.

(** How [generate_map] ends, by the end of its [try] block. *)
Lemma generate_map_cases a data counties :
  excel_data a = Some data -> montana_counties a = Some counties ->
  generate_map a =
  match generate_map_body a data counties Shown with
  | (Ok (Returned n), _) => (n, a)
  | (Ok (Generated m), _) =>
    match display_maps (set_current_maps a m) with
    | Ok _ => (success_notice, set_current_maps a m)
    | Raise e => (ToastException e, set_current_maps a m)
    end
  | (Raise e, Shown) => (ToastException e, a)
  | (Raise e, Destroyed) => (Escaped TclError, a)
  end.
Proof.
  intros Hd Hc. unfold generate_map. rewrite Hd, Hc.
  destruct (generate_map_body a data counties Shown) as [[[n|m]|e] loading] eqn:E.
  - reflexivity.
  - destruct (generate_map_body_generated _ _ _ _ _ E) as [-> _].
    unfold gbind, lift, generate_map_except.
    destruct (display_maps (set_current_maps a m)); reflexivity.
  - destruct loading; reflexivity.
Qed.


End MapFacts.

(** *** Empty outcomes *)

Section Outcomes.
Context {RT : Runtime} {G : Geometry} {MP : Matplotlib}.

Lemma generate_map_no_data a data counties :
  inputs_accepted a data counties ->
  selected_rows a data = [] ->
  generate_map a = (no_data_notice, a).
Proof.
  intros (Hd & Hc & [y Hy] & Hcol & Hf & Hg & Hs) He.
  apply read_year_inv in Hy. destruct Hy as [Hy Hy0].
  unfold generate_map. rewrite Hd, Hc, generate_map_body_eq, Hy, Hy0, Hcol, Hf, Hg, Hs.
  cbn [negb orb]. rewrite He. reflexivity.
Qed.

Lemma generate_map_no_points a data counties boundary :
  inputs_accepted a data counties ->
  selected_rows a data <> [] ->
  dissolve counties = Ok boundary ->
  clip boundary (to_points (selected_rows a data)) = [] ->
  generate_map a = (no_points_notice, a).
Proof.
  intros (Hd & Hc & [y Hy] & Hcol & Hf & Hg & Hs) Hne Hb He.
  apply read_year_inv in Hy. destruct Hy as [Hy Hy0].
  unfold generate_map. rewrite Hd, Hc, generate_map_body_eq, Hy, Hy0, Hcol, Hf, Hg, Hs.
  cbn [negb orb]. rewrite Hb, He.
  destruct (selected_rows a data) as [|r0 l]; [now elim Hne|]. reflexivity.
Qed.

(** C9: when no row passes the taxon filter, and when no point survives the
    boundary clip, [generate_map] ends with a notice of its own, different
    from each other, from the success notice and from the notice of a caught
    exception, and leaves the stored maps as they were. *)
Theorem empty_outcomes_are_distinct a data counties :
  inputs_accepted a data counties ->
  (selected_rows a data = [] ->
   generate_map a = (no_data_notice, a)) /\
  (forall boundary,
     selected_rows a data <> [] ->
     dissolve counties = Ok boundary ->
     clip boundary (to_points (selected_rows a data)) = [] ->
     generate_map a = (no_points_notice, a)) /\
  no_data_notice <> no_points_notice /\
  no_data_notice <> success_notice /\
  no_points_notice <> success_notice /\
  (forall e, no_data_notice <> ToastException e /\ no_points_notice <> ToastException e).
Proof.
  intros H. split; [|split].
  - intros He. now apply (generate_map_no_data a data counties).
  - intros boundary Hne Hb He.
    now apply (generate_map_no_points a data counties boundary).
  - repeat split; discriminate.
Qed.

(** *** Rows whose conversion raises *)

Lemma convert_coordinates_raise r e :
  convert_coordinates_try r = Raise e -> convert_coordinates r = origin.
Proof. unfold convert_coordinates. now intros ->. Qed.

Lemma clip_drops_origin boundary r l1 l2 :
  convert_coordinates r = origin ->
  within origin boundary = false ->
  clip boundary (to_points (l1 ++ r :: l2)) = clip boundary (to_points (l1 ++ l2)).
Proof.
  intros Hr Hb. unfold clip, to_points. rewrite !map_app, !filter_app.
  f_equal. cbn [map filter geom]. now rewrite Hr, Hb.
Qed.

Lemma filter_taxon_app fam gen spec l1 l2 :
  filter_taxon fam gen spec (l1 ++ l2)
  = filter_taxon fam gen spec l1 ++ filter_taxon fam gen spec l2.
Proof. rewrite !filter_taxon_filter. apply filter_app. Qed.

Lemma clipped_points_drop a cols boundary r l1 l2 :
  convert_coordinates r = origin ->
  within origin boundary = false ->
  clipped_points a (Table cols (l1 ++ r :: l2)) boundary
  = clipped_points a (Table cols (l1 ++ l2)) boundary.
Proof.
  intros Hr Hb. unfold clipped_points, selected_rows. cbn [rows]. f_equal.
  rewrite !filter_taxon_app.
  change (r :: l2) with ([r] ++ l2). rewrite filter_taxon_app.
  rewrite (filter_taxon_filter _ _ _ [r]). cbn [filter].
  destruct (taxon_match _ _ _ r); [|reflexivity].
  cbn [app]. now apply clip_drops_origin.
Qed.

(** C10: a row whose conversion raises is placed at (0, 0); when that point
    is outside the boundary the clip removes the row, and both maps are the
    ones built from the data without it. *)
Theorem fallback_point_is_clipped r e boundary :
  convert_coordinates_try r = Raise e ->
  within origin boundary = false ->
  convert_coordinates r = origin /\
  (forall l1 l2,
     clip boundary (to_points (l1 ++ r :: l2)) = clip boundary (to_points (l1 ++ l2))) /\
  (forall a cols l1 l2,
     clipped_points a (Table cols (l1 ++ r :: l2)) boundary
     = clipped_points a (Table cols (l1 ++ l2)) boundary) /\
  (forall a cols l1 l2 counties m,
     dissolve counties = Ok boundary ->
     generate_map_try a (Table cols (l1 ++ r :: l2)) counties = Ok (Generated m) ->
     exists cutoff,
       process_county_data counties (color_ranges a)
         (filter (year_at_most cutoff)
                 (clipped_points a (Table cols (l1 ++ l2)) boundary)) = Ok (map_a m) /\
       process_county_data counties (color_ranges a)
         (clipped_points a (Table cols (l1 ++ l2)) boundary) = Ok (map_b m)).
Proof.
  intros Hr Hb. pose proof (convert_coordinates_raise _ _ Hr) as Ho.
  split; [exact Ho|]. split; [|split].
  - intros l1 l2. now apply clip_drops_origin.
  - intros a cols l1 l2. now apply clipped_points_drop.
  - intros a cols l1 l2 counties m Hd Ht.
    apply generate_map_try_generated in Ht.
    destruct Ht as (b & cutoff & _ & Hd' & _ & _ & Ha & Hm).
    rewrite Hd in Hd'. injection Hd' as <-.
    rewrite (clipped_points_drop a cols boundary r l1 l2 Ho Hb) in Ha, Hm.
    eauto.
Qed.

End Outcomes.

(* ================================================================= *)
(** ** The statements at work on the example data *)


Lemma default_ranges_comparable :
  forall ranges, read_ranges default_ranges = Ok ranges -> comparable ranges.
Proof.
  intros ranges H. vm_compute in H. injection H as <-.
  repeat constructor.
Qed.

Lemma classifier_last_match_wins_witness :
  @process_county_data geometry_of_boxes [west_county; east_county]
     overlapping_ranges ten_specimens
  = Ok [ @CountyRow geometry_of_boxes west_county 7 (lit "B");
         CountyRow east_county 3 (lit "A") ] /\
  exists sorted,
    Forall (fun c => colored_by sorted (point_count c) (color c))
           [ @CountyRow geometry_of_boxes west_county 7 (lit "B");
             CountyRow east_county 3 (lit "A") ].
Proof.
  split; [reflexivity|].
  destruct (@classifier_last_match_wins geometry_of_boxes [west_county; east_county]
              overlapping_ranges ten_specimens _ eq_refl)
    as (ranges & Hr & _ & _ & Hc & _).
  vm_compute in Hr. injection Hr as <-.
  destruct Hc as (sorted & _ & _ & _ & _ & H); [repeat constructor|].
  exists sorted. exact H.
Defined.

(** C2 as stated fails: with the five ranges (2,10,A), (nan,nan,C),
    (1,10,B), (101,1000,D) and (1001,inf,E) the sort leaves all in place, so
    that a county of 5 points gets B, the colour of the range of minimum 1,
    while in every ascending arrangement that range stands before the range
    of minimum 2. *)
Lemma nan_minimum_defeats_the_order :
  ~ (forall counties vars points t ranges,
       @process_county_data geometry_of_boxes counties vars points = Ok t ->
       read_ranges vars = Ok ranges ->
       exists sorted,
         Permutation ranges sorted /\ ascending sorted /\
         Forall (fun c => colored_by sorted (point_count c) (color c)) t).
Proof.
  intros H.
  destruct (H [west_county] nan_ranges five_specimens
              [ @CountyRow geometry_of_boxes west_county 5 (lit "B") ]
              [ (of_Z 2, of_Z 10, lit "A"); (nan, nan, lit "C"); (of_Z 1, of_Z 10, lit "B");
                (of_Z 101, of_Z 1000, lit "D"); (of_Z 1001, inf, lit "E") ]
              eq_refl eq_refl)
    as (sorted & Hp & Ha & Hc).
  inversion Hc as [|? ? Hcol _]; subst. cbn [point_count color] in Hcol.
  destruct Hcol as [(l1 & r & l2 & E & Hr & Hm & Hb)|[_ Hw]]; [|discriminate Hw].
  assert (Hin : In r sorted) by (rewrite E; apply in_or_app; right; now left).
  apply (Permutation_in _ (Permutation_sym Hp)) in Hin.
  destruct Hin as [<-|[<-|[<-|[<-|[<-|[]]]]]]; try discriminate Hb.
  assert (HA : In (of_Z 2, of_Z 10, lit "A") sorted).
  { apply (Permutation_in _ Hp). now left. }
  rewrite E in HA. apply in_app_or in HA. destruct HA as [HA|[HA|HA]].
  - apply in_split in HA. destruct HA as (la & lb & ->).
    specialize (Ha la (of_Z 2, of_Z 10, lit "A") lb (of_Z 1, of_Z 10, lit "B") l2).
    rewrite E, <- app_assoc in Ha. specialize (Ha eq_refl). discriminate Ha.
  - discriminate HA.
  - unfold misses in Hm. rewrite Forall_forall in Hm. apply Hm in HA. discriminate HA.
Qed.

(** Two regions on either side of the prime meridian. *)
Lemma separate_regions_do_not_overlap :
  @non_overlapping geometry_of_boxes [ mk_box (-111) (-110) 44 45; mk_box 110 111 44 45 ].
Proof.
  repeat constructor. intros [px py] H.
  unfold within, geometry_of_boxes, mk_box, inside in *. cbn [existsb point_x point_y] in *.
  rewrite orb_false_r in *. apply andb_prop in H. destruct H as [H _].
  apply andb_prop in H. destruct H as [H _]. apply andb_prop in H. destruct H as [_ H].
  destruct px as [[]|[]| |[] m e]; try discriminate H; reflexivity.
Qed.

Lemma aggregation_counts_every_region_witness :
  let regions := [ mk_box (-111) (-110) 44 45; mk_box 110 111 44 45 ] in
  let points := [ Located (dms_row (lit "N"))
                          (@convert_coordinates ascii_runtime (dms_row (lit "N"))) ] in
  map geometry (@count_points geometry_of_boxes regions points) = regions /\
  total (map point_count (@count_points geometry_of_boxes regions points))
  <= Z.of_nat (List.length points).
Proof.
  cbv zeta.
  destruct (@aggregation_counts_every_region geometry_of_boxes
              [ mk_box (-111) (-110) 44 45; mk_box 110 111 44 45 ]
              [ Located (dms_row (lit "N"))
                        (@convert_coordinates ascii_runtime (dms_row (lit "N"))) ]
              separate_regions_do_not_overlap)
    as (H1 & _ & _ & H4).
  split; [exact H1|exact H4].
Defined.

Lemma dms_text_value_witness :
  dms_to_decimal (VStr (lit "44 30 15.5"))
  = Ok (fadd (fadd (decimal_value (lit "44")) (fdiv (decimal_value (lit "30")) sixty))
             (fdiv (seconds_value (lit "15.5")) thirty_six_hundred)).
Proof.
  exact (proj2 (proj1 dms_text_value (lit "44 30 15.5")
                      (lit "44") (lit "30") (lit "15.5") eq_refl)).
Defined.

Lemma numbers_and_decimal_text_unchanged_witness :
  dms_to_decimal (VInt 45) = Ok (of_Z 45) /\ exactly (of_Z 45) 45.
Proof.
  apply (proj1 (proj2 numbers_and_decimal_text_unchanged) 45). reflexivity.
Defined.

Lemma negative_hemisphere_negates_witness :
  point_y (@convert_coordinates ascii_runtime (dms_row (lit "S"))) = fneg example_lat /\
  fle (point_y (@convert_coordinates ascii_runtime (dms_row (lit "S")))) (of_Z 0) = true.
Proof.
  destruct (@negative_hemisphere_negates ascii_runtime (dms_row (lit "S"))
              example_lat (round_decimal false 1105 (-1)) eq_refl eq_refl)
    as [H _].
  destruct (H eq_refl) as [H1 H2]. destruct (H2 eq_refl) as [_ H3].
  split; [exact H1|exact H3].
Defined.

Lemma dms_to_decimal_returns_witness : returns (dms_to_decimal (VInt 45)).
Proof.
  apply (dms_to_decimal_returns (VInt 45)).
  intros n H. injection H as <-. reflexivity.
Defined.

Lemma demo_inputs_accepted species_choice :
  unselected (str_strip species_choice) (lit "Select Species") = false ->
  @inputs_accepted geometry_of_boxes (demo_app species_choice)
                   demo_table demo_counties.
Proof.
  intros H. repeat split; try reflexivity; [|exact H].
  exists 2000. reflexivity.
Qed.

Lemma empty_outcomes_are_distinct_witness :
  @generate_map ascii_runtime geometry_of_boxes plain_figure (demo_app (lit "zebra"))
  = (no_data_notice, demo_app (lit "zebra")).
Proof.
  apply (proj1 (@empty_outcomes_are_distinct ascii_runtime geometry_of_boxes plain_figure
                  (demo_app (lit "zebra")) demo_table demo_counties
                  (demo_inputs_accepted (lit "zebra") eq_refl))).
  reflexivity.
Defined.

Lemma fallback_point_is_clipped_witness :
  @convert_coordinates ascii_runtime huge_row = origin /\
  @clip geometry_of_boxes (List.concat demo_counties)
        (@to_points ascii_runtime ([dms_row (lit "N")] ++ huge_row :: [decimal_row]))
  = @clip geometry_of_boxes (List.concat demo_counties)
          (@to_points ascii_runtime ([dms_row (lit "N")] ++ [decimal_row])).
Proof.
  destruct (@fallback_point_is_clipped ascii_runtime geometry_of_boxes huge_row
              OverflowError (List.concat demo_counties) eq_refl eq_refl)
    as (H1 & H2 & _).
  split; [exact H1|apply H2].
Defined.

Lemma record_filter_is_conjunction_witness :
  In (dms_row (lit "N"))
     (@filter_taxon ascii_runtime (lit "All") (lit "All") (lit "bison")
                    (rows demo_table)) <->
  In (dms_row (lit "N")) (rows demo_table) /\
  @str_lower ascii_runtime (species (dms_row (lit "N")))
  = @str_lower ascii_runtime (lit "bison") /\
  str_strip (family (dms_row (lit "N"))) <> [] /\
  str_strip (genus (dms_row (lit "N"))) <> [].
Proof.
  apply (proj2 (proj2 (@record_filter_is_conjunction ascii_runtime (lit "All") (lit "All")
                         (lit "bison") (rows demo_table)))).
  discriminate.
Defined.

(* ================================================================= *)
(** ** Proofs: title case and the dropdowns *)

Open Scope N_scope.

Lemma isspace_visible d : 33 <= d < 127 -> isspace d = false.
Proof.
  intros H. destruct (isspace d) eqn:E; [|reflexivity].
  apply isspace_small in E; lia.
Qed.

Lemma same_letter_refl c : is_ascii c = true -> same_letter c c.
Proof. now repeat split. Qed.

Ltac leb_cases :=
  repeat match goal with
         | |- context [?a <=? ?b] => destruct (N.leb_spec a b); simpl
         end.

Lemma same_letter_lower c : is_ascii c = true -> same_letter c (ascii_lower c).
Proof.
  intros H. unfold ascii_lower.
  destruct ((65 <=? c) && (c <=? 90)) eqn:E; [|now apply same_letter_refl].
  apply andb_prop in E. destruct E as [E1 E2]. apply N.leb_le in E1, E2.
  repeat split.
  - apply N.ltb_lt. lia.
  - unfold ascii_lower. leb_cases; lia.
  - rewrite !isspace_visible by lia. reflexivity.
Qed.

Lemma same_letter_upper c : is_ascii c = true -> same_letter c (ascii_upper c).
Proof.
  intros H. unfold ascii_upper.
  destruct ((97 <=? c) && (c <=? 122)) eqn:E; [|now apply same_letter_refl].
  apply andb_prop in E. destruct E as [E1 E2]. apply N.leb_le in E1, E2.
  repeat split.
  - apply N.ltb_lt. lia.
  - unfold ascii_lower. leb_cases; lia.
  - rewrite !isspace_visible by lia. reflexivity.
Qed.

(** [title] changes no character beyond its case. *)
Lemma title_from_same s : forall b,
  forallb is_ascii s = true -> Forall2 same_letter s (title_from b s).
Proof.
  induction s as [|c s IH]; intros b H; simpl; [constructor|].
  simpl in H. apply andb_prop in H. destruct H as [Hc Hs].
  constructor; [|now apply IH].
  destruct b; [now apply same_letter_lower|now apply same_letter_upper].
Qed.

Lemma same_ascii s t : Forall2 same_letter s t -> forallb is_ascii t = true.
Proof. induction 1 as [|c c' s t (H1 & _) _ IH]; simpl; [reflexivity|]. now rewrite H1. Qed.

Lemma same_lower s t : Forall2 same_letter s t -> map ascii_lower t = map ascii_lower s.
Proof.
  induction 1 as [|c c' s t (_ & H2 & _) _ IH]; simpl; [reflexivity|]. now rewrite H2, IH.
Qed.

Lemma same_dropwhile s t :
  Forall2 same_letter s t -> Forall2 same_letter (dropwhile isspace s) (dropwhile isspace t).
Proof.
  induction 1 as [|c c' s t H Hst IH]; simpl; [constructor|].
  assert (H' := H). destruct H' as (H1 & H2 & H3). rewrite H3.
  destruct (isspace c); [exact IH|]. constructor; [exact H|exact Hst].
Qed.

Lemma same_rev s t : Forall2 same_letter s t -> Forall2 same_letter (rev s) (rev t).
Proof.
  induction 1 as [|c c' s t H Hst IH]; simpl; [constructor|].
  apply Forall2_app; [exact IH|]. constructor; [exact H|constructor].
Qed.

Lemma same_strip s t :
  Forall2 same_letter s t -> Forall2 same_letter (str_strip s) (str_strip t).
Proof.
  intros H. unfold str_strip, rdropwhile.
  apply same_rev, same_dropwhile, same_rev, same_dropwhile, H.
Qed.

Section Title.
Context {RT : Runtime} {TC : Titlecase}.

Lemma str_title_same s : forallb is_ascii s = true -> Forall2 same_letter s (str_title s).
Proof. intros H. unfold str_title. rewrite H. now apply title_from_same. Qed.

Lemma same_str_lower s t : forallb is_ascii s = true ->
  Forall2 same_letter s t -> str_lower t = str_lower s.
Proof.
  intros Hs H. unfold str_lower. rewrite Hs, (same_ascii _ _ H). now apply same_lower.
Qed.

Lemma ascii_strip s : forallb is_ascii s = true -> forallb is_ascii (str_strip s) = true.
Proof.
  intros H. destruct (str_strip_inside s) as (w1 & w2 & E).
  rewrite E, !forallb_app in H. apply andb_prop in H. destruct H as [_ H].
  apply andb_prop in H. tauto.
Qed.

(** Lower-casing the stripped title of an ASCII text gives the lower-cased
    stripped text. *)
Lemma lower_strip_title s :
  forallb is_ascii s = true ->
  str_lower (str_strip (str_title s)) = str_lower (str_strip s).
Proof.
  intros H. apply same_str_lower; [now apply ascii_strip|].
  apply same_strip, str_title_same, H.
Qed.

(** Stripping and titling ASCII text commute. *)
Lemma space_not_letter c : isspace c = true -> is_ascii_letter c = false.
Proof.
  intros H. destruct (N.ltb_spec c 127) as [L|L].
  - apply isspace_small in H; [|exact L]. unfold is_ascii_letter.
    apply orb_false_iff. split; apply andb_false_iff; rewrite !N.leb_gt; lia.
  - unfold is_ascii_letter.
    apply orb_false_iff. split; apply andb_false_iff; rewrite !N.leb_gt; lia.
Qed.

Lemma dropwhile_title s :
  forallb is_ascii s = true ->
  dropwhile isspace (title_from false s) = title_from false (dropwhile isspace s).
Proof.
  induction s as [|c s IH]; simpl; intros H; [reflexivity|].
  apply andb_prop in H. destruct H as [Hc Hs].
  destruct (same_letter_upper c Hc) as (_ & _ & ->).
  destruct (isspace c) eqn:E; [|reflexivity].
  rewrite (space_not_letter c E). now apply IH.
Qed.

Lemma title_from_snoc l : forall b c,
  exists c', title_from b (l ++ [c]) = title_from b l ++ [c'] /\
             (is_ascii c = true -> isspace c' = isspace c).
Proof.
  induction l as [|x l IH]; intros b c; simpl.
  - eexists. split; [reflexivity|]. intros H.
    destruct b; [now destruct (same_letter_lower c H) as (_ & _ & ->)
                |now destruct (same_letter_upper c H) as (_ & _ & ->)].
  - destruct (IH (is_ascii_letter x) c) as (c' & -> & H). eauto.
Qed.

Lemma rdropwhile_snoc p l c :
  rdropwhile p (l ++ [c]) = if p c then rdropwhile p l else l ++ [c].
Proof.
  unfold rdropwhile. rewrite rev_app_distr. simpl.
  destruct (p c); [reflexivity|]. simpl. now rewrite rev_involutive.
Qed.

Lemma rdropwhile_title s : forall b,
  forallb is_ascii s = true ->
  rdropwhile isspace (title_from b s) = title_from b (rdropwhile isspace s).
Proof.
  induction s as [|c s IH] using rev_ind; intros b H; [reflexivity|].
  rewrite forallb_app in H. apply andb_prop in H. destruct H as [Hs Hc].
  simpl in Hc. rewrite andb_true_r in Hc.
  destruct (title_from_snoc s b c) as (c' & E & Hsp).
  rewrite E, !rdropwhile_snoc, (Hsp Hc).
  destruct (isspace c); [now apply IH|now symmetry].
Qed.

Lemma ascii_dropwhile p s : forallb is_ascii s = true -> forallb is_ascii (dropwhile p s) = true.
Proof.
  intros H. destruct (dropwhile_suffix p s) as (w & E).
  rewrite E, forallb_app in H. apply andb_prop in H. tauto.
Qed.

Lemma strip_title s :
  forallb is_ascii s = true ->
  str_strip (str_title s) = title_from false (str_strip s).
Proof.
  intros H. unfold str_title. rewrite H. unfold str_strip.
  rewrite dropwhile_title by exact H. apply rdropwhile_title. now apply ascii_dropwhile.
Qed.

Lemma ascii_lower_inv c x :
  ascii_lower c = x -> 97 <= x <= 122 -> c = x \/ c = x - 32.
Proof.
  unfold ascii_lower. destruct ((65 <=? c) && (c <=? 90)); intros <- H; [right|left]; lia.
Qed.

(** The title of an ASCII text whose lower-case form is the word all is the
    wild card of the family and genus boxes. *)
Lemma title_of_all t :
  map ascii_lower t = lit "all" -> title_from false t = lit "All".
Proof.
  destruct t as [|c1 [|c2 [|c3 [|c4 t]]]]; try discriminate.
  intros E. change (lit "all") with [97; 108; 108] in E.
  change (lit "All") with [65; 108; 108].
  injection E as E1 E2 E3.
  apply ascii_lower_inv in E1, E2, E3; try lia.
  destruct E1 as [->| ->], E2 as [->| ->], E3 as [->| ->]; reflexivity.
Qed.

Lemma lower_of_all s :
  forallb is_ascii s = true ->
  (str_strip (str_title s) = lit "All" <-> str_lower (str_strip s) = lit "all").
Proof.
  intros H. split; intros E.
  - rewrite <- lower_strip_title by exact H. rewrite E. reflexivity.
  - rewrite strip_title by exact H. apply title_of_all.
    unfold str_lower in E. now rewrite ascii_strip in E.
Qed.

End Title.

(* ================================================================= *)
(** ** Proofs: sorted lists of names *)

Lemma str_ltb_irrefl a : str_ltb a a = false.
Proof.
  induction a as [|x a IH]; simpl; [reflexivity|].
  rewrite N.ltb_irrefl, N.eqb_refl, IH. reflexivity.
Qed.

Lemma str_ltb_trans a : forall b c,
  str_ltb a b = true -> str_ltb b c = true -> str_ltb a c = true.
Proof.
  induction a as [|x a IH]; intros [|y b] [|z c]; simpl; try discriminate; auto.
  rewrite !orb_true_iff, !andb_true_iff, !N.ltb_lt, !N.eqb_eq.
  intros [H1|[H1 H1']] [H2|[H2 H2']].
  - left. lia.
  - left. lia.
  - left. lia.
  - right. split; [lia|]. eapply IH; eauto.
Qed.

Lemma str_ltb_total a : forall b,
  str_ltb a b = false -> str_ltb b a = false -> a = b.
Proof.
  induction a as [|x a IH]; intros [|y b]; simpl; try discriminate; auto.
  rewrite !orb_false_iff, !andb_false_iff, !N.ltb_ge, !N.eqb_neq.
  intros [H1 H1'] [H2 H2'].
  assert (x = y) by lia. subst y. f_equal. apply IH.
  - destruct H1'; [congruence|assumption].
  - destruct H2'; [congruence|assumption].
Qed.

Lemma insert_str_in x y l : In y (insert_str x l) <-> y = x \/ In y l.
Proof.
  induction l as [|z l IH]; simpl; [intuition|].
  destruct (str_ltb z x); simpl; rewrite ?IH; intuition.
Qed.

Lemma py_sorted_in y l : In y (py_sorted l) <-> In y l.
Proof.
  induction l as [|x l IH]; simpl; [tauto|].
  rewrite insert_str_in, IH. intuition.
Qed.

Lemma series_unique_in y l : In y (series_unique l) <-> In y l.
Proof.
  induction l as [|x l IH]; simpl; [tauto|].
  rewrite filter_In, IH, negb_true_iff.
  destruct (str_eqb y x) eqn:E.
  - apply str_eqb_eq in E. subst. intuition.
  - split; [tauto|]. intros [->|H]; [|tauto].
    rewrite str_eqb_refl in E. discriminate.
Qed.

Lemma series_unique_NoDup l : NoDup (series_unique l).
Proof.
  induction l as [|x l IH]; simpl; constructor.
  - rewrite filter_In, str_eqb_refl. simpl. intros [_ [=]].
  - now apply NoDup_filter.
Qed.

(** Inserting a new name into a strictly ascending list keeps it so. *)
Lemma insert_str_sorted x l :
  StronglySorted str_lt l -> ~ In x l -> StronglySorted str_lt (insert_str x l).
Proof.
  induction 1 as [|y l Hl IH Hy]; intros Hx; simpl.
  - constructor; constructor.
  - destruct (str_ltb y x) eqn:E.
    + constructor.
      * apply IH. intros ?. apply Hx. now right.
      * apply Forall_forall. intros z Hz. apply insert_str_in in Hz.
        destruct Hz as [->|Hz]; [exact E|]. rewrite Forall_forall in Hy. now apply Hy.
    + assert (Hxy : str_lt x y).
      { unfold str_lt. destruct (str_ltb x y) eqn:E'; [reflexivity|].
        elim Hx. left. symmetry. now apply str_ltb_total. }
      constructor; [now constructor|].
      constructor; [exact Hxy|].
      rewrite Forall_forall in *. intros z Hz.
      eapply str_ltb_trans; [exact Hxy|]. now apply Hy.
Qed.

Lemma py_sorted_sorted l : NoDup l -> StronglySorted str_lt (py_sorted l).
Proof.
  induction 1 as [|x l Hx Hl IH]; simpl; [constructor|].
  apply insert_str_sorted; [exact IH|]. now rewrite py_sorted_in.
Qed.

Lemma sorted_filter {A} (R : A -> A -> Prop) (p : A -> bool) l :
  StronglySorted R l -> StronglySorted R (filter p l).
Proof.
  induction 1 as [|x l Hl IH Hx]; simpl; [constructor|].
  destruct (p x); [|exact IH]. constructor; [exact IH|].
  rewrite Forall_forall in *. intros y Hy. apply filter_In in Hy. now apply Hx.
Qed.

Section DropdownFacts.
Context {RT : Runtime} {TC : Titlecase} {G : Geometry} {MP : Matplotlib}.

Lemma valid_names_sorted l : StronglySorted str_lt (valid_names l).
Proof. apply sorted_filter, py_sorted_sorted, series_unique_NoDup. Qed.

Lemma valid_names_in s l : In s (valid_names l) <-> valid_name s = true /\ In s l.
Proof. unfold valid_names. rewrite filter_In, py_sorted_in, series_unique_in. tauto. Qed.

End DropdownFacts.

Section DropdownTheorems.
Context {RT : Runtime} {TC : Titlecase} {G : Geometry} {MP : Matplotlib}.

Lemma where_inv data col field test rs l :
  where_ data col field test rs = Ok l ->
  has_column data col = true /\ l = filter (fun r => test (field r)) rs.
Proof. unfold where_. destruct (has_column data col); [|discriminate]. now intros [= <-]. Qed.

Lemma column_inv data col field rs l :
  column data col field rs = Ok l -> has_column data col = true /\ l = map field rs.
Proof. unfold column. destruct (has_column data col); [|discriminate]. now intros [= <-]. Qed.

Lemma str_eqb_neq a b : str_eqb a b = false <-> a <> b.
Proof.
  split.
  - intros H E. apply str_eqb_eq in E. congruence.
  - intros H. destruct (str_eqb a b) eqn:E; [|reflexivity]. apply str_eqb_eq in E. contradiction.
Qed.

(** What [update_species_dropdown] does once both choices are made. *)
Lemma update_species_dropdown_inv a d a' d' :
  update_species_dropdown a d = Ok (a', d') ->
  str_strip (selected_family a) <> lit "Select Family" ->
  str_strip (selected_genus a) <> lit "Select Genus" ->
  exists data,
    excel_data a = Some data /\
    a' = select a (selected_family a) (selected_genus a) (lit "Select Species") /\
    d' = Dropdowns (family_values d) (genus_values d)
           (lit "all" ::
            valid_names
              (map species
                 (filter (fun r => taxon_test (lit "All") (str_strip (selected_genus a)) (genus r))
                    (filter (fun r => taxon_test (lit "All") (str_strip (selected_family a)) (family r))
                       (rows data))))).
Proof.
  intros H Hf Hg. unfold update_species_dropdown in H.
  apply str_eqb_neq in Hf, Hg. rewrite Hf, Hg in H. cbn [orb] in H.
  destruct (excel_data a) as [data|]; [|discriminate].
  destruct (where_ data "family" _ _ _) as [l1|] eqn:E1; [|discriminate]. cbn [bind] in H.
  destruct (where_ data "genus" _ _ _) as [l2|] eqn:E2; [|discriminate]. cbn [bind] in H.
  destruct (column data "species" _ _) as [l3|] eqn:E3; [|discriminate]. cbn [bind] in H.
  apply where_inv in E1, E2. apply column_inv in E3.
  destruct E1 as [_ ->], E2 as [_ ->], E3 as [_ ->].
  injection H as <- <-. exists data. auto.
Qed.

(** A species that the species box lists belongs to a row of the chosen
    family and genus. *)
Lemma listed_species_row a d a' d' valid_species s :
  update_species_dropdown a d = Ok (a', d') ->
  species_values d' = lit "all" :: valid_species ->
  In s valid_species ->
  exists data r,
    excel_data a = Some data /\ In r (rows data) /\ species r = s /\
    valid_name s = true /\
    taxon_test (lit "All") (str_strip (selected_family a)) (family r) = true /\
    taxon_test (lit "All") (str_strip (selected_genus a)) (genus r) = true /\
    a' = select a (selected_family a) (selected_genus a) (lit "Select Species").
Proof.
  intros H Hv Hs.
  destruct (str_eqb (str_strip (selected_family a)) (lit "Select Family")) eqn:Ef.
  { unfold update_species_dropdown in H. rewrite Ef in H. cbn [orb] in H.
    injection H as <- <-. discriminate. }
  destruct (str_eqb (str_strip (selected_genus a)) (lit "Select Genus")) eqn:Eg.
  { unfold update_species_dropdown in H. rewrite Ef, Eg in H. cbn [orb] in H.
    injection H as <- <-. discriminate. }
  apply str_eqb_neq in Ef, Eg.
  destruct (update_species_dropdown_inv a d a' d' H Ef Eg) as (data & Hd & -> & ->).
  cbn [species_values] in Hv. injection Hv as <-.
  apply valid_names_in in Hs. destruct Hs as [Hvalid Hin].
  apply in_map_iff in Hin. destruct Hin as (r & <- & Hin).
  apply filter_In in Hin. destruct Hin as [Hin Hgen].
  apply filter_In in Hin. destruct Hin as [Hin Hfam].
  exists data, r. repeat split; auto.
Qed.

(** X1: the species box after an update with both choices made: the wild card
    first, then, strictly ascending and so without repetition, exactly the
    species of the rows of the chosen family and genus that are neither
    blank nor the text nan; the species selection is back at its
    placeholder. *)
Theorem species_dropdown_lists_the_species a d a' d' :
  update_species_dropdown a d = Ok (a', d') ->
  str_strip (selected_family a) <> lit "Select Family" ->
  str_strip (selected_genus a) <> lit "Select Genus" ->
  exists data valid_species,
    excel_data a = Some data /\
    species_values d' = lit "all" :: valid_species /\
    StronglySorted str_lt valid_species /\
    (forall s,
       In s valid_species <->
       valid_name s = true /\
       exists r, In r (rows data) /\ species r = s /\
         taxon_test (lit "All") (str_strip (selected_family a)) (family r) = true /\
         taxon_test (lit "All") (str_strip (selected_genus a)) (genus r) = true) /\
    selected_species a' = lit "Select Species" /\
    selected_family a' = selected_family a /\
    selected_genus a' = selected_genus a /\
    family_values d' = family_values d /\
    genus_values d' = genus_values d.
Proof.
  intros H Hf Hg.
  destruct (update_species_dropdown_inv a d a' d' H Hf Hg) as (data & Hd & -> & ->).
  exists data. eexists. split; [exact Hd|]. split; [reflexivity|].
  split; [apply valid_names_sorted|]. split; [|repeat split].
  intros s. rewrite valid_names_in, in_map_iff. split.
  - intros (Hv & r & <- & Hin).
    apply filter_In in Hin. destruct Hin as [Hin Hgen].
    apply filter_In in Hin. destruct Hin as [Hin Hfam]. eauto 8.
  - intros (Hv & r & Hin & <- & Hfam & Hgen). split; [exact Hv|].
    exists r. split; [reflexivity|]. apply filter_In. split; [|exact Hgen].
    apply filter_In. auto.
Qed.

Lemma filter_taxon_keeps fam gen spec data r :
  In r data ->
  taxon_test (lit "All") fam (family r) = true ->
  taxon_test (lit "All") gen (genus r) = true ->
  taxon_test (lit "all") spec (species r) = true ->
  filter_taxon fam gen spec data <> [].
Proof.
  intros Hin Hf Hg Hs E.
  assert (K : In r (filter_taxon fam gen spec data)).
  { rewrite filter_taxon_filter. apply filter_In. split; [exact Hin|].
    unfold taxon_match. now rewrite Hf, Hg, Hs. }
  rewrite E in K. exact K.
Qed.

(** A valid name passes the test of [generate_map] for itself. *)
Lemma valid_name_passes wildcard s :
  valid_name s = true -> str_strip s = s -> taxon_test wildcard (str_strip s) s = true.
Proof.
  intros Hv Hs. rewrite Hs. unfold valid_name in Hv. apply andb_prop in Hv.
  destruct Hv as [Hv _]. rewrite Hs in Hv. unfold taxon_test.
  destruct (str_eqb s wildcard); [now rewrite Hs|apply str_eqb_refl].
Qed.

(** When the taxon filter keeps a row, [generate_map] does not answer that
    no data was found. *)
Lemma generate_map_found a data :
  excel_data a = Some data ->
  selected_rows a data <> [] ->
  fst (generate_map a) <> no_data_notice.
Proof.
  intros Hd Hne.
  destruct (montana_counties a) as [counties|] eqn:Hc;
    [|unfold generate_map; rewrite Hd, Hc; intros K; discriminate K].
  rewrite (generate_map_cases a data counties Hd Hc), generate_map_body_eq.
  destruct (int_of_str (year_var a)) as [y|[]]; try (intros K; discriminate K).
  destruct (y <=? 0)%Z; [intros K; discriminate K|].
  destruct (negb _); [intros K; discriminate K|].
  match goal with
  | |- context [if ?c then _ else _] => destruct c
  end; [intros K; discriminate K|].
  destruct (selected_rows a data) as [|r0 filtered]; [now elim Hne|].
  destruct (dissolve counties) as [boundary|e]; [|intros K; discriminate K].
  destruct (clip boundary _) as [|p0 points]; [intros K; discriminate K|].
  destruct (float_of_int y) as [cutoff|e]; [|intros K; discriminate K].
  destruct (process_county_data counties (color_ranges a) (filter _ _)) as [ta|e];
    [|intros K; discriminate K].
  destruct (process_county_data counties (color_ranges a) _) as [tb|e];
    [|intros K; discriminate K].
  destruct (display_maps _); intros K; discriminate K.
Qed.

(** X2: choosing a species that the species box lists (one without white space
    around it, as [load_excel] leaves the names) never ends in the notice
    that no data was found: the taxon filter of [generate_map] keeps at
    least one row. *)
Theorem offered_species_is_found a d a' d' valid_species s :
  update_species_dropdown a d = Ok (a', d') ->
  species_values d' = lit "all" :: valid_species ->
  In s valid_species ->
  str_strip s = s ->
  exists data,
    excel_data a = Some data /\
    selected_rows (select a' (selected_family a') (selected_genus a') s) data <> [] /\
    fst (generate_map (select a' (selected_family a') (selected_genus a') s))
      <> no_data_notice.
Proof.
  intros H Hv Hin Hs.
  destruct (listed_species_row a d a' d' valid_species s H Hv Hin)
    as (data & r & Hd & Hr & <- & Hvalid & Hfam & Hgen & ->).
  exists data. split; [exact Hd|].
  assert (Hne : selected_rows
                  (select (select a (selected_family a) (selected_genus a)
                                  (lit "Select Species"))
                          (selected_family a) (selected_genus a) (species r)) data <> []).
  { unfold selected_rows. cbn [select selected_family selected_genus selected_species].
    apply (filter_taxon_keeps _ _ _ _ r Hr Hfam Hgen).
    now apply valid_name_passes. }
  split; [exact Hne|]. now apply (generate_map_found _ data).
Qed.

(** With one of the three selections at its placeholder, [generate_map]
    builds nothing; when nothing else is wrong it asks for the selection. *)
Lemma generate_map_unselected a :
  unselected (str_strip (selected_family a)) (lit "Select Family")
  || unselected (str_strip (selected_genus a)) (lit "Select Genus")
  || unselected (str_strip (selected_species a)) (lit "Select Species") = true ->
  snd (generate_map a) = a /\
  fst (generate_map a) <> success_notice /\
  (forall data counties,
     excel_data a = Some data -> montana_counties a = Some counties ->
     returns (read_year a) ->
     forallb (fun col => existsb (String.eqb col) (columns data)) required_columns = true ->
     fst (generate_map a)
     = MessageBox "Missing Input" "Please select Family, Genus, and Species.").
Proof.
  intros Hu.
  assert (K : forall data counties,
             excel_data a = Some data -> montana_counties a = Some counties ->
             generate_map a =
             match int_of_str (year_var a) with
             | Raise ValueError => (Toast "Please enter a valid year" true, a)
             | Raise e => (ToastException e, a)
             | Ok y =>
               if (y <=? 0)%Z then (Escaped TclError, a)
               else if negb (forallb (fun col => existsb (String.eqb col) (columns data))
                                     required_columns)
               then (Escaped TclError, a)
               else (MessageBox "Missing Input" "Please select Family, Genus, and Species.",
                     a)
             end).
  { intros data counties Hd Hc.
    rewrite (generate_map_cases a data counties Hd Hc), generate_map_body_eq, Hu.
    destruct (int_of_str (year_var a)) as [y|[]]; try reflexivity.
    destruct (y <=? 0)%Z; [reflexivity|]. destruct (negb _); reflexivity. }
  destruct (excel_data a) as [data|] eqn:Hd;
    [|unfold generate_map; rewrite Hd; repeat split;
      [intros E; discriminate E|intros ? ? E; discriminate E]].
  destruct (montana_counties a) as [counties|] eqn:Hc;
    [|unfold generate_map; rewrite Hd, Hc; repeat split;
      [intros E; discriminate E|intros ? ? _ E; discriminate E]].
  rewrite (K data counties eq_refl eq_refl). split; [|split].
  - destruct (int_of_str (year_var a)) as [y|[]]; try reflexivity.
    destruct (y <=? 0)%Z; [reflexivity|]. destruct (negb _); reflexivity.
  - destruct (int_of_str (year_var a)) as [y|[]]; try (intros E; discriminate E).
    destruct (y <=? 0)%Z; [intros E; discriminate E|].
    destruct (negb _); intros E; discriminate E.
  - intros data' counties' [= <-] [= <-] [y Hy] Hcol.
    apply read_year_inv in Hy. destruct Hy as [Hy Hy0]. now rewrite Hy, Hy0, Hcol.
Qed.

Lemma placeholder_unselected : 
  unselected (str_strip (lit "Select Genus")) (lit "Select Genus") = true /\
  unselected (str_strip (lit "Select Species")) (lit "Select Species") = true.
Proof. split; vm_compute; reflexivity. Qed.

(** X3: both dropdown updates put a selection back at its placeholder, so
    [generate_map] run right after one of them builds no map and stores
    nothing; with a table and counties loaded, a valid year and the eight
    columns present, it asks for the selection. *)
Theorem dropdown_update_asks_for_selection a d a' d' :
  update_genus_dropdown a d = Ok (a', d') \/ update_species_dropdown a d = Ok (a', d') ->
  snd (generate_map a') = a' /\
  fst (generate_map a') <> success_notice /\
  (forall data counties,
     excel_data a' = Some data -> montana_counties a' = Some counties ->
     returns (read_year a') ->
     forallb (fun col => existsb (String.eqb col) (columns data)) required_columns = true ->
     fst (generate_map a')
     = MessageBox "Missing Input" "Please select Family, Genus, and Species.") /\
  excel_data a' = excel_data a /\ montana_counties a' = montana_counties a /\
  year_var a' = year_var a /\ color_ranges a' = color_ranges a /\
  current_maps a' = current_maps a.
Proof.
  destruct placeholder_unselected as [Hg Hs].
  intros [H|H].
  - assert (E : selected_genus a' = lit "Select Genus" /\
                excel_data a' = excel_data a /\ montana_counties a' = montana_counties a /\
                year_var a' = year_var a /\ color_ranges a' = color_ranges a /\
                current_maps a' = current_maps a).
    { unfold update_genus_dropdown in H.
      destruct (str_eqb _ (lit "Select Family")); [injection H as <- <-; now repeat split|].
      destruct (excel_data a) as [data|] eqn:Ed; [|discriminate].
      match type of H with (bind ?e _ = _) => destruct e; [|discriminate] end.
      cbn [bind] in H. destruct (column _ _ _ _); [|discriminate]. cbn [bind] in H.
      injection H as <- <-. cbn. now rewrite Ed. }
    destruct E as (E & E').
    destruct (generate_map_unselected a') as (H1 & H2 & H3).
    { rewrite E, Hg. now rewrite orb_true_r. }
    tauto.
  - assert (E : selected_species a' = lit "Select Species" /\
                excel_data a' = excel_data a /\ montana_counties a' = montana_counties a /\
                year_var a' = year_var a /\ color_ranges a' = color_ranges a /\
                current_maps a' = current_maps a).
    { unfold update_species_dropdown in H.
      destruct (_ || _); [injection H as <- <-; now repeat split|].
      destruct (excel_data a) as [data|] eqn:Ed; [|discriminate].
      destruct (where_ data "family" _ _ _); [|discriminate]. cbn [bind] in H.
      destruct (where_ data "genus" _ _ _); [|discriminate]. cbn [bind] in H.
      destruct (column _ _ _ _); [|discriminate]. cbn [bind] in H.
      injection H as <- <-. cbn. now rewrite Ed. }
    destruct E as (E & E').
    destruct (generate_map_unselected a') as (H1 & H2 & H3).
    { rewrite E, Hs. now rewrite orb_true_r. }
    tauto.
Qed.

(** What [update_genus_dropdown] does for a family of its own. *)
Lemma update_genus_dropdown_inv a d a' d' genera :
  update_genus_dropdown a d = Ok (a', d') ->
  genus_values d' = lit "All" :: genera ->
  str_strip (selected_family a) <> lit "All" ->
  exists data,
    excel_data a = Some data /\
    genera = map str_title
               (valid_names
                  (map genus
                     (filter (fun r => str_eqb (str_lower (family r))
                                               (str_lower (str_strip (selected_family a))))
                             (rows data)))).
Proof.
  intros H Hv Hf. unfold update_genus_dropdown in H.
  destruct (str_eqb _ (lit "Select Family")); [injection H as <- <-; discriminate|].
  destruct (excel_data a) as [data|]; [|discriminate].
  apply str_eqb_neq in Hf. rewrite Hf in H.
  destruct (where_ data "family" _ _ _) as [l1|] eqn:E1; [|discriminate]. cbn [bind] in H.
  destruct (column data "genus" _ _) as [l2|] eqn:E2; [|discriminate]. cbn [bind] in H.
  apply where_inv in E1. apply column_inv in E2. destruct E1 as [_ ->], E2 as [_ ->].
  injection H as <- <-. cbn [genus_values] in Hv. injection Hv as <-.
  exists data. auto.
Qed.

(** X4: for a family of its own (not the wild card), every genus the genus box
    lists comes from a row that passes the family test and the genus test of
    [update_species_dropdown] and [generate_map] once that genus is chosen;
    the names of the genus column are taken to be ASCII text without white
    space around, as [load_excel] leaves them. *)
Theorem offered_genus_has_rows a d a' d' genera g :
  update_genus_dropdown a d = Ok (a', d') ->
  genus_values d' = lit "All" :: genera ->
  In g genera ->
  str_strip (selected_family a) <> lit "All" ->
  (forall data r, excel_data a = Some data -> In r (rows data) ->
     forallb is_ascii (genus r) = true /\ str_strip (genus r) = genus r) ->
  exists data r,
    excel_data a = Some data /\ In r (rows data) /\ g = str_title (genus r) /\
    taxon_test (lit "All") (str_strip (selected_family a)) (family r) = true /\
    taxon_test (lit "All") (str_strip g) (genus r) = true.
Proof.
  intros H Hv Hin Hf Hrows.
  destruct (update_genus_dropdown_inv a d a' d' genera H Hv Hf) as (data & Hd & ->).
  apply in_map_iff in Hin. destruct Hin as (g0 & <- & Hin).
  apply valid_names_in in Hin. destruct Hin as [Hvalid Hin].
  apply in_map_iff in Hin. destruct Hin as (r & <- & Hin).
  apply filter_In in Hin. destruct Hin as [Hin Hfam].
  destruct (Hrows data r Hd Hin) as [Hascii Hstrip].
  exists data, r. repeat split; auto.
  - unfold taxon_test. apply str_eqb_neq in Hf. now rewrite Hf.
  - unfold taxon_test.
    destruct (str_eqb (str_strip (str_title (genus r))) (lit "All")).
    + unfold valid_name in Hvalid. apply andb_prop in Hvalid. tauto.
    + rewrite lower_strip_title by exact Hascii. rewrite Hstrip. apply str_eqb_refl.
Qed.

(** X5: the family and genus boxes list a name in title case, and
    [generate_map] compares in lower case: for an ASCII name, choosing its
    title selects exactly the rows whose name equals it up to case and outer
    white space; unless the name is the word all in some case, whose title
    is the wild card and selects every row with a name. *)
Theorem title_choice_selects_the_name f field :
  forallb is_ascii f = true ->
  (str_lower (str_strip f) <> lit "all" ->
   (taxon_test (lit "All") (str_strip (str_title f)) field = true <->
    str_lower field = str_lower (str_strip f))) /\
  (str_lower (str_strip f) = lit "all" ->
   (taxon_test (lit "All") (str_strip (str_title f)) field = true <->
    str_strip field <> [])).
Proof.
  intros H. pose proof (lower_of_all f H) as Hall.
  pose proof (lower_strip_title f H) as Hlow.
  split; intros Hf; rewrite taxon_test_spec, Hlow.
  - split.
    + intros [[K _]|[_ K]]; [|exact K]. elim Hf. now apply Hall.
    + intros K. right. split; [|exact K]. intros K'. apply Hf. now apply Hall.
  - apply Hall in Hf. split.
    + intros [[_ K]|[K _]]; [exact K|contradiction].
    + intros K. left. now split.
Qed.

End DropdownTheorems.

Open Scope Z_scope.

(* ================================================================= *)
(** ** Proofs: numbers in the entry widgets *)

(** *** Integers below 2^53 as floats *)

Lemma of_Z_canonical s p :
  Zpos p < 2 ^ 53 ->
  exists m e,
    binary_round prec emax s p 0 = S754_finite s m e /\
    -52 <= e <= 0 /\ Zpos m = Zpos p * 2 ^ (- e) /\ Zpos (digits2_pos m) = 53.
Proof.
  intros H. pose proof (digits2_pos_le_53 p H) as Hd.
  unfold binary_round, shl_align. rewrite fexp_eq.
  replace (Z.max (Zpos (digits2_pos p) + 0 - 53) (-1074) - 0)
    with (Zpos (digits2_pos p) - 53) by lia.
  replace (Z.max (Zpos (digits2_pos p) + 0 - 53) (-1074))
    with (Zpos (digits2_pos p) - 53) by lia.
  destruct (Zpos (digits2_pos p) - 53) as [|k|k] eqn:E; try lia.
  - exists p, 0. rewrite (binary_round_aux_exact s p 0) by lia.
    split; [reflexivity|]. split; [lia|]. split; [simpl; lia|lia].
  - exists (Pos.iter xO p k), (Zneg k).
    assert (Zpos k = 53 - Zpos (digits2_pos p)) by lia.
    rewrite binary_round_aux_exact.
    + split; [reflexivity|]. split; [lia|]. split; [apply iter_xO_value|].
      rewrite iter_xO_digits. lia.
    + rewrite iter_xO_digits. lia.
    + lia.
Qed.

Lemma of_Z_pos p :
  Zpos p < 2 ^ 53 ->
  exists m e,
    of_Z (Zpos p) = S754_finite false m e /\
    -52 <= e <= 0 /\ Zpos m = Zpos p * 2 ^ (- e) /\ 2 ^ 52 <= Zpos m < 2 ^ 53.
Proof.
  intros H. destruct (of_Z_canonical false p H) as (m & e & E & He & Hm & Hd).
  exists m, e. repeat split; try assumption; try lia.
  - pose proof (digits2_pos_bounds m) as [Hlo _]. rewrite Hd in Hlo. exact Hlo.
  - pose proof (digits2_pos_bounds m) as [_ Hhi]. rewrite Hd in Hhi. exact Hhi.
Qed.

Lemma pow2_split a b : 0 <= a -> 0 <= b -> 2 ^ (a + b) = 2 ^ a * 2 ^ b.
Proof. intros. apply Z.pow_add_r; assumption. Qed.

(** On non-negative integers below 2^53 the order of the floats is the
    order of the integers. *)
Lemma fle_of_Z a b :
  0 <= a < 2 ^ 53 -> 0 <= b < 2 ^ 53 -> fle (of_Z a) (of_Z b) = (a <=? b).
Proof.
  intros Ha Hb.
  destruct a as [|pa|pa]; [| |lia]; destruct b as [|pb|pb]; try lia.
  - reflexivity.
  - destruct (of_Z_pos pb) as (m & e & -> & _); [lia|]. reflexivity.
  - destruct (of_Z_pos pa) as (m & e & -> & _); [lia|]. reflexivity.
  - destruct (of_Z_pos pa) as (m1 & e1 & E1 & He1 & Hm1 & Hb1); [lia|].
    destruct (of_Z_pos pb) as (m2 & e2 & E2 & He2 & Hm2 & Hb2); [lia|].
    rewrite E1, E2.
    assert (P1 : 0 < 2 ^ (- e1)) by (apply Z.pow_pos_nonneg; lia).
    assert (P2 : 0 < 2 ^ (- e2)) by (apply Z.pow_pos_nonneg; lia).
    assert (Hord : (e1 < e2 -> Zpos pa < Zpos pb) /\ (e2 < e1 -> Zpos pb < Zpos pa)).
    { split; intros E.
      - assert (K : 2 ^ (- e1) = 2 ^ (- e2) * 2 ^ (e2 - e1)).
        { rewrite <- pow2_split by lia. f_equal. lia. }
        assert (2 <= 2 ^ (e2 - e1)).
        { change 2 with (2 ^ 1) at 1. apply Z.pow_le_mono_r; lia. }
        nia.
      - assert (K : 2 ^ (- e2) = 2 ^ (- e1) * 2 ^ (e1 - e2)).
        { rewrite <- pow2_split by lia. f_equal. lia. }
        assert (2 <= 2 ^ (e1 - e2)).
        { change 2 with (2 ^ 1) at 1. apply Z.pow_le_mono_r; lia. }
        nia. }
    destruct Hord as [Hlt Hgt].
    assert (Heq : e1 = e2 -> (Zpos m1 <= Zpos m2 <-> Zpos pa <= Zpos pb)).
    { intros <-. rewrite Hm1, Hm2. nia. }
    destruct (Z.leb_spec (Zpos pa) (Zpos pb)) as [L|L].
    + apply fle_key; [reflexivity|reflexivity|]. simpl.
      destruct (Z.compare_spec e1 e2) as [E|E|E]; [| |lia].
      * right. split; [reflexivity|right]. split; [exact E|]. now apply Heq.
      * right. split; [reflexivity|left; exact E].
    + destruct (fle (S754_finite false m1 e1) (S754_finite false m2 e2)) eqn:F; [|reflexivity].
      exfalso. apply fle_key in F; [|reflexivity|reflexivity]. simpl in F.
      destruct F as [F|[_ [F|[F F']]]]; [lia|lia|].
      apply Heq in F'; [lia|exact F].
Qed.

(** [int] gives back an integer below 2^53 from its float. *)
Lemma int_of_float_of_Z n : Z.abs n < 2 ^ 53 -> int_of_float (of_Z n) = Ok n.
Proof.
  intros H. destruct n as [|p|p].
  - reflexivity.
  - destruct (of_Z_canonical false p H) as (m & e & E & He & Hm & _).
    unfold of_Z, binary_normalize. rewrite E. unfold int_of_float.
    destruct (Z.leb_spec 0 e) as [L|L].
    + assert (e = 0) by lia. subst e. simpl in Hm. f_equal. simpl. lia.
    + f_equal. rewrite Hm. apply Z.div_mul.
      assert (0 < 2 ^ (- e)) by (apply Z.pow_pos_nonneg; lia). lia.
  - destruct (of_Z_canonical true p H) as (m & e & E & He & Hm & _).
    unfold of_Z, binary_normalize. rewrite E. unfold int_of_float.
    destruct (Z.leb_spec 0 e) as [L|L].
    + assert (e = 0) by lia. subst e. simpl in Hm. f_equal. simpl. lia.
    + f_equal. rewrite Hm. rewrite Z.div_mul; [lia|].
      assert (0 < 2 ^ (- e)) by (apply Z.pow_pos_nonneg; lia). lia.
Qed.

(** *** The decimal text of an integer *)

Lemma uint_str_digits d : forallb is_ascii_digit (uint_str d) = true.
Proof. induction d; simpl; auto. Qed.

Lemma uint_str_nonnil d : d <> Decimal.Nil -> uint_str d <> [].
Proof. destruct d; simpl; congruence. Qed.

Lemma digits_value_acc d : forall a,
  fold_left (fun acc c => acc * 10 + (Z.of_N c - 48)) (uint_str d) (Zpos a)
  = Zpos (Pos.of_uint_acc d a).
Proof.
  induction d; intros a; cbn [uint_str fold_left Pos.of_uint_acc]; try reflexivity;
    match goal with
    | |- fold_left _ _ ?x = Zpos (Pos.of_uint_acc _ ?y) =>
      replace x with (Zpos y) by lia; apply IHd
    end.
Qed.

Lemma digits_value_uint d : digits_value (uint_str d) = Z.of_N (Pos.of_uint d).
Proof.
  unfold digits_value.
  induction d; cbn [uint_str fold_left Pos.of_uint]; try reflexivity; try exact IHd;
    match goal with
    | |- fold_left _ _ ?x = Z.of_N (N.pos (Pos.of_uint_acc _ ?y)) =>
      change x with (Zpos y); apply digits_value_acc
    end.
Qed.

Lemma str_of_int_digits n :
  0 <= n ->
  forallb is_ascii_digit (str_of_int n) = true /\ str_of_int n <> [] /\
  digits_value (str_of_int n) = n.
Proof.
  intros H. destruct n as [|p|p]; [| |lia].
  - repeat split. discriminate.
  - unfold str_of_int. cbn [Z.to_int]. split; [apply uint_str_digits|]. split.
    + apply uint_str_nonnil, DecimalPos.Unsigned.to_uint_nonnil.
    + rewrite digits_value_uint, DecimalPos.Unsigned.of_to. reflexivity.
Qed.

Lemma digits_to_ascii_id l : forallb is_ascii_digit l = true -> map to_ascii l = l.
Proof.
  induction l as [|c l IH]; simpl; [reflexivity|]. intros H.
  apply andb_prop in H. destruct H as [Hc Hl]. rewrite IH by exact Hl. f_equal.
  apply ascii_digit_bounds in Hc. unfold to_ascii.
  destruct (N.ltb_spec c 127); [reflexivity|lia].
Qed.

(** [float] reads a run of ASCII digits as the integer they write. *)
Lemma parse_float_digits l :
  forallb is_ascii_digit l = true -> l <> [] ->
  parse_float l = Some (of_Z (digits_value l)).
Proof.
  intros Hd Hne.
  assert (Hpl : forallb plain l = true).
  { eapply forallb_weaken; [apply digit_plain|exact Hd]. }
  unfold parse_float. rewrite digits_to_ascii_id by exact Hd.
  rewrite strip_underscores_plain; [|lia|exact Hpl].
  rewrite trim_plain by exact Hpl.
  rewrite parse_inf_or_nan_plain by exact Hpl.
  unfold parse_decimal. rewrite (parse_sign_plain _ Hpl), (span_all _ _ Hd).
  rewrite app_nil_r. destruct l as [|c l]; [now elim Hne|].
  cbn [List.length Z.of_nat Z.opp]. unfold round_decimal. cbn [Z.leb Z.compare].
  unfold of_Z. f_equal. f_equal. cbn [cond_Zopp]. lia.
Qed.

(** The text that [str] writes for a non-negative integer is read back by
    [float] as the float of that integer. *)
Lemma float_of_str_of_int n : 0 <= n -> float_of_str (str_of_int n) = Ok (of_Z n).
Proof.
  intros H. destruct (str_of_int_digits n H) as (Hd & Hne & Hv).
  unfold float_of_str. rewrite parse_float_digits by assumption. now rewrite Hv.
Qed.

(* ================================================================= *)
(** ** Proofs: the legend *)

Lemma int_of_float_returns x : returns (int_of_float x) <-> is_finite x = true.
Proof.
  destruct x as [s|s| |s m e]; simpl; split; intros H.
  - reflexivity.
  - eexists. reflexivity.
  - destruct H as [v H]. discriminate H.
  - discriminate H.
  - destruct H as [v H]. discriminate H.
  - discriminate H.
  - reflexivity.
  - eexists. reflexivity.
Qed.

Lemma feq_inf_not_finite x : feq x inf = true -> is_finite x = false.
Proof. destruct x as [| [] | |]; simpl; try discriminate; reflexivity. Qed.

Lemma legend_label_returns r : returns (legend_label r) <-> label_ok r = true.
Proof.
  destruct r as [[mn mx] col]. unfold legend_label, label_ok, range_min, range_max.
  cbn [fst snd]. rewrite andb_true_iff, <- !int_of_float_returns.
  destruct (feq mx inf) eqn:E.
  - pose proof (feq_inf_not_finite _ E) as F. cbn [orb]. split.
    + intros [l H]. destruct (int_of_float mn) as [a|e]; [|discriminate].
      split; [eexists; reflexivity|reflexivity].
    + intros [[a ->] _]. eexists. reflexivity.
  - cbn [orb]. rewrite <- int_of_float_returns. split.
    + intros [l H]. destruct (int_of_float mn) as [a|e]; [|discriminate].
      cbn [bind] in H. destruct (int_of_float mx) as [b|e]; [|discriminate].
      split; eexists; reflexivity.
    + intros [[a ->] [b ->]]. eexists. reflexivity.
Qed.

Lemma labels_of_returns l : returns (labels_of l) <-> forallb label_ok l = true.
Proof.
  induction l as [|r l IH]; simpl.
  - split; [reflexivity|]. intros _. eexists. reflexivity.
  - rewrite andb_true_iff, <- IH, <- legend_label_returns. split.
    + intros [v H]. destruct (legend_label r) as [x|e]; [|discriminate].
      cbn [bind] in H. destruct (labels_of l) as [y|e]; [|discriminate].
      split; eexists; reflexivity.
    + intros [[x ->] [y ->]]. eexists. reflexivity.
Qed.

Lemma labels_of_length l : forall v, labels_of l = Ok v -> List.length v = List.length l.
Proof.
  induction l as [|r l IH]; simpl; intros v.
  - now intros [= <-].
  - destruct (legend_label r) as [x|e]; [|discriminate]. cbn [bind].
    destruct (labels_of l) as [y|e]; [|discriminate]. cbn [bind].
    intros [= <-]. simpl. f_equal. now apply IH.
Qed.

Lemma int_of_float_error x e :
  int_of_float x = Raise e -> e = ValueError \/ e = OverflowError.
Proof. destruct x; simpl; intros [=]; auto. Qed.

Lemma legend_label_error r e :
  legend_label r = Raise e -> e = ValueError \/ e = OverflowError.
Proof.
  destruct r as [[mn mx] col]. unfold legend_label.
  destruct (feq mx inf).
  - destruct (int_of_float mn) as [a|e'] eqn:E; [discriminate|].
    intros [= <-]. eapply int_of_float_error; eauto.
  - destruct (int_of_float mn) as [a|e'] eqn:E.
    + cbn [bind]. destruct (int_of_float mx) as [b|e''] eqn:E'; [discriminate|].
      intros [= <-]. eapply int_of_float_error; eauto.
    + intros [= <-]. eapply int_of_float_error; eauto.
Qed.

Lemma labels_of_error l e :
  labels_of l = Raise e -> e = ValueError \/ e = OverflowError.
Proof.
  induction l as [|r l IH]; simpl; [discriminate|].
  destruct (legend_label r) as [x|e'] eqn:E.
  - cbn [bind]. destruct (labels_of l) as [y|e'']; [discriminate|].
    intros [= <-]. now apply IH.
  - intros [= <-]. eapply legend_label_error; eauto.
Qed.

Lemma forallb_perm {A} (p : A -> bool) l l' :
  Permutation l l' -> forallb p l = forallb p l'.
Proof.
  induction 1; simpl; try congruence.
  destruct (p x), (p y); reflexivity.
Qed.

Lemma float_of_str_error s e : float_of_str s = Raise e -> e = ValueError.
Proof. unfold float_of_str. destruct (parse_float s); [discriminate|]. now intros [= <-]. Qed.

Lemma read_range_error v e : read_range v = Raise e -> e = ValueError.
Proof.
  destruct v as [[mn mx] col]. unfold read_range.
  destruct (float_of_str mn) as [a|e'] eqn:E.
  - cbn [bind]. destruct (str_eqb mx infinity_sign); [discriminate|].
    destruct (float_of_str mx) as [b|e''] eqn:E'; [discriminate|].
    intros [= <-]. eapply float_of_str_error; eauto.
  - intros [= <-]. eapply float_of_str_error; eauto.
Qed.

Lemma read_ranges_error vs e : read_ranges vs = Raise e -> e = ValueError.
Proof.
  induction vs as [|v vs IH]; simpl; [discriminate|].
  destruct (read_range v) as [r|e'] eqn:E.
  - cbn [bind]. destruct (read_ranges vs) as [rs|e'']; [discriminate|].
    intros [= <-]. now apply IH.
  - intros [= <-]. eapply read_range_error; eauto.
Qed.

Section Legend.
Context {G : Geometry}.

(** X6: the legend of [display_maps] can be written exactly when every minimum
    is a finite number and every maximum is finite or plus infinity;
    [process_county_data] asks for less, and has already coloured both maps
    from the same entries when [int] raises [ValueError] (a NaN) or
    [OverflowError] (an infinity) on a bound. *)
Theorem legend_needs_finite_bounds vars ranges :
  read_ranges vars = Ok ranges ->
  (returns (legend_labels vars) <-> forallb label_ok ranges = true) /\
  (forall labels, legend_labels vars = Ok labels ->
     List.length labels = List.length ranges) /\
  (forall e, legend_labels vars = Raise e -> e = ValueError \/ e = OverflowError) /\
  (forall counties points, returns (process_county_data counties vars points)).
Proof.
  intros H. unfold legend_labels, process_county_data. rewrite H. cbn [bind].
  split; [|split; [|split]].
  - rewrite labels_of_returns. now rewrite <- (forallb_perm _ _ _ (sort_ranges_perm ranges)).
  - intros labels E. apply labels_of_length in E. rewrite E.
    symmetry. apply Permutation_length, sort_ranges_perm.
  - apply labels_of_error.
  - intros counties points. eexists. reflexivity.
Qed.

End Legend.

(* ================================================================= *)
(** ** Proofs: integer bounds in the entry widgets *)

Lemma of_Z_finite n : 0 <= n < 2 ^ 53 -> is_finite (of_Z n) = true /\ feq (of_Z n) inf = false.
Proof.
  intros H. destruct n as [|p|p]; [split; reflexivity| |lia].
  destruct (of_Z_pos p) as (m & e & -> & _); [lia|]. split; reflexivity.
Qed.

Lemma str_of_int_not_infinity n : 0 <= n -> str_eqb (str_of_int n) infinity_sign = false.
Proof.
  intros H. destruct (str_of_int_digits n H) as (Hd & Hne & _).
  apply str_eqb_neq. intros E. rewrite E in Hd. vm_compute in Hd. discriminate.
Qed.

(** An entry with integer bounds reads as the floats of those integers. *)
Lemma read_range_integers a b col :
  0 <= a -> 0 <= b ->
  read_range (str_of_int a, str_of_int b, col) = Ok (of_Z a, of_Z b, col) /\
  read_range (str_of_int a, infinity_sign, col) = Ok (of_Z a, inf, col).
Proof.
  intros Ha Hb. unfold read_range.
  rewrite !float_of_str_of_int by assumption. cbn [bind].
  rewrite str_of_int_not_infinity by assumption. rewrite str_eqb_refl.
  split; reflexivity.
Qed.

(** X7: with integer bounds typed into the entries, the legend shows the same
    integers: the text is read as a float by [float], cut back to an integer
    by [int] and written again by the f-string. *)
Theorem legend_shows_integer_bounds a b col :
  0 <= a < 2 ^ 53 -> 0 <= b < 2 ^ 53 ->
  legend_labels [ (str_of_int a, str_of_int b, col) ]
  = Ok [ str_of_int a ++ lit "-" ++ str_of_int b ] /\
  legend_labels [ (str_of_int a, infinity_sign, col) ]
  = Ok [ str_of_int a ++ lit "+" ].
Proof.
  intros Ha Hb. unfold legend_labels. cbn [read_ranges].
  destruct (read_range_integers a b col) as [-> ->]; try lia.
  cbn [bind]. change (sort_ranges [ (of_Z a, of_Z b, col) ]) with [ (of_Z a, of_Z b, col) ].
  change (sort_ranges [ (of_Z a, inf, col) ]) with [ (of_Z a, inf, col) ].
  cbn [labels_of legend_label].
  destruct (of_Z_finite b Hb) as [_ ->].
  rewrite !int_of_float_of_Z by lia. cbn [bind].
  change (feq inf inf) with true. cbn [bind]. split; reflexivity.
Qed.

(** X8: a county with [n] points lies in the range with integer bounds [a] and
    [b] exactly when [a <= n <= b], and in the open range from [a] exactly
    when [a <= n]. *)
Theorem integer_range_is_interval a b n col :
  0 <= a < 2 ^ 53 -> 0 <= b < 2 ^ 53 -> 0 <= n < 2 ^ 53 ->
  exists r r',
    read_range (str_of_int a, str_of_int b, col) = Ok r /\
    in_color_range n r = (a <=? n) && (n <=? b) /\
    read_range (str_of_int a, infinity_sign, col) = Ok r' /\
    in_color_range n r' = (a <=? n).
Proof.
  intros Ha Hb Hn.
  destruct (read_range_integers a b col) as [E1 E2]; try lia.
  exists (of_Z a, of_Z b, col), (of_Z a, inf, col).
  split; [exact E1|]. split; [|split; [exact E2|]].
  - unfold in_color_range, range_min, range_max, fge. cbn [fst snd].
    now rewrite !fle_of_Z by assumption.
  - rewrite in_open_range. unfold fge. now rewrite fle_of_Z by assumption.
Qed.

(* ================================================================= *)
(** ** Proofs: the default ranges *)

Lemma in_range_of_Z n a b col :
  0 <= a < 2 ^ 53 -> 0 <= b < 2 ^ 53 -> 0 <= n < 2 ^ 53 ->
  in_color_range n (of_Z a, of_Z b, col) = (a <=? n) && (n <=? b).
Proof.
  intros Ha Hb Hn. unfold in_color_range, range_min, range_max, fge. cbn [fst snd].
  now rewrite !fle_of_Z by assumption.
Qed.

Lemma in_range_from_Z n a col :
  0 <= a < 2 ^ 53 -> 0 <= n < 2 ^ 53 ->
  in_color_range n (of_Z a, inf, col) = (a <=? n).
Proof.
  intros Ha Hn. rewrite in_open_range. unfold fge. now rewrite fle_of_Z by assumption.
Qed.

Lemma initial_ranges_read :
  read_ranges initial_color_ranges
  = Ok [ (of_Z 0, of_Z 0, lit "white");
         (of_Z 1, of_Z 10, lit "#e7e8e9");
         (of_Z 11, of_Z 100, lit "#bcbec0");
         (of_Z 101, of_Z 1000, lit "#939598");
         (of_Z 1001, inf, lit "#231f20") ].
Proof. vm_compute. reflexivity. Qed.

Lemma initial_ranges_sorted :
  sort_ranges [ (of_Z 0, of_Z 0, lit "white");
                (of_Z 1, of_Z 10, lit "#e7e8e9");
                (of_Z 11, of_Z 100, lit "#bcbec0");
                (of_Z 101, of_Z 1000, lit "#939598");
                (of_Z 1001, inf, lit "#231f20") ]
  = [ (of_Z 0, of_Z 0, lit "white");
      (of_Z 1, of_Z 10, lit "#e7e8e9");
      (of_Z 11, of_Z 100, lit "#bcbec0");
      (of_Z 101, of_Z 1000, lit "#939598");
      (of_Z 1001, inf, lit "#231f20") ].
Proof. vm_compute. reflexivity. Qed.

Lemma classify_default n :
  0 <= n < 2 ^ 53 ->
  classify n [ (of_Z 0, of_Z 0, lit "white");
               (of_Z 1, of_Z 10, lit "#e7e8e9");
               (of_Z 11, of_Z 100, lit "#bcbec0");
               (of_Z 101, of_Z 1000, lit "#939598");
               (of_Z 1001, inf, lit "#231f20") ]
  = default_color n.
Proof.
  intros H. unfold classify. rewrite initial_ranges_sorted.
  unfold last_match. cbn [rev app find].
  rewrite in_range_from_Z, !in_range_of_Z by lia.
  unfold default_color, range_color. cbn [snd].
  destruct (Z.leb_spec 1001 n), (Z.leb_spec 101 n), (Z.leb_spec n 1000),
           (Z.leb_spec 11 n), (Z.leb_spec n 100), (Z.leb_spec 1 n),
           (Z.leb_spec n 10), (Z.leb_spec 0 n), (Z.leb_spec n 0), (Z.eqb_spec n 0);
    cbn [andb]; try lia; reflexivity.
Qed.

Section Defaults.
Context {G : Geometry}.

(** X9: with the entries as [_setup_input_fields] creates them,
    [process_county_data] returns, and colours every county by its count
    alone: white for none, then the four greys for 1 to 10, 11 to 100,
    101 to 1000 and more than 1000 points; no count falls between two
    ranges or into two of them. *)
Theorem default_ranges_partition_the_counts counties points :
  Z.of_nat (List.length points) < 2 ^ 53 ->
  exists t,
    process_county_data counties initial_color_ranges points = Ok t /\
    map geometry t = counties /\
    Forall (fun c => 0 <= point_count c /\ color c = default_color (point_count c)) t.
Proof.
  intros H. unfold process_county_data. rewrite initial_ranges_read. cbn [bind].
  eexists. split; [reflexivity|]. rewrite assign_colors_spec. split.
  - rewrite map_map. cbn [geometry]. apply map_id.
  - apply Forall_map, Forall_forall. intros g _. cbn [point_count color].
    split; [lia|]. apply classify_default.
    pose proof (filter_length_le (fun p => within (geom p) g) points).
    unfold points_in. lia.
Qed.

End Defaults.

(* ================================================================= *)
(** ** Proofs: the width of the left panel *)

Lemma forall_range_spec f len : forall lo w,
  forall_range f lo len = true -> lo <= w < lo + Zpos len -> f w = true.
Proof.
  induction len as [p IH|p IH|]; simpl; intros lo w H Hw.
  - apply andb_prop in H. destruct H as [H H3]. apply andb_prop in H. destruct H as [H1 H2].
    destruct (Z.eq_dec w lo) as [->|]; [exact H1|].
    destruct (Z_lt_le_dec w (lo + 1 + Zpos p)).
    + apply (IH (lo + 1)); [exact H2|lia].
    + apply (IH (lo + 1 + Zpos p)); [exact H3|lia].
  - apply andb_prop in H. destruct H as [H1 H2].
    destruct (Z_lt_le_dec w (lo + Zpos p)).
    + apply (IH lo); [exact H1|lia].
    + apply (IH (lo + Zpos p)); [exact H2|lia].
  - assert (w = lo) by lia. now subst.
Qed.

Lemma widths_checked : forall_range width_is_23_percent 1 20000 = true.
Proof. vm_compute. reflexivity. Qed.

(** X10: for a container of 1 to 20000 pixels the left panel is given 23 per
    cent of the width, rounded down, less the 10 pixels of padding: the
    binary product with 0.23 never falls on the wrong side of an integer.
    Without width nothing is set. *)
Theorem left_panel_is_23_percent w :
  (0 < w <= 20000 -> set_panel_widths w = Some (23 * w / 100 - 10)) /\
  (w <= 0 -> set_panel_widths w = None).
Proof.
  split; intros H.
  - pose proof (forall_range_spec _ _ 1 w widths_checked) as K.
    unfold width_is_23_percent in K.
    destruct (set_panel_widths w) as [x|]; [|discriminate K; lia].
    f_equal. apply Z.eqb_eq, K. lia.
  - unfold set_panel_widths. destruct (Z.ltb_spec 0 w); [lia|reflexivity].
Qed.

(* ================================================================= *)
(** ** Proofs: the cutoff year *)

Lemma fle_not_nan x y : fle x y = true -> is_nan x = false /\ is_nan y = false.
Proof.
  unfold fle, SFleb. destruct x as [| | |], y as [| | |]; simpl; try discriminate; auto.
Qed.

Lemma filter_implies_length {A} (p q : A -> bool) l :
  (forall x, p x = true -> q x = true) ->
  (List.length (filter p l) <= List.length (filter q l))%nat.
Proof.
  intros H. induction l as [|a l IH]; simpl; [lia|].
  destruct (p a) eqn:E.
  - rewrite (H a E). simpl. lia.
  - destruct (q a); simpl; lia.
Qed.

Section Cutoff.
Context {RT : Runtime} {G : Geometry} {MP : Matplotlib}.

Lemma year_at_most_mono y1 y2 p :
  0 <= y1 <= y2 -> y2 < 2 ^ 53 ->
  year_at_most (of_Z y1) p = true -> year_at_most (of_Z y2) p = true.
Proof.
  intros H1 H2. unfold year_at_most. intros H.
  destruct (fle_not_nan _ _ H) as [Hn _].
  apply (fle_trans _ (of_Z y1)); auto using of_Z_not_nan.
  rewrite fle_of_Z by lia. apply Z.leb_le. lia.
Qed.

Lemma points_in_mono (p q : located -> bool) points g :
  (forall x, p x = true -> q x = true) ->
  (List.length (points_in (filter p points) g)
   <= List.length (points_in (filter q points) g))%nat.
Proof.
  intros H. unfold points_in. rewrite !filter_filter.
  apply filter_implies_length. intros x Hx.
  apply andb_prop in Hx. destruct Hx as [Hp Hw]. now rewrite (H x Hp), Hw.
Qed.

Lemma clipped_points_same a1 a2 data boundary :
  selected_family a1 = selected_family a2 ->
  selected_genus a1 = selected_genus a2 ->
  selected_species a1 = selected_species a2 ->
  clipped_points a1 data boundary = clipped_points a2 data boundary.
Proof.
  intros Hf Hg Hs. unfold clipped_points, selected_rows. now rewrite Hf, Hg, Hs.
Qed.

(** X11: two runs of [generate_map] that differ in the year alone build the same
    Map B, and the run with the later year counts, county by county, at
    least as many points in its Map A. *)
Theorem later_cutoff_counts_more a1 a2 a1' a2' m1 m2 :
  generate_map a1 = (success_notice, a1') ->
  generate_map a2 = (success_notice, a2') ->
  current_maps a1' = Some m1 -> current_maps a2' = Some m2 ->
  excel_data a1 = excel_data a2 -> montana_counties a1 = montana_counties a2 ->
  selected_family a1 = selected_family a2 -> selected_genus a1 = selected_genus a2 ->
  selected_species a1 = selected_species a2 -> color_ranges a1 = color_ranges a2 ->
  selected_year m1 <= selected_year m2 < 2 ^ 53 ->
  map_b m1 = map_b m2 /\
  Forall2 (fun c1 c2 => geometry c1 = geometry c2 /\ point_count c1 <= point_count c2)
          (map_a m1) (map_a m2).
Proof.
  intros H1 H2 Hm1 Hm2 Hd Hc Hf Hg Hs Hr Hy.
  apply generate_map_success in H1, H2.
  destruct H1 as (data & counties & n1 & Hd1 & Hc1 & Ht1 & ->).
  destruct H2 as (data2 & counties2 & n2 & Hd2 & Hc2 & Ht2 & ->).
  cbn [set_current_maps current_maps] in Hm1, Hm2.
  injection Hm1 as ->. injection Hm2 as ->.
  rewrite Hd, Hd2 in Hd1. injection Hd1 as ->.
  rewrite Hc, Hc2 in Hc1. injection Hc1 as ->.
  apply generate_map_try_generated in Ht1, Ht2.
  destruct Ht1 as (b1 & c1 & Hy1 & Hb1 & Hf1 & _ & Ha1 & Hbb1).
  destruct Ht2 as (b2 & c2 & Hy2 & Hb2 & Hf2 & _ & Ha2 & Hbb2).
  rewrite Hb2 in Hb1. injection Hb1 as ->.
  rewrite (clipped_points_same a1 a2 data b1 Hf Hg Hs), Hr in *.
  split; [congruence|].
  assert (Hpos : 0 < selected_year m1).
  { unfold read_year in Hy1. destruct (int_of_str (year_var a1)) as [y|]; [|discriminate].
    cbn [bind] in Hy1. destruct (Z.leb_spec y 0); [discriminate|]. injection Hy1 as <-. lia. }
  rewrite float_of_int_fits in Hf1, Hf2 by (apply of_Z_exact; lia).
  injection Hf1 as <-. injection Hf2 as <-.
  apply process_county_data_spec in Ha1, Ha2.
  destruct Ha1 as (r1 & Hr1 & ->), Ha2 as (r2 & Hr2 & ->).
  clear -Hy Hpos. induction counties as [|g counties IH]; simpl; constructor; [|exact IH].
  split; [reflexivity|]. apply Nat2Z.inj_le, points_in_mono.
  intros p. apply year_at_most_mono; lia.
Qed.

End Cutoff.

(* ================================================================= *)
(** ** Proofs: entries that are not numbers *)

Lemma read_range_returns v : returns (read_range v) <-> entry_ok v = true.
Proof.
  destruct v as [[mn mx] col]. unfold read_range, entry_ok, float_of_str.
  destruct (parse_float mn) as [a|]; cbn [bind].
  - destruct (str_eqb mx infinity_sign); cbn [orb bind].
    + split; [reflexivity|]. intros _. eexists. reflexivity.
    + destruct (parse_float mx) as [b|]; cbn [bind]; split; intros H;
        try reflexivity; try discriminate; try (eexists; reflexivity).
      destruct H as [? H]. discriminate.
  - split; [|discriminate]. intros [? H]. discriminate.
Qed.

Lemma read_ranges_returns vs : returns (read_ranges vs) <-> forallb entry_ok vs = true.
Proof.
  induction vs as [|v vs IH]; simpl.
  - split; [reflexivity|]. intros _. eexists. reflexivity.
  - rewrite andb_true_iff, <- IH, <- read_range_returns. split.
    + intros [l H]. destruct (read_range v) as [r|]; [|discriminate]. cbn [bind] in H.
      destruct (read_ranges vs) as [rs|]; [|discriminate]. split; eexists; reflexivity.
    + intros [[r ->] [rs ->]]. eexists. reflexivity.
Qed.

Section BadEntries.
Context {RT : Runtime} {G : Geometry} {MP : Matplotlib}.

(** X12: [process_county_data] returns exactly when [float] can read both bounds
    of every entry (the infinity sign standing for an unbounded maximum), and
    raises [ValueError] otherwise, whatever the points; [generate_map]
    then, when it has come that far, shows the toast of a caught exception
    and stores no maps. *)
Theorem unreadable_bounds_stop_the_maps vars :
  (forall counties points,
     (returns (process_county_data counties vars points) <-> forallb entry_ok vars = true) /\
     (forallb entry_ok vars = false ->
      process_county_data counties vars points = Raise ValueError)) /\
  (forall a data counties boundary,
     color_ranges a = vars -> forallb entry_ok vars = false ->
     inputs_accepted a data counties ->
     dissolve counties = Ok boundary ->
     clipped_points a data boundary <> [] ->
     exists e, generate_map a = (ToastException e, a)).
Proof.
  assert (Hraise : forallb entry_ok vars = false -> read_ranges vars = Raise ValueError).
  { intros H. destruct (read_ranges vars) as [rs|e] eqn:E.
    - assert (K : returns (read_ranges vars)) by (eexists; exact E).
      apply read_ranges_returns in K. congruence.
    - f_equal. eapply read_ranges_error; eauto. }
  split.
  - intros counties points. unfold process_county_data. split.
    + rewrite <- read_ranges_returns. split.
      * intros [t H]. destruct (read_ranges vars) as [rs|]; [|discriminate].
        eexists. reflexivity.
      * intros [rs ->]. eexists. reflexivity.
    + intros H. now rewrite (Hraise H).
  - intros a data counties boundary Hv Hbad (Hd & Hc & [y Hy] & Hcol & Hf & Hg & Hs) Hb Hne.
    apply read_year_inv in Hy. destruct Hy as [Hy Hy0].
    rewrite (generate_map_cases a data counties Hd Hc), generate_map_body_eq.
    rewrite Hy, Hy0, Hcol, Hf, Hg, Hs, Hb.
    cbn [negb orb]. unfold clipped_points in Hne.
    destruct (selected_rows a data) as [|r0 l]; [now elim Hne|].
    destruct (clip boundary _) as [|p0 pts]; [now elim Hne|].
    destruct (float_of_int y) as [cutoff|e]; [|eexists; reflexivity].
    unfold process_county_data. rewrite Hv, (Hraise Hbad). cbn [bind].
    eexists. reflexivity.
Qed.

End BadEntries.

(* ================================================================= *)
(** ** Proofs: the direction letters *)

Lemma ascii_upper_inv c x :
  ascii_upper c = x -> (65 <= x <= 90)%N -> c = x \/ c = (x + 32)%N.
Proof.
  unfold ascii_upper. destruct ((97 <=? c) && (c <=? 122))%N eqn:E; intros <- H.
  - right. apply andb_prop in E. destruct E as [E _]. apply N.leb_le in E. lia.
  - now left.
Qed.

Lemma upper_is_letter l x :
  (65 <= x <= 90)%N ->
  (map ascii_upper l = [x] <-> l = [x] \/ l = [(x + 32)%N]).
Proof.
  intros Hx. split.
  - destruct l as [|c [|c' l]]; try discriminate. intros [= E].
    apply ascii_upper_inv in E; [|exact Hx]. destruct E as [->| ->]; auto.
  - intros [->| ->]; simpl; f_equal; unfold ascii_upper.
    + destruct ((97 <=? x) && (x <=? 122))%N eqn:E; [|reflexivity].
      apply andb_prop in E. destruct E as [E _]. apply N.leb_le in E. lia.
    + destruct ((97 <=? x + 32) && (x + 32 <=? 122))%N eqn:E; [lia|].
      apply andb_false_iff in E. rewrite !N.leb_gt in E. lia.
Qed.

Section Directions.
Context {RT : Runtime}.

Lemma direction_text t positive negative default :
  direction (VStr t) positive negative default
  = if str_eqb (str_upper (str_strip t)) positive
       || str_eqb (str_upper (str_strip t)) negative
    then str_upper (str_strip t) else default.
Proof. reflexivity. Qed.

Lemma direction_other t positive negative default other :
  positive <> negative ->
  (default = positive /\ other = negative) \/ (default = negative /\ other = positive) ->
  (direction (VStr t) positive negative default = other
   <-> str_upper (str_strip t) = other) /\
  (direction (VStr t) positive negative default <> other ->
   direction (VStr t) positive negative default = default).
Proof.
  intros Hne Hd. rewrite direction_text.
  set (d := str_upper (str_strip t)).
  destruct (str_eqb d positive) eqn:E1; [apply str_eqb_eq in E1|apply str_eqb_neq in E1];
  (destruct (str_eqb d negative) eqn:E2; [apply str_eqb_eq in E2|apply str_eqb_neq in E2]);
    cbn [orb]; destruct Hd as [[-> ->]|[-> ->]]; split; try split; try congruence;
    try (intros K; congruence).
Qed.

(** X13: of the text of a direction cell only one letter is read, in either
    case and with white space around: a latitude is southern exactly for S
    or s, a longitude eastern exactly for E or e; any other ASCII text, a
    spelled-out South among them, leaves the latitude northern and the
    longitude western. *)
Theorem direction_is_one_letter r t u :
  lat_dir r = VStr t -> forallb is_ascii t = true ->
  long_dir r = VStr u -> forallb is_ascii u = true ->
  (lat_direction r = lit "S" <-> str_strip t = lit "S" \/ str_strip t = lit "s") /\
  (lat_direction r <> lit "S" -> lat_direction r = lit "N") /\
  (long_direction r = lit "E" <-> str_strip u = lit "E" \/ str_strip u = lit "e") /\
  (long_direction r <> lit "E" -> long_direction r = lit "W").
Proof.
  intros Ht Hat Hu Hau. unfold lat_direction, long_direction. rewrite Ht, Hu.
  destruct (direction_other t (lit "N") (lit "S") (lit "N") (lit "S")) as [H1 H2];
    [discriminate|now left|].
  destruct (direction_other u (lit "E") (lit "W") (lit "W") (lit "E")) as [H3 H4];
    [discriminate|now right|].
  split; [|split; [exact H2|split; [|exact H4]]].
  - rewrite H1. unfold str_upper. rewrite ascii_strip by assumption.
    change (lit "S") with [83%N]. change (lit "s") with [(83 + 32)%N].
    apply upper_is_letter. lia.
  - rewrite H3. unfold str_upper. rewrite ascii_strip by assumption.
    change (lit "E") with [69%N]. change (lit "e") with [(69 + 32)%N].
    apply upper_is_letter. lia.
Qed.

End Directions.

(* ================================================================= *)
(** ** Proofs: the names of a loaded table *)

Lemma dropwhile_head p l :
  match dropwhile p l with [] => True | c :: _ => p c = false end.
Proof.
  induction l as [|c l IH]; simpl; [exact I|].
  destruct (p c) eqn:E; [exact IH|exact E].
Qed.

Lemma str_strip_trimmed s : trimmed (str_strip s).
Proof.
  unfold trimmed, str_strip, rdropwhile. rewrite rev_involutive.
  split; [|apply dropwhile_head].
  pose proof (dropwhile_head isspace s) as H.
  destruct (dropwhile isspace s) as [|c d]; [exact I|].
  simpl rev. destruct (dropwhile_stop isspace (rev d) c [] H) as (X & ->).
  rewrite rev_app_distr. exact H.
Qed.

Lemma trimmed_strip t : trimmed t -> str_strip t = t.
Proof.
  intros [H1 H2]. unfold str_strip, rdropwhile.
  rewrite (dropwhile_id isspace t H1), (dropwhile_id isspace (rev t) H2).
  apply rev_involutive.
Qed.

Lemma same_trimmed s t : Forall2 same_letter s t -> trimmed s -> trimmed t.
Proof.
  intros H [H1 H2]. split.
  - destruct H as [|c c' s t (_ & _ & E) _]; [exact I|]. now rewrite E.
  - apply same_rev in H. destruct H as [|c c' s' t' (_ & _ & E) _]; [exact I|].
    now rewrite E.
Qed.

Lemma lower_same s : forallb is_ascii s = true -> Forall2 same_letter s (map ascii_lower s).
Proof.
  induction s as [|c s IH]; simpl; intros H; [constructor|].
  apply andb_prop in H. destruct H as [Hc Hs].
  constructor; [now apply same_letter_lower|now apply IH].
Qed.

Lemma ascii_lower_idem c : ascii_lower (ascii_lower c) = ascii_lower c.
Proof.
  unfold ascii_lower.
  destruct ((65 <=? c) && (c <=? 90))%N eqn:E; [|now rewrite E].
  destruct ((65 <=? c + 32) && (c + 32 <=? 90))%N eqn:E'; [|reflexivity].
  apply andb_prop in E'. destruct E' as [_ E']. apply N.leb_le in E'.
  apply andb_prop in E. destruct E as [E _]. apply N.leb_le in E. lia.
Qed.

Section LoadFacts.
Context {RT : Runtime} {TC : Titlecase} {PD : Pandas}.

Lemma normalize_name_normal v :
  forallb is_ascii (py_str v) = true ->
  forallb is_ascii (normalize_name v) = true /\
  str_strip (normalize_name v) = normalize_name v /\
  str_lower (normalize_name v) = normalize_name v.
Proof.
  intros H. unfold normalize_name.
  pose proof (ascii_strip _ H) as Hs.
  assert (E : str_lower (str_strip (py_str v)) = map ascii_lower (str_strip (py_str v))).
  { unfold str_lower. now rewrite Hs. }
  rewrite E.
  pose proof (lower_same _ Hs) as Hl.
  pose proof (same_ascii _ _ Hl) as Ha. split; [exact Ha|]. split.
  - apply trimmed_strip. eapply same_trimmed; [exact Hl|apply str_strip_trimmed].
  - unfold str_lower. rewrite Ha, map_map. apply map_ext, ascii_lower_idem.
Qed.

(** X14: the names that [load_excel] stores are normal: for a cell whose text is
    ASCII, the stored name has no white space around, is in lower case, and
    is left as it is by a second normalisation. *)
Theorem loaded_names_are_normal v :
  forallb is_ascii (py_str v) = true ->
  str_strip (normalize_name v) = normalize_name v /\
  str_lower (normalize_name v) = normalize_name v /\
  normalize_name (VStr (normalize_name v)) = normalize_name v.
Proof.
  intros H. destruct (normalize_name_normal v H) as (Ha & Hs & Hl).
  split; [exact Hs|]. split; [exact Hl|].
  unfold normalize_name at 1. cbn [py_str]. now rewrite Hs, Hl.
Qed.

(** X15: every entry of the family box after the wild card is the title of the
    family of a loaded row, and choosing it makes that row pass the family
    test of [generate_map]; the family cells are taken to hold ASCII text. *)
Theorem loaded_family_entry_selects_its_rows sheet entry :
  Forall (fun r => forallb is_ascii (py_str (raw_family r)) = true) sheet ->
  In entry (tl (family_values_of (map process_row sheet))) ->
  exists r,
    In r (map process_row sheet) /\ entry = str_title (family r) /\
    valid_name (family r) = true /\
    taxon_test (lit "All") (str_strip entry) (family r) = true.
Proof.
  intros Hs Hin. unfold family_values_of in Hin. cbn [tl] in Hin.
  apply in_map_iff in Hin. destruct Hin as (n & <- & Hin).
  apply valid_names_in in Hin. destruct Hin as [Hv Hin].
  apply in_map_iff in Hin. destruct Hin as (r & <- & Hin).
  exists r. repeat split; auto.
  apply in_map_iff in Hin. destruct Hin as (raw & <- & Hraw).
  rewrite Forall_forall in Hs. specialize (Hs raw Hraw).
  cbn [process_row family] in *.
  destruct (normalize_name_normal _ Hs) as (Ha & Hst & Hl).
  unfold taxon_test.
  destruct (str_eqb (str_strip (str_title (normalize_name (raw_family raw)))) (lit "All")).
  - unfold valid_name in Hv. apply andb_prop in Hv. tauto.
  - rewrite lower_strip_title by exact Ha. rewrite Hst. apply str_eqb_refl.
Qed.

End LoadFacts.

(* ================================================================= *)
(** ** Proofs: the year range of the summary *)

Lemma fold_min_not_nan r : forall y,
  is_nan y = false -> Forall (fun b => is_nan b = false) r ->
  is_nan (fold_left (fun a b => if flt b a then b else a) r y) = false.
Proof.
  induction r as [|b r IH]; simpl; intros y Hy Hr; [exact Hy|].
  inversion Hr; subst. apply IH; [|assumption]. destruct (flt b y); assumption.
Qed.

Lemma fold_max_not_nan r : forall y,
  is_nan y = false -> Forall (fun b => is_nan b = false) r ->
  is_nan (fold_left (fun a b => if flt a b then b else a) r y) = false.
Proof.
  induction r as [|b r IH]; simpl; intros y Hy Hr; [exact Hy|].
  inversion Hr; subst. apply IH; [|assumption]. destruct (flt y b); assumption.
Qed.

Lemma numeric_not_nan ys : Forall (fun b => is_nan b = false) (numeric ys).
Proof.
  apply Forall_forall. intros y H. apply filter_In in H. destruct H as [_ H].
  now apply negb_true_iff in H.
Qed.

Lemma column_min_nan ys : is_nan (column_min ys) = true <-> numeric ys = [].
Proof.
  unfold column_min. pose proof (numeric_not_nan ys) as H.
  destruct (numeric ys) as [|y r]; [split; reflexivity|].
  inversion H; subst. rewrite fold_min_not_nan by assumption. split; discriminate.
Qed.

Lemma column_max_nan ys : is_nan (column_max ys) = true <-> numeric ys = [].
Proof.
  unfold column_max. pose proof (numeric_not_nan ys) as H.
  destruct (numeric ys) as [|y r]; [split; reflexivity|].
  inversion H; subst. rewrite fold_max_not_nan by assumption. split; discriminate.
Qed.

Lemma int_of_float_ValueError x : int_of_float x = Raise ValueError <-> is_nan x = true.
Proof. destruct x; simpl; split; intros H; try discriminate; reflexivity. Qed.

(** X16: the summary shown after a load computes the year range with [int]: it
    raises [ValueError] exactly when no row has a numeric year (an empty
    sheet, or a year column without a number), [OverflowError] when the
    least or the greatest year is infinite, and returns otherwise. *)
Theorem summary_needs_a_numeric_year data :
  (year_range data = Raise ValueError <-> numeric (map year data) = []) /\
  (returns (year_range data) <->
   is_finite (column_min (map year data)) = true /\
   is_finite (column_max (map year data)) = true) /\
  (forall e, year_range data = Raise e -> e = ValueError \/ e = OverflowError).
Proof.
  unfold year_range. set (ys := map year data). split; [|split].
  - rewrite <- column_min_nan, <- int_of_float_ValueError.
    destruct (int_of_float (column_min ys)) as [a|e] eqn:E; cbn [bind].
    + split; [|discriminate]. intros H.
      destruct (int_of_float (column_max ys)) as [b|e] eqn:E'; [discriminate|].
      cbn [bind] in H. injection H as ->. apply int_of_float_ValueError in E'.
      apply column_max_nan in E'. apply column_min_nan in E'.
      apply int_of_float_ValueError in E'. congruence.
    + split; intros [= ->]; reflexivity.
  - rewrite <- !int_of_float_returns. split.
    + intros [v H]. destruct (int_of_float (column_min ys)) as [a|]; [|discriminate].
      cbn [bind] in H. destruct (int_of_float (column_max ys)) as [b|]; [|discriminate].
      split; eexists; reflexivity.
    + intros [[a ->] [b ->]]. eexists. reflexivity.
  - intros e. destruct (int_of_float (column_min ys)) as [a|e'] eqn:E; cbn [bind].
    + destruct (int_of_float (column_max ys)) as [b|e''] eqn:E'; cbn [bind]; [discriminate|].
      intros [= <-]. eapply int_of_float_error; eauto.
    + intros [= <-]. eapply int_of_float_error; eauto.
Qed.

(* ================================================================= *)
(** ** Proofs: [load_excel] *)

Section LoadTheorems.
Context {RT : Runtime} {TC : Titlecase} {PD : Pandas} {G : Geometry} {MP : Matplotlib}.

(** With a required column missing, [generate_map] builds nothing, and with
    a year that reads as an integer it ends in the [TclError] of the second
    [destroy]. *)
Lemma generate_map_missing_column a data :
  excel_data a = Some data ->
  forallb (fun col => existsb (String.eqb col) (columns data)) required_columns = false ->
  snd (generate_map a) = a /\ fst (generate_map a) <> success_notice /\
  (forall counties y,
     montana_counties a = Some counties -> int_of_str (year_var a) = Ok y ->
     fst (generate_map a) = Escaped TclError).
Proof.
  intros Hd Hc.
  destruct (montana_counties a) as [counties|] eqn:Hm.
  - rewrite (generate_map_cases a data counties Hd Hm), generate_map_body_eq, Hc.
    cbn [negb].
    destruct (int_of_str (year_var a)) as [y|[]]; cbn [fst snd];
      repeat split; try reflexivity; try (intros K; discriminate K);
      try (intros ? ? _ K; discriminate K).
    + destruct (y <=? 0)%Z; reflexivity.
    + destruct (y <=? 0)%Z; intros K; discriminate K.
    + intros _ _ _ _. destruct (y <=? 0)%Z; reflexivity.
  - unfold generate_map. rewrite Hd, Hm. repeat split; try (intros K; discriminate K).
    intros ? ? K; discriminate K.
Qed.

(** X17: a sheet without one of the eight columns is refused without a word:
    the loading window, destroyed before the [ValueError] is raised, is
    destroyed once more by the [except] clause, and the [TclError] of that
    leaves [load_excel] before any toast.  The sheet has replaced the table
    all the same: the counties, the selections, the boxes, the file entry
    and the stored maps are as before, and [generate_map] builds no map from
    then on; with a year that reads as an integer it ends in the same
    [TclError]. *)
Theorem refused_sheet_replaces_the_table w file_path raw shapefile outcome w' :
  file_path <> [] ->
  forallb (fun col => existsb (String.eqb col) (raw_columns raw)) required_columns = false ->
  load_excel w file_path (Ok raw) shapefile = (outcome, w') ->
  outcome = LoadEscaped TclError /\
  (exists data, excel_data (application w') = Some data /\ columns data = raw_columns raw) /\
  montana_counties (application w') = montana_counties (application w) /\
  selected_family (application w') = selected_family (application w) /\
  selected_genus (application w') = selected_genus (application w) /\
  selected_species (application w') = selected_species (application w) /\
  current_maps (application w') = current_maps (application w) /\
  boxes w' = boxes w /\ file_path_var w' = file_path_var w /\
  snd (generate_map (application w')) = application w' /\
  fst (generate_map (application w')) <> success_notice /\
  (forall counties y,
     montana_counties (application w) = Some counties ->
     int_of_str (year_var (application w)) = Ok y ->
     fst (generate_map (application w')) = Escaped TclError).
Proof.
  intros Hp Hc. unfold load_excel.
  destruct file_path as [|c p]; [now elim Hp|]. rewrite Hc. cbn [negb].
  cbn [destroy load_excel_except]. intros [= <- <-].
  cbn [application boxes file_path_var set_excel_data excel_data montana_counties
       selected_family selected_genus selected_species current_maps].
  split; [reflexivity|]. split; [eexists; split; reflexivity|].
  repeat (split; [reflexivity|]).
  destruct (generate_map_missing_column
              (set_excel_data (application w)
                 (Table (raw_columns raw) (map unprocessed (raw_rows raw))))
              (Table (raw_columns raw) (map unprocessed (raw_rows raw))) eq_refl Hc)
    as (H1 & H2 & H3).
  split; [exact H1|]. split; [exact H2|].
  intros counties y Hm Hy. exact (H3 counties y Hm Hy).
Qed.

(** X18: a sheet with the eight columns is processed and stored whatever happens
    afterwards (the shapefile may fail to load, the summary may raise): the
    three selections are back at their placeholders, the family box lists
    the families of the sheet, the other two boxes are empty, the stored
    maps are kept, and [generate_map] run next builds nothing. *)
Theorem accepted_sheet_resets_the_selection w file_path raw shapefile outcome w' :
  file_path <> [] ->
  forallb (fun col => existsb (String.eqb col) (raw_columns raw)) required_columns = true ->
  load_excel w file_path (Ok raw) shapefile = (outcome, w') ->
  excel_data (application w')
  = Some (Table (raw_columns raw) (map process_row (raw_rows raw))) /\
  selected_family (application w') = lit "Select Family" /\
  selected_genus (application w') = lit "Select Genus" /\
  selected_species (application w') = lit "Select Species" /\
  boxes w' = Dropdowns (family_values_of (map process_row (raw_rows raw))) [] [] /\
  file_path_var w' = file_path /\
  current_maps (application w') = current_maps (application w) /\
  (outcome = LoadedToast <->
   returns shapefile /\ returns (year_range (map process_row (raw_rows raw)))) /\
  snd (generate_map (application w')) = application w' /\
  fst (generate_map (application w')) <> success_notice.
Proof.
  intros Hp Hc. unfold load_excel.
  destruct file_path as [|c p]; [now elim Hp|]. rewrite Hc. cbn [negb rows].
  assert (Hu : forall a : MainApplication,
             selected_family a = lit "Select Family" ->
             snd (generate_map a) = a /\ fst (generate_map a) <> success_notice).
  { intros a E. destruct (generate_map_unselected a) as (H1 & H2 & _); [|tauto].
    rewrite E. reflexivity. }
  destruct shapefile as [counties|e]; cbn [destroy load_excel_except].
  - destruct (year_range _) as [yr|e] eqn:Ey; intros [= <- <-];
      cbn [application boxes file_path_var select set_excel_data
           set_montana_counties excel_data montana_counties selected_family selected_genus
           selected_species current_maps];
      repeat (split; [reflexivity|]); (split; [|now apply Hu]).
    + split; [|reflexivity]. intros _. split; eexists; reflexivity.
    + split; [discriminate|]. intros [_ [? K]]. discriminate K.
  - intros [= <- <-].
    cbn [application boxes file_path_var select set_excel_data
         set_montana_counties excel_data montana_counties selected_family selected_genus
         selected_species current_maps].
    repeat (split; [reflexivity|]). split; [|now apply Hu].
    split; [discriminate|]. intros [[? K] _]. discriminate K.
Qed.

End LoadTheorems.

(* ================================================================= *)
(** ** Proofs: the name of an exported file *)

Lemma two_inj {A} (a b c d : A) : [a; b] = [c; d] -> a = c /\ b = d.
Proof. intros [= -> ->]. now split. Qed.

Lemma two_digits_inj n n' :
  0 <= n < 100 -> 0 <= n' < 100 -> two_digits n = two_digits n' -> n = n'.
Proof.
  intros H H' E. apply two_inj in E. destruct E as [E1 E2].
  assert (0 <= n / 10 /\ 0 <= n mod 10 /\ 0 <= n' / 10 /\ 0 <= n' mod 10)
    as (B1 & B2 & B3 & B4) by (Z.div_mod_to_equations; lia).
  apply Z2N.inj in E1, E2; try lia.
  Z.div_mod_to_equations. lia.
Qed.

Lemma strftime_hour_inj h h' :
  0 <= h < 24 -> 0 <= h' < 24 ->
  strftime_I h = strftime_I h' -> strftime_p h = strftime_p h' -> h = h'.
Proof.
  intros H H' E1 E2. unfold strftime_I in E1. unfold strftime_p in E2.
  assert (Hm : 0 <= h mod 12 < 12) by (apply Z.mod_pos_bound; lia).
  assert (Hm' : 0 <= h' mod 12 < 12) by (apply Z.mod_pos_bound; lia).
  apply two_digits_inj in E1;
    [|destruct (h mod 12 =? 0); lia|destruct (h' mod 12 =? 0); lia].
  assert (E : h mod 12 = h' mod 12).
  { destruct (Z.eqb_spec (h mod 12) 0), (Z.eqb_spec (h' mod 12) 0); lia. }
  assert (E' : (h <? 12) = (h' <? 12)).
  { destruct (h <? 12), (h' <? 12); try reflexivity; discriminate E2. }
  destruct (Z.ltb_spec h 12), (Z.ltb_spec h' 12); try discriminate E';
    Z.div_mod_to_equations; lia.
Qed.

Lemma strftime_p_length h : exists a b, strftime_p h = [a; b].
Proof. unfold strftime_p. destruct (h <? 12); eexists; eexists; reflexivity. Qed.

Lemma year_text_inj y y' rest rest' :
  0 <= y -> 0 <= y' ->
  str_of_int y ++ 46%N :: rest = str_of_int y' ++ 46%N :: rest' ->
  y = y' /\ rest = rest'.
Proof.
  intros H H' E.
  destruct (str_of_int_digits y H) as (Hd & _ & Hv).
  destruct (str_of_int_digits y' H') as (Hd' & _ & Hv').
  assert (S1 := span_app is_ascii_digit (str_of_int y) (46%N :: rest) Hd eq_refl).
  assert (S2 := span_app is_ascii_digit (str_of_int y') (46%N :: rest') Hd' eq_refl).
  rewrite E, S2 in S1. injection S1 as E1 E2. split; [|now symmetry].
  rewrite <- Hv, <- Hv', E1. reflexivity.
Qed.

Lemma two_digits_shape n : exists a b, two_digits n = [a; b].
Proof. eexists. eexists. reflexivity. Qed.

Lemma export_filename_inj now now' export_format export_format' :
  valid_datetime now -> valid_datetime now' ->
  export_filename now export_format = export_filename now' export_format' ->
  now = now' /\ export_format = export_format'.
Proof.
  intros (Hy & Hm & Hd & Hh & Hmin) (Hy' & Hm' & Hd' & Hh' & Hmin').
  destruct now as [y mo d h mi], now' as [y' mo' d' h' mi']. cbn [dt_year dt_month dt_day
    dt_hour dt_minute] in *.
  unfold export_filename, timestamp. cbn [dt_year dt_month dt_day dt_hour dt_minute].
  intros E. apply app_inv_head in E.
  destruct (strftime_p_length h) as (p1 & p2 & Ep), (strftime_p_length h') as (q1 & q2 & Eq).
  destruct (two_digits_shape (if h mod 12 =? 0 then 12 else h mod 12)) as (i1 & i2 & EI).
  destruct (two_digits_shape (if h' mod 12 =? 0 then 12 else h' mod 12)) as (j1 & j2 & EI').
  destruct (two_digits_shape mi) as (a1 & a2 & Ea), (two_digits_shape mi') as (b1 & b2 & Eb).
  destruct (two_digits_shape mo) as (c1 & c2 & Ec), (two_digits_shape mo') as (d1 & d2 & Ed).
  destruct (two_digits_shape d) as (e1 & e2 & Ee), (two_digits_shape d') as (f1 & f2 & Ef).
  unfold strftime_I in E.
  rewrite Ep, Eq, EI, EI', Ea, Eb, Ec, Ed, Ee, Ef in E.
  change (lit "_") with [95%N] in E. change (lit ".") with [46%N] in E.
  rewrite <- !app_assoc in E. cbn [app] in E.
  injection E as E1 E2 E3 E4 E5 E6 E7 E8 E9 E10 E.
  apply year_text_inj in E; [|lia|lia]. destruct E as [-> ->].
  subst.
  assert (h = h').
  { apply strftime_hour_inj; try assumption;
      [unfold strftime_I; now rewrite EI, EI'|now rewrite Ep, Eq]. }
  assert (mi = mi') by (apply two_digits_inj; try lia; now rewrite Ea, Eb).
  assert (mo = mo') by (apply two_digits_inj; try lia; now rewrite Ec, Ed).
  assert (d = d') by (apply two_digits_inj; try lia; now rewrite Ee, Ef).
  subst. split; reflexivity.
Qed.

Section DownloadFacts.
Context {G : Geometry}.

Lemma download_map_saved a now export_format svg_backend savefig name :
  download_map a now export_format svg_backend savefig = Saved name ->
  name = export_filename now export_format.
Proof.
  unfold download_map. destruct (current_maps a); [|discriminate].
  destruct (_ && _); [discriminate|].
  destruct (savefig _); [|discriminate]. now intros [= <-].
Qed.

(** X19: two exports that [download_map] saves get the same file name exactly
    when they are made in the same minute in the same format: the name
    shows the time to the minute only, so the later of two such exports
    replaces the earlier file. *)
Theorem export_names_differ_by_the_minute a a' now now' export_format export_format'
    svg_backend svg_backend' savefig savefig' name name' :
  valid_datetime now -> valid_datetime now' ->
  download_map a now export_format svg_backend savefig = Saved name ->
  download_map a' now' export_format' svg_backend' savefig' = Saved name' ->
  (name = name' <-> now = now' /\ export_format = export_format').
Proof.
  intros Hv Hv' H H'. apply download_map_saved in H, H'. subst name name'. split.
  - now apply export_filename_inj.
  - now intros [-> ->].
Qed.

End DownloadFacts.

(* ================================================================= *)
(** ** Proofs: text that is not degrees and minutes *)

(** X20: text whose first character, once stripped, is not a digit (a sign, a
    letter) is never read as degrees and minutes: it is the number [float]
    makes of it, or NaN; so a minus sign before degrees and minutes gives
    NaN, not a negative angle. *)
Theorem text_without_leading_digit_is_not_dms s c rest :
  str_strip (normalize_marks s) = c :: rest ->
  isdecimal c = false ->
  dms_matches s = false /\
  dms_to_decimal (VStr s)
  = Ok (match parse_float (normalize_marks s) with Some f => f | None => nan end).
Proof.
  intros Hs Hc.
  assert (Hm : re_match dms_pattern (str_strip (normalize_marks s)) = None).
  { destruct (re_match dms_pattern (str_strip (normalize_marks s))) as [m|] eqn:E;
      [|reflexivity].
    apply dms_match_inv in E.
    destruct E as (g1 & g2 & g3 & x & tl & g3' & _ & _ & _ & [Hne Hd] & _ & _ & E & _).
    rewrite Hs in E. destruct g1 as [|d g1]; [now elim Hne|].
    injection E as -> _. simpl in Hd. rewrite Hc in Hd. discriminate. }
  split.
  - unfold dms_matches. now rewrite Hm.
  - unfold dms_to_decimal. rewrite Hm. unfold float_of_str.
    destruct (parse_float (normalize_marks s)); reflexivity.
Qed.

(* ================================================================= *)
(** ** Proofs: the title of the figure *)

Open Scope N_scope.

(** Splitting at the arrow a text without greater-than sign that is followed
    by an arrow, or by nothing. *)
Lemma split_piece a : forall piece rest,
  no_arrow a ->
  split_from arrow 0 piece (a ++ arrow ++ rest)
  = rev (rev a ++ piece) :: split_from arrow 0 [] rest.
Proof.
  unfold no_arrow. induction a as [|c a IH]; intros piece rest H.
  - reflexivity.
  - simpl in H. apply andb_prop in H. destruct H as [Hc Ha].
    apply negb_true_iff, N.eqb_neq in Hc.
    cbn [app split_from].
    assert (E : starts_with arrow (c :: a ++ arrow ++ rest) = false).
    { change arrow with [32; 62; 32]. cbn [starts_with].
      destruct (32 =? c) eqn:E1; [|reflexivity]. cbn [andb].
      destruct a as [|c' a].
      - reflexivity.
      - simpl in Ha. apply andb_prop in Ha. destruct Ha as [Hc' _].
        apply negb_true_iff in Hc'. cbn [app]. rewrite N.eqb_sym, Hc'. reflexivity. }
    rewrite E, IH by exact Ha. cbn [rev]. now rewrite <- app_assoc.
Qed.

Lemma split_last a : forall piece,
  no_arrow a -> split_from arrow 0 piece a = [rev (rev a ++ piece)].
Proof.
  unfold no_arrow. induction a as [|c a IH]; intros piece H.
  - reflexivity.
  - simpl in H. apply andb_prop in H. destruct H as [Hc Ha].
    apply negb_true_iff in Hc. cbn [split_from].
    assert (E : starts_with arrow (c :: a) = false).
    { change arrow with [32; 62; 32]. cbn [starts_with].
      destruct (32 =? c) eqn:E1; [|reflexivity]. cbn [andb].
      destruct a as [|c' a]; [reflexivity|].
      simpl in Ha. apply andb_prop in Ha. destruct Ha as [Hc' _].
      apply negb_true_iff in Hc'. rewrite N.eqb_sym, Hc'. reflexivity. }
    rewrite E, IH by exact Ha. cbn [rev]. now rewrite <- app_assoc.
Qed.

Lemma split_names names last :
  Forall no_arrow names -> no_arrow last ->
  split_from arrow 0 [] (fold_right (fun n rest => n ++ arrow ++ rest) last names)
  = names ++ [last].
Proof.
  intros Hn Hl. induction Hn as [|n names Hn _ IH]; cbn [fold_right app].
  - rewrite split_last by exact Hl. now rewrite app_nil_r, rev_involutive.
  - rewrite split_piece by exact Hn. rewrite IH, app_nil_r, rev_involutive. reflexivity.
Qed.

(** X21: the title above the maps is the stored line, family, genus and species
    with arrows between, whenever none of the three names holds a
    greater-than sign; a family that holds an arrow of its own makes four
    pieces, and [display_maps] raises [ValueError] on unpacking them. *)
Theorem title_needs_names_without_arrows fam gen spec :
  no_arrow gen -> no_arrow spec ->
  (no_arrow fam ->
   figure_title (fam ++ arrow ++ gen ++ arrow ++ spec)
   = Ok (Some (fam ++ arrow ++ gen ++ arrow ++ spec))) /\
  (forall a b, no_arrow a -> no_arrow b -> fam = a ++ arrow ++ b ->
   figure_title (fam ++ arrow ++ gen ++ arrow ++ spec) = Raise ValueError).
Proof.
  intros Hg Hs. split.
  - intros Hf.
    assert (K : str_split arrow (fam ++ arrow ++ gen ++ arrow ++ spec) = Ok [fam; gen; spec]).
    { change (str_split arrow (fam ++ arrow ++ gen ++ arrow ++ spec))
        with (Ok (split_from arrow 0 []
                    (fold_right (fun n rest => n ++ arrow ++ rest) spec [fam; gen]))).
      rewrite split_names by (repeat constructor; assumption). reflexivity. }
    unfold figure_title.
    destruct (fam ++ arrow ++ gen ++ arrow ++ spec) as [|c0 l0] eqn:E.
    { destruct fam; discriminate E. }
    rewrite K. cbn [bind]. now rewrite E.
  - intros a b Ha Hb ->.
    assert (K : str_split arrow ((a ++ arrow ++ b) ++ arrow ++ gen ++ arrow ++ spec)
                = Ok [a; b; gen; spec]).
    { rewrite <- !app_assoc.
      change (str_split arrow (a ++ arrow ++ b ++ arrow ++ gen ++ arrow ++ spec))
        with (Ok (split_from arrow 0 []
                    (fold_right (fun n rest => n ++ arrow ++ rest) spec [a; b; gen]))).
      rewrite split_names by (repeat constructor; assumption). reflexivity. }
    unfold figure_title.
    destruct ((a ++ arrow ++ b) ++ arrow ++ gen ++ arrow ++ spec) as [|c0 l0] eqn:E.
    { destruct a; discriminate E. }
    rewrite K. reflexivity.
Qed.

Open Scope Z_scope.

(* ================================================================= *)
(** ** Proofs: the loading window and the drawing *)

Section Drawing.
Context {RT : Runtime} {G : Geometry} {MP : Matplotlib}.

Lemma legend_elements_labels ranges : forall labels,
  legend_elements ranges = Ok labels -> labels_of ranges = Ok labels.
Proof.
  induction ranges as [|r rs IH]; intros labels; cbn [legend_elements labels_of].
  - auto.
  - destruct (legend_label r) as [label|e]; [|discriminate]. cbn [bind].
    destruct (Patch (range_color r) label); [|discriminate]. cbn [bind].
    destruct (legend_elements rs) as [rest|e]; [|discriminate]. cbn [bind].
    intros [= <-]. now rewrite (IH rest eq_refl).
Qed.

(** X22: the maps are stored before they are drawn.  When the [try] block
    has built both maps and [display_maps] then raises, [generate_map] shows
    the toast of that exception and yet keeps the new maps, so that
    [download_map] no longer asks for maps to be generated first. *)
Theorem failed_drawing_keeps_the_maps a data counties m e :
  excel_data a = Some data -> montana_counties a = Some counties ->
  generate_map_try a data counties = Ok (Generated m) ->
  display_maps (set_current_maps a m) = Raise e ->
  generate_map a = (ToastException e, set_current_maps a m) /\
  current_maps (snd (generate_map a)) = Some m /\
  (forall now export_format svg_backend savefig,
     download_map (snd (generate_map a)) now export_format svg_backend savefig
     <> NoMapsYet).
Proof.
  intros Hd Hc Ht He.
  assert (E : generate_map a = (ToastException e, set_current_maps a m)).
  { rewrite (generate_map_cases a data counties Hd Hc). unfold generate_map_try in Ht.
    destruct (generate_map_body a data counties Shown) as [r loading].
    cbn [fst] in Ht. subst r. now rewrite He. }
  rewrite E. split; [reflexivity|]. split; [reflexivity|].
  intros now export_format svg_backend savefig. unfold download_map.
  cbn [snd set_current_maps current_maps].
  destruct (_ && _); [discriminate|]. destruct (savefig _); discriminate.
Qed.

(** X23: a year that is no integer is answered by the toast that asks for a
    valid year; a year that is an integer but not positive is answered by
    nothing at all: the loading window is destroyed before the [ValueError]
    is raised and again where it is caught, and the [TclError] of the second
    [destroy] leaves [generate_map]. *)
Theorem year_that_is_not_positive_shows_nothing a data counties :
  excel_data a = Some data -> montana_counties a = Some counties ->
  (int_of_str (year_var a) = Raise ValueError ->
   generate_map a = (Toast "Please enter a valid year" true, a)) /\
  (forall y,
     int_of_str (year_var a) = Ok y -> y <= 0 ->
     generate_map a = (Escaped TclError, a)).
Proof.
  intros Hd Hc. rewrite (generate_map_cases a data counties Hd Hc), generate_map_body_eq.
  split.
  - intros ->. reflexivity.
  - intros y -> Hy. apply Z.leb_le in Hy. now rewrite Hy.
Qed.

End Drawing.

(* ================================================================= *)
(** ** The statements about the interface at work on the example data *)

Lemma title_choice_selects_the_name_witness :
  @taxon_test ascii_runtime (lit "All")
     (str_strip (@str_title ascii_titlecase (lit " bovidae"))) (lit "Bovidae") = true.
Proof.
  destruct (@title_choice_selects_the_name ascii_runtime ascii_titlecase
              (lit " bovidae") (lit "Bovidae") eq_refl) as [H _].
  apply H; [discriminate|reflexivity].
Defined.

Lemma species_dropdown_lists_the_species_witness :
  exists a' d' valid_species,
    @update_species_dropdown ascii_runtime geometry_of_boxes
      (demo_choice (lit "2000") (lit "All") (lit "All") (lit "Select Species")) no_boxes
    = Ok (a', d') /\
    species_values d' = lit "all" :: valid_species /\
    StronglySorted str_lt valid_species /\
    selected_species a' = lit "Select Species".
Proof.
  destruct (@species_dropdown_lists_the_species ascii_runtime geometry_of_boxes
              (demo_choice (lit "2000") (lit "All") (lit "All") (lit "Select Species"))
              no_boxes _ _ eq_refl)
    as (data & valid_species & _ & Hv & Hs & _ & Hsel & _);
    [discriminate|discriminate|].
  eexists. eexists. exists valid_species.
  split; [reflexivity|]. split; [exact Hv|]. split; [exact Hs|exact Hsel].
Defined.

Lemma offered_species_is_found_witness :
  fst (@generate_map ascii_runtime geometry_of_boxes plain_figure
         (demo_choice (lit "2000") (lit "All") (lit "All") (lit "lupus")))
  <> no_data_notice.
Proof.
  destruct (@offered_species_is_found ascii_runtime geometry_of_boxes plain_figure
              (demo_choice (lit "2000") (lit "All") (lit "All") (lit "Select Species"))
              no_boxes _ _ [lit "bison"; lit "lupus"] (lit "lupus") eq_refl eq_refl)
    as (data & _ & _ & H); [right; left; reflexivity|reflexivity|].
  exact H.
Defined.

Lemma dropdown_update_asks_for_selection_witness :
  exists a' d',
    @update_genus_dropdown ascii_runtime ascii_titlecase geometry_of_boxes
      (demo_choice (lit "2000") (lit "Bovidae") (lit "Bison") (lit "bison")) no_boxes
    = Ok (a', d') /\
    fst (@generate_map ascii_runtime geometry_of_boxes plain_figure a')
    = MessageBox "Missing Input" "Please select Family, Genus, and Species.".
Proof.
  eexists. eexists. split; [reflexivity|].
  destruct (@dropdown_update_asks_for_selection ascii_runtime ascii_titlecase
              geometry_of_boxes plain_figure
              (demo_choice (lit "2000") (lit "Bovidae") (lit "Bison") (lit "bison"))
              no_boxes _ _ (or_introl eq_refl))
    as (_ & _ & H & _).
  apply (H demo_table demo_counties); try reflexivity. exists 2000. reflexivity.
Defined.

Lemma demo_names_are_plain data r :
  excel_data (demo_choice (lit "2000") (lit "Bovidae") (lit "Select Genus")
                          (lit "Select Species")) = Some data ->
  In r (rows data) ->
  forallb is_ascii (genus r) = true /\ str_strip (genus r) = genus r.
Proof.
  intros [= <-] H. cbn [rows demo_table] in H.
  destruct H as [<-|[<-|[<-|[]]]]; split; reflexivity.
Qed.

Lemma offered_genus_has_rows_witness :
  exists r,
    In r (rows demo_table) /\ lit "Bison" = @str_title ascii_titlecase (genus r) /\
    @taxon_test ascii_runtime (lit "All") (lit "Bovidae") (family r) = true /\
    @taxon_test ascii_runtime (lit "All") (str_strip (lit "Bison")) (genus r) = true.
Proof.
  destruct (@offered_genus_has_rows ascii_runtime ascii_titlecase geometry_of_boxes
              (demo_choice (lit "2000") (lit "Bovidae") (lit "Select Genus")
                           (lit "Select Species"))
              no_boxes _ _ [lit "Bison"] (lit "Bison") eq_refl eq_refl
              (or_introl eq_refl))
    as (data & r & Hd & Hr & Hg & Hf & Ht);
    [discriminate|exact demo_names_are_plain|].
  injection Hd as <-. exists r. repeat split; assumption.
Defined.

Lemma legend_needs_finite_bounds_witness :
  returns (legend_labels default_ranges) /\
  ~ returns (legend_labels [ (lit "nan", lit "10", lit "white") ]).
Proof.
  split.
  - apply (proj1 (@legend_needs_finite_bounds geometry_of_boxes default_ranges _ eq_refl)).
    reflexivity.
  - intros H.
    apply (proj1 (@legend_needs_finite_bounds geometry_of_boxes
                    [ (lit "nan", lit "10", lit "white") ] _ eq_refl)) in H.
    discriminate H.
Defined.

Lemma legend_shows_integer_bounds_witness :
  legend_labels [ (str_of_int 11, str_of_int 100, lit "#bcbec0") ] = Ok [ lit "11-100" ] /\
  legend_labels [ (str_of_int 11, infinity_sign, lit "#bcbec0") ] = Ok [ lit "11+" ].
Proof.
  apply (legend_shows_integer_bounds 11 100 (lit "#bcbec0")); split; try lia; reflexivity.
Defined.

Lemma integer_range_is_interval_witness :
  exists r r',
    read_range (str_of_int 1, str_of_int 10, lit "#e7e8e9") = Ok r /\
    in_color_range 7 r = (1 <=? 7) && (7 <=? 10) /\
    read_range (str_of_int 1, infinity_sign, lit "#e7e8e9") = Ok r' /\
    in_color_range 7 r' = (1 <=? 7).
Proof.
  apply (integer_range_is_interval 1 10 7); split; try lia; reflexivity.
Defined.

Lemma default_ranges_partition_the_counts_witness :
  exists t,
    @process_county_data geometry_of_boxes demo_counties initial_color_ranges
      [ Located (dms_row (lit "N")) (@convert_coordinates ascii_runtime (dms_row (lit "N"))) ]
    = Ok t /\
    map geometry t = demo_counties /\
    Forall (fun c => 0 <= point_count c /\ color c = default_color (point_count c)) t.
Proof.
  apply (@default_ranges_partition_the_counts geometry_of_boxes). reflexivity.
Defined.

Lemma later_cutoff_counts_more_witness :
  exists m1 m2,
    current_maps (snd (@generate_map ascii_runtime geometry_of_boxes plain_figure
                         (demo_choice (lit "2000") (lit "All") (lit "All") (lit "all"))))
    = Some m1 /\
    current_maps (snd (@generate_map ascii_runtime geometry_of_boxes plain_figure
                         (demo_choice (lit "2015") (lit "All") (lit "All") (lit "all"))))
    = Some m2 /\
    map_b m1 = map_b m2 /\
    Forall2 (fun c1 c2 => geometry c1 = geometry c2 /\ point_count c1 <= point_count c2)
            (map_a m1) (map_a m2).
Proof.
  eexists. eexists. split; [vm_compute; reflexivity|]. split; [vm_compute; reflexivity|].
  apply (@later_cutoff_counts_more ascii_runtime geometry_of_boxes plain_figure
           (demo_choice (lit "2000") (lit "All") (lit "All") (lit "all"))
           (demo_choice (lit "2015") (lit "All") (lit "All") (lit "all"))
           (snd (@generate_map ascii_runtime geometry_of_boxes plain_figure
                   (demo_choice (lit "2000") (lit "All") (lit "All") (lit "all"))))
           (snd (@generate_map ascii_runtime geometry_of_boxes plain_figure
                   (demo_choice (lit "2015") (lit "All") (lit "All") (lit "all")))));
    try (vm_compute; reflexivity).
  split; [vm_compute; discriminate|vm_compute; reflexivity].
Defined.

Lemma direction_is_one_letter_witness :
  @lat_direction ascii_runtime (dms_row (lit " s ")) = lit "S" /\
  @lat_direction ascii_runtime (dms_row (lit "South")) = lit "N".
Proof.
  split.
  - apply (proj1 (@direction_is_one_letter ascii_runtime (dms_row (lit " s "))
                    (lit " s ") (lit "W") eq_refl eq_refl eq_refl eq_refl)).
    right. reflexivity.
  - apply (proj1 (proj2 (@direction_is_one_letter ascii_runtime (dms_row (lit "South"))
                           (lit "South") (lit "W") eq_refl eq_refl eq_refl eq_refl))).
    discriminate.
Defined.

Lemma loaded_names_are_normal_witness :
  @normalize_name ascii_runtime (VStr (lit " Bovidae ")) = lit "bovidae" /\
  str_strip (@normalize_name ascii_runtime (VStr (lit " Bovidae ")))
  = @normalize_name ascii_runtime (VStr (lit " Bovidae ")).
Proof.
  split; [reflexivity|].
  apply (@loaded_names_are_normal ascii_runtime (VStr (lit " Bovidae "))). reflexivity.
Defined.

Lemma loaded_family_entry_selects_its_rows_witness :
  exists r,
    In r (map (@process_row ascii_runtime example_pandas) (raw_rows demo_sheet)) /\
    lit "Bovidae" = @str_title ascii_titlecase (family r) /\
    @valid_name ascii_runtime (family r) = true /\
    @taxon_test ascii_runtime (lit "All") (str_strip (lit "Bovidae")) (family r) = true.
Proof.
  apply (@loaded_family_entry_selects_its_rows ascii_runtime ascii_titlecase example_pandas
           (raw_rows demo_sheet) (lit "Bovidae")).
  - repeat constructor.
  - left. reflexivity.
Defined.

Lemma refused_sheet_replaces_the_table_witness :
  fst (@load_excel ascii_runtime ascii_titlecase example_pandas geometry_of_boxes
         demo_window (lit "plants.xlsx") (Ok partial_sheet) (Ok demo_counties))
  = LoadEscaped TclError /\
  fst (@generate_map ascii_runtime geometry_of_boxes plain_figure
         (application
            (snd (@load_excel ascii_runtime ascii_titlecase example_pandas geometry_of_boxes
                    demo_window (lit "plants.xlsx") (Ok partial_sheet) (Ok demo_counties)))))
  = Escaped TclError.
Proof.
  destruct (@refused_sheet_replaces_the_table ascii_runtime ascii_titlecase example_pandas
              geometry_of_boxes plain_figure demo_window (lit "plants.xlsx") partial_sheet
              (Ok demo_counties) _ _ ltac:(discriminate) eq_refl eq_refl)
    as (H1 & _ & _ & _ & _ & _ & _ & _ & _ & _ & _ & H2).
  split; [exact H1|exact (H2 demo_counties 2000 eq_refl eq_refl)].
Defined.

Lemma accepted_sheet_resets_the_selection_witness :
  fst (@load_excel ascii_runtime ascii_titlecase example_pandas geometry_of_boxes
         demo_window (lit "plants.xlsx") (Ok demo_sheet) (Ok demo_counties))
  = LoadedToast /\
  boxes (snd (@load_excel ascii_runtime ascii_titlecase example_pandas geometry_of_boxes
                demo_window (lit "plants.xlsx") (Ok demo_sheet) (Ok demo_counties)))
  = Dropdowns [ lit "All"; lit "Bovidae" ] [] [].
Proof.
  destruct (@accepted_sheet_resets_the_selection ascii_runtime ascii_titlecase example_pandas
              geometry_of_boxes plain_figure demo_window (lit "plants.xlsx") demo_sheet
              (Ok demo_counties) _ _ ltac:(discriminate) eq_refl eq_refl)
    as (_ & _ & _ & _ & H1 & _ & _ & H2 & _).
  split; [|exact H1]. apply H2. split; eexists; reflexivity.
Defined.

Lemma export_names_differ_by_the_minute_witness :
  exists name name',
    download_map mapped_app morning (lit "tiff") true (fun _ => Ok tt) = Saved name /\
    download_map mapped_app evening (lit "tiff") true (fun _ => Ok tt) = Saved name' /\
    name <> name'.
Proof.
  eexists. eexists. split; [reflexivity|]. split; [reflexivity|].
  intros H.
  apply (@export_names_differ_by_the_minute geometry_of_boxes mapped_app mapped_app
           morning evening (lit "tiff") (lit "tiff") true true
           (fun _ => Ok tt) (fun _ => Ok tt) _ _) in H;
    try reflexivity.
  - destruct H as [H _]. discriminate H.
  - repeat split; vm_compute; congruence.
  - repeat split; vm_compute; congruence.
Defined.

Lemma text_without_leading_digit_is_not_dms_witness :
  dms_to_decimal (VStr (lit "-44°30'")) = Ok nan.
Proof.
  apply (proj2 (text_without_leading_digit_is_not_dms (lit "-44°30'") 45%N
                  (lit "44°30'") eq_refl eq_refl)).
Defined.

Lemma left_panel_is_23_percent_witness : set_panel_widths 1200 = Some 266.
Proof. apply (proj1 (left_panel_is_23_percent 1200)). lia. Defined.

Lemma unreadable_bounds_stop_the_maps_witness :
  @process_county_data geometry_of_boxes demo_counties
    [ (lit "ten", lit "20", lit "white") ] []
  = Raise ValueError.
Proof.
  apply (proj2 (proj1 (@unreadable_bounds_stop_the_maps ascii_runtime geometry_of_boxes plain_figure
                         [ (lit "ten", lit "20", lit "white") ])
                      demo_counties [])).
  reflexivity.
Defined.

Lemma summary_needs_a_numeric_year_witness :
  year_range [] = Raise ValueError /\ returns (year_range (rows demo_table)).
Proof.
  split.
  - apply (proj1 (summary_needs_a_numeric_year [])). reflexivity.
  - apply (proj1 (proj2 (summary_needs_a_numeric_year (rows demo_table)))).
    split; reflexivity.
Defined.

Lemma title_needs_names_without_arrows_witness :
  figure_title (lit "Bovidae > Bison > bison") = Ok (Some (lit "Bovidae > Bison > bison")) /\
  figure_title (lit "A > B > Bison > bison") = Raise ValueError.
Proof.
  destruct (title_needs_names_without_arrows (lit "Bovidae") (lit "Bison") (lit "bison")
              eq_refl eq_refl) as [H _].
  destruct (title_needs_names_without_arrows (lit "A > B") (lit "Bison") (lit "bison")
              eq_refl eq_refl) as [_ H'].
  split; [exact (H eq_refl)|exact (H' (lit "A") (lit "B") eq_refl eq_refl eq_refl)].
Defined.

Lemma failed_drawing_keeps_the_maps_witness :
  fst (@generate_map ascii_runtime geometry_of_boxes plain_figure unlabelled_app)
  = ToastException ValueError /\
  current_maps (snd (@generate_map ascii_runtime geometry_of_boxes plain_figure
                                   unlabelled_app))
  <> None.
Proof.
  assert (H : exists m,
             @generate_map_try ascii_runtime geometry_of_boxes unlabelled_app
               demo_table demo_counties = Ok (Generated m) /\
             @display_maps geometry_of_boxes plain_figure (set_current_maps unlabelled_app m)
             = Raise ValueError).
  { eexists. split; vm_compute; reflexivity. }
  destruct H as (m & Ht & Hd).
  destruct (@failed_drawing_keeps_the_maps ascii_runtime geometry_of_boxes plain_figure
              unlabelled_app demo_table demo_counties m ValueError eq_refl eq_refl Ht Hd)
    as (H1 & H2 & _).
  rewrite H1 in *. split; [reflexivity|]. rewrite H2. discriminate.
Defined.

Lemma year_that_is_not_positive_shows_nothing_witness :
  @generate_map ascii_runtime geometry_of_boxes plain_figure
    (demo_choice (lit "twenty") (lit "All") (lit "All") (lit "all"))
  = (Toast "Please enter a valid year" true,
     demo_choice (lit "twenty") (lit "All") (lit "All") (lit "all")) /\
  @generate_map ascii_runtime geometry_of_boxes plain_figure
    (demo_choice (lit "0") (lit "All") (lit "All") (lit "all"))
  = (Escaped TclError, demo_choice (lit "0") (lit "All") (lit "All") (lit "all")).
Proof.
  split.
  - apply (proj1 (@year_that_is_not_positive_shows_nothing ascii_runtime geometry_of_boxes
                    plain_figure (demo_choice (lit "twenty") (lit "All") (lit "All") (lit "all"))
                    demo_table demo_counties eq_refl eq_refl)).
    reflexivity.
  - apply (proj2 (@year_that_is_not_positive_shows_nothing ascii_runtime geometry_of_boxes
                    plain_figure (demo_choice (lit "0") (lit "All") (lit "All") (lit "all"))
                    demo_table demo_counties eq_refl eq_refl) 0).
    + reflexivity.
    + lia.
Defined.
